(** * crawler-search-ai: crawl frontier, revisit policy, extraction and index

    A shallow embedding of [latest/redis.js], [latest/crawl.js] and of the two
    routes of [search.txt] ([search/route.js] and [crawl-and-index/route.js]),
    with the properties of the specification stated over it.

    Conventions.
    - JavaScript strings are [string]; a character stands for one code
      unit, and the texts of the model are made of the code units below 256.
    - [Date.now()] is an integer number of milliseconds, a [Z]. A time value
      is at most 8.64e15 in absolute value, below 2^53: on time values the
      subtraction and the comparison of the source are exact.
    - [JSON.parse], [new URL(...).href] and the HTML parser are arguments
      of the functions that call them.
    - What the outside world answers (a navigation, a fetch, a file read, a
      generated UUID) is an explicit argument of the function that asks. *)

From Stdlib Require Import ZArith String Ascii List Bool Lia.
From Stdlib Require Import DecimalPos DecimalString.
From stdpp Require Import gmap strings list.

Local Open Scope string_scope.

(** ** JavaScript string and number primitives used by the sources *)

Module JS.

(** [\s] of a regular expression, the white space of [trim] and the one
    [parseInt] skips, on the code units below 256: TAB, LF, VT, FF, CR,
    SPACE and NO-BREAK SPACE (U+00A0, the [&nbsp;] of HTML). *)
Definition is_space (c : ascii) : bool :=
  let n := nat_of_ascii c in
  ((9 <=? n)%nat && (n <=? 13)%nat) || (n =? 32)%nat || (n =? 160)%nat.

Definition is_digit (c : ascii) : bool :=
  let n := nat_of_ascii c in (48 <=? n)%nat && (n <=? 57)%nat.

Definition digit_val (c : ascii) : Z := Z.of_nat (nat_of_ascii c) - 48.

(** [s.replace(/\s+/g, ' ')]: [in_run] tells that the previous character
    was white space, whose run has already been replaced. *)
Fixpoint collapse_from (in_run : bool) (s : string) : string :=
  match s with
  | EmptyString => EmptyString
  | String c r =>
      if is_space c
      then if in_run then collapse_from true r
           else String " " (collapse_from true r)
      else String c (collapse_from false r)
  end.

Definition collapse_spaces (s : string) : string := collapse_from false s.

Fixpoint trim_start (s : string) : string :=
  match s with
  | EmptyString => EmptyString
  | String c r => if is_space c then trim_start r else s
  end.

Fixpoint all_space (s : string) : bool :=
  match s with
  | EmptyString => true
  | String c r => is_space c && all_space r
  end.

Fixpoint trim_end (s : string) : string :=
  match s with
  | EmptyString => EmptyString
  | String c r => if all_space s then EmptyString else String c (trim_end r)
  end.

(** [s.trim()] *)
Definition trim (s : string) : string := trim_end (trim_start s).

(** [s.substring(0, n)] *)
Fixpoint take_chars (n : nat) (s : string) : string :=
  match n, s with
  | O, _ => EmptyString
  | _, EmptyString => EmptyString
  | S k, String c r => String c (take_chars k r)
  end.

(** [s.startsWith(p)] *)
Fixpoint startsWith (p s : string) : bool :=
  match p, s with
  | EmptyString, _ => true
  | String _ _, EmptyString => false
  | String a p', String b s' => Ascii.eqb a b && startsWith p' s'
  end.

(** [s.includes(needle)] *)
Fixpoint includes (needle s : string) : bool :=
  startsWith needle s ||
  match s with
  | EmptyString => false
  | String _ r => includes needle r
  end.

(** [s.endsWith(p)] *)
Fixpoint endsWith (p s : string) : bool :=
  String.eqb p s ||
  match s with
  | EmptyString => false
  | String _ r => endsWith p r
  end.

(** [s.toLowerCase()] on the letters A to Z. *)
Definition lower_char (c : ascii) : ascii :=
  let n := nat_of_ascii c in
  if (65 <=? n)%nat && (n <=? 90)%nat then ascii_of_nat (n + 32) else c.

Fixpoint toLowerCase (s : string) : string :=
  match s with
  | EmptyString => EmptyString
  | String c r => String (lower_char c) (toLowerCase r)
  end.

(** [c.repeat(n)], to build long inputs. *)
Fixpoint repeat_char (c : ascii) (n : nat) : string :=
  match n with
  | O => EmptyString
  | S k => String c (repeat_char c k)
  end.

(** [!s] for a string: only the empty string is falsy. *)
Definition falsy (s : string) : bool :=
  match s with EmptyString => true | _ => false end.

(** [a || b] on strings. *)
Definition or_else (a b : string) : string := if falsy a then b else a.

(** [list.join(sep)] *)
Fixpoint join (sep : string) (l : list string) : string :=
  match l with
  | [] => EmptyString
  | [x] => x
  | x :: r => x ++ sep ++ join sep r
  end.

(** [n.toString()] for an integer [n]: decimal digits, with a minus sign
    for a negative number. *)
Definition toString (n : Z) : string :=
  match n with
  | Z0 => "0"
  | Zpos p => NilEmpty.string_of_uint (Pos.to_uint p)
  | Zneg p => String "-" (NilEmpty.string_of_uint (Pos.to_uint p))
  end.

(** The digits of [parseInt]: the longest prefix of decimal digits, read
    most significant first. [None] when there is no digit at all. *)
Fixpoint digits_from (acc : Z) (seen : bool) (s : string) : option Z :=
  match s with
  | EmptyString => if seen then Some acc else None
  | String c r =>
      if is_digit c then digits_from (10 * acc + digit_val c) true r
      else if seen then Some acc else None
  end.

(** [parseInt(s, 10)]: leading white space is skipped, one sign is
    accepted, then the digits; [None] is [NaN]. The value is exact (the
    source's double is exact below 2^53, far above any timestamp). *)
Definition parseInt (s : string) : option Z :=
  match trim_start s with
  | String "-" r => Z.opp <$> digits_from 0 false r
  | String "+" r => digits_from 0 false r
  | t => digits_from 0 false t
  end.

End JS.

(** ** The values [JSON.parse] returns *)

#[local] Unset Elimination Schemes.
Inductive JSValue :=
| JNull
| JBool (b : bool)
| JNum (n : Z)
| JStr (s : string)
| JArr (items : list JSValue)
| JObj (props : list (string * JSValue)).
#[local] Set Elimination Schemes.

Module JSValues.

(** [v[name]] for a value that is not [null]: the property of an object,
    [None] ([undefined]) otherwise. The first binding of a name is the
    one kept here; [JSON.parse] leaves one binding per name. *)
Fixpoint lookup_prop (name : string) (props : list (string * JSValue)) : option JSValue :=
  match props with
  | [] => None
  | (k, v) :: r => if String.eqb k name then Some v else lookup_prop name r
  end.

Definition prop (name : string) (v : JSValue) : option JSValue :=
  match v with
  | JObj props => lookup_prop name props
  | _ => None
  end.

(** [!v] *)
Definition falsy (v : option JSValue) : bool :=
  match v with
  | None | Some JNull | Some (JBool false) | Some (JNum 0) | Some (JStr EmptyString) => true
  | _ => false
  end.

(** [Array.isArray(v)] *)
Definition isArray (v : option JSValue) : bool :=
  match v with Some (JArr _) => true | _ => false end.

(** [String(v)], the text [parseInt] reads from a value that is not a
    string. A number held by the model is an integer and prints in
    decimal; an array prints its items separated by commas, [null] as
    nothing; an object prints as [[object Object]]. *)
Fixpoint toString (v : JSValue) : string :=
  match v with
  | JNull => "null"
  | JBool b => if b then "true" else "false"
  | JNum n => JS.toString n
  | JStr s => s
  | JArr items =>
      JS.join "," (map (fun item => match item with
                                    | JNull => EmptyString
                                    | _ => toString item
                                    end) items)
  | JObj _ => "[object Object]"
  end.

(** Equality of two values used as keys of a [Map]: by value on
    strings, numbers and booleans; two parsed objects or arrays are
    never the same key. *)
Definition same_key (a b : JSValue) : bool :=
  match a, b with
  | JStr x, JStr y => String.eqb x y
  | JNum x, JNum y => Z.eqb x y
  | JBool x, JBool y => Bool.eqb x y
  | _, _ => false
  end.

End JSValues.

(** ** The [@upstash/redis] client

    The client is the npm package [@upstash/redis], not code of this
    repository. The model keeps what [latest/redis.js] depends on,
    following the package:
    - the string arguments of a command are sent as they are;
    - every reply goes through [parseResponse], which hands back
      [JSON.parse(reply)], or the reply itself when [JSON.parse] throws
      or gives a number that does not print back as the reply;
    - [hset(key, kv)] takes the fields and their values as one object
      [kv] and sends [HSET key] followed by [Object.entries(kv)]; it reads
      no further argument. *)

Module Upstash.

(** [Object.entries(s)] for a string [s]: one entry per code unit, named
    by its index and holding that code unit. *)
Fixpoint entries_from (i : nat) (s : string) : list (string * string) :=
  match s with
  | EmptyString => []
  | String c r => (JS.toString (Z.of_nat i), String c EmptyString) :: entries_from (S i) r
  end.

Definition Object_entries (s : string) : list (string * string) := entries_from 0 s.

(** Whether a field name starts with a decimal digit, as the name of an
    index does. *)
Definition digit_first (field : string) : bool :=
  match field with
  | String c _ => JS.is_digit c
  | EmptyString => false
  end.

(** A Redis hash: the text stored under each field. *)
Abbreviation Hash := (gmap string string).

(** [HSET key field value ...], the pairs written from left to right.
    Redis refuses the command when there is no pair, and the client
    throws: [None]. *)
Definition hset (kv : list (string * string)) (h : Hash) : option Hash :=
  match kv with
  | [] => None
  | _ => Some (fold_left (fun m entry => <[fst entry := snd entry]> m) kv h)
  end.

Section Replies.
(** [JSON.parse]; [None] when it throws. *)
Variable JSON_parse : string -> option JSValue.

(** [parseResponse(result)] for a reply that is a string. *)
Definition parseResponse (result : string) : JSValue :=
  match JSON_parse result with
  | Some (JNum parsed) =>
      if String.eqb (JS.toString parsed) result then JNum parsed else JStr result
  | Some parsed => parsed
  | None => JStr result
  end.

(** [hget(key, field)]: [None] is [null], the answer for a field that
    does not exist. *)
Definition hget (field : string) (h : Hash) : option JSValue :=
  parseResponse <$> h !! field.
End Replies.

End Upstash.

(** ** [latest/redis.js]: the key-value store adapter *)

Module Redis.

(** The document object built by [latest/crawl.js] and stored under
    [index:<uuid>]. [JSON.stringify] on the way in is kept abstract: the
    store holds the record. *)
Record Document := mkDocument {
  doc_id : Z;
  doc_title : string;
  doc_content : string;
  doc_url : string;
  doc_timestamp : Z
}.

(** The three families of keys the adapter uses: the set
    [urls:to_crawl], the hash [urls:visited] (the text stored under each
    field) and the string keys [index:<id>]. *)
Record Store := mkStore {
  to_crawl : gset string;
  visited : Upstash.Hash;
  index : gmap string Document
}.

Definition empty : Store := mkStore ∅ ∅ ∅.

Definition addUrlsToCrawl (urls : list string) (st : Store) : Store :=
  mkStore (to_crawl st ∪ list_to_set urls) (visited st) (index st).

Definition getUrlsToCrawl (st : Store) : list string := elements (to_crawl st).

(** [markUrlVisited(url)], with [now] the value of [Date.now()]; [None]
    when it throws. The call is
    [redis.hset('urls:visited', url, timestamp.toString())]: [url] stands
    where the client reads the object [kv], so that the code units of the
    URL are written under their indices, and the third argument is not
    read. *)
Definition markUrlVisited (now : Z) (url : string) (st : Store) : option Store :=
  let timestamp := now in
  let kv := url in
  match Upstash.hset (Upstash.Object_entries kv) (visited st) with
  | Some written => Some (mkStore (to_crawl st) written (index st))
  | None => None
  end.

Definition sixHours : Z := 6 * 60 * 60 * 1000.

Section WithJSON.
(** [JSON.parse]; [None] when it throws. *)
Variable JSON_parse : string -> option JSValue.

(** [canCrawlUrl(url)], with [now] the value of [Date.now()] at the
    comparison. [timestamp] is what the client hands back for the field
    named by the URL; [parseInt] reads the text of that value. A
    comparison with [NaN] is false. *)
Definition canCrawlUrl (now : Z) (url : string) (st : Store) : bool :=
  let timestamp := Upstash.hget JSON_parse url (visited st) in
  if JSValues.falsy timestamp then true
  else
    match timestamp with
    | None => true
    | Some value =>
        match JS.parseInt (JSValues.toString value) with
        | None => false
        | Some lastVisited => (now - lastVisited >? sixHours)%Z
        end
    end.
End WithJSON.

(** Which of the two branches of [saveToSearchIndex] ran. *)
Inductive SaveBranch := Updating | AddingNew.

Definition index_key (documentId : string) : string := "index:" ++ documentId.

(** [saveToSearchIndex(crawlId, document)], with [uuid] the value that
    [uuidv4()] returns in this call. *)
Definition saveToSearchIndex (uuid : string) (crawlId : string)
    (document : Document) (st : Store) : Store * SaveBranch :=
  let documentId := uuid in
  let existingDoc := index st !! index_key documentId in
  let written :=
    mkStore (to_crawl st) (visited st) (<[index_key documentId := document]> (index st)) in
  match existingDoc with
  | Some _ => (written, Updating)
  | None => (written, AddingNew)
  end.

End Redis.

(** ** [latest/crawl.js]: one URL of the batch *)

Module Crawl.
Import Redis.

Definition MAIN_URL : string := "https://idemitsu-lubricants-staging.webflow.io".

(** What cheerio reads from the rendered page: the text of [title], the
    text of the selected body blocks, and the [href] attribute of every
    anchor in document order ([None]: the anchor has no [href]). *)
Record Rendered := mkRendered {
  r_title : string;
  r_text : string;
  r_hrefs : list (option string)
}.

(** What the world answers to one task: the clock at each [Date.now()],
    the outcome of [page.goto]/[page.content] ([None]: it threw), the
    UUID drawn by [saveToSearchIndex], whether its write went through,
    and whether the command of [markUrlVisited] reached the store. *)
Record TaskWorld := mkTaskWorld {
  t_check : Z;
  nav : option Rendered;
  t_doc : Z;
  uuid : string;
  save_ok : bool;
  t_mark : Z;
  mark_ok : bool
}.

Inductive TaskResult :=
| Skipped
| Failed
| Crawled (links : list string).

Section WithURL.
(** [JSON.parse]; [None] when it throws. *)
Variable JSON_parse : string -> option JSValue.
(** [new URL(href, base).href]; [None] when the constructor throws. *)
Variable URL_href : string -> string -> option string.

(** The path on which a task gets to its call of [markUrlVisited]: the
    URL passed the revisit check, [page.goto] and [page.content]
    returned, and the document was saved. *)
Definition reaches_mark (url : string) (w : TaskWorld) (st : Store) : bool :=
  canCrawlUrl JSON_parse (t_check w) url st
  && match nav w with Some _ => true | None => false end
  && save_ok w.

(** The predicate handed to [filter] in the link extraction. *)
Definition keep_href (origin url href : string) : bool :=
  if JS.falsy href then false
  else match URL_href href url with
       | Some absoluteUrl =>
           JS.startsWith origin absoluteUrl && negb (JS.includes "#" absoluteUrl)
       | None => false
       end.

(** [$('a').map(attr href).get().filter(...).map(new URL(href, url).href)]:
    cheerio's [map] drops the anchors without [href]. *)
Definition extract_links (origin url : string) (hrefs : list (option string)) : list string :=
  omap (fun href => URL_href href url)
    (List.filter (keep_href origin url) (omap (fun h => h) hrefs)).

(** The body of the callback mapped over [urlsToCrawl]. [id] is the
    variable of [POST] that the callback reads. *)
Definition crawlTask (origin : string) (id : Z) (crawlId url : string)
    (w : TaskWorld) (st : Store) : Store * TaskResult :=
  if negb (canCrawlUrl JSON_parse (t_check w) url st) then (st, Skipped)
  else
    match nav w with
    | None => (st, Failed)
    | Some page =>
        let title := JS.or_else (JS.trim (r_title page)) url in
        let text := JS.trim (JS.collapse_spaces (r_text page)) in
        let document := mkDocument id title text url (t_doc w) in
        if save_ok w then
          let st1 := fst (saveToSearchIndex (uuid w) crawlId document st) in
          match (if mark_ok w then markUrlVisited (t_mark w) url st1 else None) with
          | None => (st1, Failed)
          | Some st2 =>
              let links := extract_links origin url (r_hrefs page) in
              let st3 := fold_left (fun s link => addUrlsToCrawl [link] s) links st2 in
              (st3, Crawled links)
          end
        else (st, Failed)
    end.

Definition batchSize : nat := 20.

(** One task of the batch and what it leaves in [crawledUrls]. *)
Definition crawlOne (origin : string) (id : Z) (crawlId : string)
    (world : string -> TaskWorld) (acc : Store * list string) (url : string)
    : Store * list string :=
  match crawlTask origin id crawlId url (world url) (fst acc) with
  | (s', Crawled _) => (s', (snd acc ++ [url])%list)
  | (s', _) => (s', snd acc)
  end.

(** The batch of [POST]: at most 20 URLs, every task started with the
    same [id], here run one after the other. *)
Definition crawlBatch (origin crawlId : string) (urlsToCrawl : list string)
    (world : string -> TaskWorld) (st : Store) : Store * list string :=
  let id := 1%Z in
  fold_left (crawlOne origin id crawlId world) (take batchSize urlsToCrawl) (st, []).
End WithURL.

End Crawl.

(** ** The MiniSearch index, as far as the routes observe it

    MiniSearch is the npm package [minisearch], not code of this
    repository. The model keeps what the routes depend on, following the
    package's documented behaviour: [add] throws for a document whose id
    field is [null] or [undefined] and for an id that is already in the
    index; [addAll] adds the documents in order, so that a throw leaves
    the earlier ones added; [documentCount] is the number of documents
    added. Tokenisation and scoring are not modelled. *)

Module MiniSearch.

Section Index.
Context {Doc Key : Type}.
(** [extractField(document, 'id')]: [None] when it is [null] or
    [undefined] (or when reading it throws). *)
Variable id_of : Doc -> option Key.
Variable same_key : Key -> Key -> bool.

Record t := mk {
  fields : list JSValue;
  documents : list Doc
}.

(** [new MiniSearch({ fields, ... })] *)
Definition new (fs : list JSValue) : t := mk fs [].

Definition documentCount (ms : t) : nat := length (documents ms).

Definition has_id (k : Key) (ms : t) : bool :=
  existsb (fun d => match id_of d with Some k' => same_key k' k | None => false end)
          (documents ms).

(** [add(document)]: [None] when it throws. *)
Definition add (d : Doc) (ms : t) : option t :=
  match id_of d with
  | None => None
  | Some k =>
      if has_id k ms then None
      else Some (mk (fields ms) (documents ms ++ [d]))
  end.

(** [addAll(documents)]: the index it leaves and whether it returned
    ([true]) or threw ([false]). *)
Fixpoint addAll (ds : list Doc) (ms : t) : t * bool :=
  match ds with
  | [] => (ms, true)
  | d :: r =>
      match add d ms with
      | None => (ms, false)
      | Some ms' => addAll r ms'
      end
  end.

(** [toJSON().documents]: the serialised index has the keys
    [documentCount], [nextId], [documentIds], [fieldIds],
    [fieldLength], [averageFieldLength], [storedFields], [dirtCount],
    [index] and [serializationVersion]; [documents] is [undefined]. *)
Definition toJSON_documents (ms : t) : option (list Doc) := None.
End Index.

Arguments t : clear implicits.

End MiniSearch.

(** ** [search/route.js] *)

Module SearchRoute.
Import JSValues.

Definition Index := MiniSearch.t JSValue.

(** The id MiniSearch reads from a parsed document. Reading a property
    of [null] throws, which [add] passes on like a missing id. *)
Definition id_of (d : JSValue) : option JSValue :=
  match prop "id" d with
  | Some JNull => None
  | o => o
  end.

Definition addAll := MiniSearch.addAll id_of same_key.

Definition default_fields : list JSValue :=
  [JStr "title"; JStr "content"; JStr "description"; JStr "links"].

(** The instance built in the [catch] of [loadIndex]. *)
Definition empty_index : Index := MiniSearch.new default_fields.

(** The responses of [GET], by status and body. *)
Inductive Response {Hit : Type} :=
| QueryRequired                      (* 400 *)
| NoDocumentsIndexed                 (* 404 *)
| Results (results : list Hit)       (* 200 *)
| SearchFailed.                      (* 500 *)
Arguments Response : clear implicits.

Definition status {Hit} (r : Response Hit) : Z :=
  match r with
  | QueryRequired => 400
  | NoDocumentsIndexed => 404
  | Results _ => 200
  | SearchFailed => 500
  end.

Section WithWorld.
Context {Hit : Type}.
(** [JSON.parse]; [None] when it throws. *)
Variable JSON_parse : string -> option JSValue.
(** [miniSearch.search(query, options)]; [None] when it throws. *)
Variable search : Index -> string -> option (list Hit).

(** The [try] block of [loadIndex]: [None] when anything in it throws.
    [file] is what [fs.readFile] gives, [None] when it fails. *)
Definition tryLoad (file : option string) : option Index :=
  match file with
  | None => None
  | Some indexData =>
      match JSON_parse indexData with
      | None => None
      | Some JNull => None
      | Some parsedData =>
          if falsy (prop "fields" parsedData) || negb (isArray (prop "fields" parsedData))
          then None
          else if falsy (prop "documents" parsedData)
                  || negb (isArray (prop "documents" parsedData))
          then None
          else
            match prop "fields" parsedData, prop "documents" parsedData with
            | Some (JArr fs), Some (JArr docs) =>
                match addAll docs (MiniSearch.new fs) with
                | (miniSearch, true) => Some miniSearch
                | (_, false) => None
                end
            | _, _ => None
            end
      end
  end.

Definition loadIndex (file : option string) : Index :=
  match tryLoad file with
  | Some miniSearch => miniSearch
  | None => empty_index
  end.

(** [GET(req)]: [query] is [searchParams.get('query')], [None] for
    [null]. *)
Definition GET (query : option string) (file : option string) : Response Hit :=
  match query with
  | None => QueryRequired
  | Some q =>
      if JS.falsy q then QueryRequired
      else
        let miniSearch := loadIndex file in
        if (MiniSearch.documentCount miniSearch =? 0)%nat then NoDocumentsIndexed
        else match search miniSearch q with
             | Some results => Results results
             | None => SearchFailed
             end
  end.
End WithWorld.

End SearchRoute.

(** ** [crawl-and-index/route.js] *)

Module CrawlAndIndex.

Definition deployed_BASE_URL : string := "https://idemitsu-lubricants-staging.webflow.io/".

(** The bound of [substring(0, 100000)]. *)
Definition bodyLimit : nat := Z.to_nat 100000.

Definition maxCrawl : nat := 5.

Record Document := mkDocument {
  d_id : string;
  d_title : string;
  d_description : string;
  d_content : string;
  d_url : string;
  d_links : string;
  d_lastCrawled : string
}.

(** The value [crawlPage] and [fetchFallback] return. *)
Record Result := mkResult {
  document : option Document;
  links : list string
}.

Definition noContent : Result := mkResult None [].

(** What cheerio reads from an HTML text: the text of [title], the
    [content] attribute of the description [meta] ([None] when there is
    none), the text of [html], the text of each heading [h1] to [h5] and,
    for each anchor in document order, its [href] attribute and text. *)
Record Parsed := mkParsed {
  p_title : string;
  p_description : option string;
  p_text : string;
  p_headings : list string;
  p_anchors : list (option string * string)
}.

Fixpoint has_gt (s : string) : bool :=
  match s with
  | EmptyString => false
  | String c r => Ascii.eqb c ">" || has_gt r
  end.

(** [html.replace(/<[^>]+>/g, ' ')]: a match starts at a [<] that is
    followed by a character other than [>] and, later, by a [>]; it ends
    at the first such [>]. [in_tag] tells that a match is being skipped. *)
Fixpoint strip_tags_from (in_tag : bool) (s : string) : string :=
  match s with
  | EmptyString => EmptyString
  | String c r =>
      if in_tag then
        if Ascii.eqb c ">" then strip_tags_from false r else strip_tags_from true r
      else if Ascii.eqb c "<"
              && match r with String d _ => negb (Ascii.eqb d ">") | EmptyString => false end
              && has_gt r
      then String " " (strip_tags_from true r)
      else String c (strip_tags_from false r)
  end.

Definition strip_tags (html : string) : string := strip_tags_from false html.

(** [link.match(/\.(pdf|jpg|png|gif|zip|css|js)$/i)] *)
Definition denied_extensions : list string :=
  ["pdf"; "jpg"; "png"; "gif"; "zip"; "css"; "js"].

Definition has_denied_extension (link : string) : bool :=
  existsb (fun ext => JS.endsWith ("." ++ ext) (JS.toLowerCase link)) denied_extensions.

(** The header profile of the browser page ([setUserAgent] then
    [setExtraHTTPHeaders]) and the one of the fallback [fetch]. *)
Definition userAgent : string :=
  "Mozilla/5.0 (Windows NT 10.0; Win64; x64) AppleWebKit/537.36 (KHTML, like Gecko) Chrome/91.0.4472.124 Safari/537.36".

Definition browser_headers : list (string * string) :=
  ([("User-Agent", userAgent)] ++
   [("Accept-Language", "en-US,en;q=0.9");
    ("Accept", "text/html,application/xhtml+xml");
    ("Accept-Encoding", "gzip, deflate, br")])%list.

Definition fetch_headers : list (string * string) :=
  [("User-Agent", userAgent);
   ("Accept-Language", "en-US,en;q=0.9");
   ("Accept", "text/html,application/xhtml+xml");
   ("Accept-Encoding", "gzip, deflate, br")].

(** One attempt of the browser strategy, as the world decides it. *)
Inductive Attempt :=
| LaunchThrows (message : string)   (* no browser: [browser] keeps its value *)
| PageThrows (message : string)     (* browser launched, a later step threw *)
| PageLoads (html : string).

(** The fallback [fetch]. *)
Inductive FetchOutcome :=
| FetchThrows
| FetchResponds (ok : bool) (html : string).

(** What the world answers for one URL. *)
Record PageWorld := mkPageWorld {
  attempt_outcome : nat -> Attempt;
  fetch_outcome : FetchOutcome;
  iso_now : string                  (* [new Date().toISOString()] *)
}.

(** What [crawlPage] does to the outside, in order. A browser session is
    named by the attempt that launched it. *)
Inductive Event :=
| LaunchFailed (attempt : nat)
| Launched (session : nat) (headers : list (string * string))
| Closed (session : nat)
| Slept (ms : Z)
| Fetched (url : string) (headers : list (string * string)).

(** *** Reading a trace of [crawlPage] *)

Definition is_launch (e : Event) : bool :=
  match e with
  | Launched _ _ | LaunchFailed _ => true
  | _ => false
  end.

(** The number of attempts of the browser strategy. *)
Definition launches (tr : list Event) : nat := length (List.filter is_launch tr).

(** Every session is closed before the next attempt starts and before
    the trace ends. [open] is the session not yet closed. Closing once
    more a session that is already closed is allowed. *)
Fixpoint sessions_closed (open : option nat) (tr : list Event) : bool :=
  match tr with
  | [] => match open with None => true | Some _ => false end
  | Launched n _ :: r =>
      match open with None => sessions_closed (Some n) r | Some _ => false end
  | LaunchFailed _ :: r =>
      match open with None => sessions_closed None r | Some _ => false end
  | Closed n :: r =>
      match open with
      | Some m => (n =? m)%nat && sessions_closed None r
      | None => sessions_closed None r
      end
  | _ :: r => sessions_closed open r
  end.

(** Every attempt but the first comes after a delay of one second since
    the attempt before. [rested] tells that no delay is owed. *)
Fixpoint delayed (rested : bool) (tr : list Event) : bool :=
  match tr with
  | [] => true
  | Slept ms :: r => delayed (rested || (ms =? 1000)%Z) r
  | e :: r => if is_launch e then rested && delayed false r else delayed rested r
  end.

Definition failure_message (a : Attempt) : option string :=
  match a with
  | LaunchThrows message | PageThrows message => Some message
  | PageLoads _ => None
  end.



Section WithWorld.
Variable BASE_URL : string.
(** [new URL(href, base).href]; [None] when the constructor throws. *)
Variable URL_href : string -> string -> option string.
Variable cheerio_load : string -> Parsed.

(** The callback of [$('a').map]: a link object [{href, text}]. *)
Definition anchor_link (a : option string * string) : option (string * string) :=
  match fst a with
  | None => None
  | Some href =>
      if JS.falsy href then None
      else match URL_href href BASE_URL with
           | Some absoluteUrl => Some (absoluteUrl, JS.trim (snd a))
           | None => None
           end
  end.

Definition internal_links (anchors : list (option string * string)) : list (string * string) :=
  List.filter (fun link => JS.startsWith BASE_URL (fst link)) (omap anchor_link anchors).

Definition bodyContent_of (html : string) (parsed : Parsed) (headings : string) : string :=
  let bodyContent :=
    JS.or_else (JS.take_chars bodyLimit (JS.trim (JS.collapse_spaces (p_text parsed)))) "" in
  if JS.falsy bodyContent && JS.falsy headings
  then JS.or_else
         (JS.take_chars bodyLimit (JS.trim (JS.collapse_spaces (strip_tags html))))
         "No content available"
  else bodyContent.

(** The extraction block, the same text in [crawlPage] and
    [fetchFallback]: from [cheerio.load(html)] to the returned
    object. *)
Definition extract (url html lastCrawled : string) : Result :=
  let parsed := cheerio_load html in
  let title := JS.or_else (p_title parsed) "No title" in
  let description :=
    match p_description parsed with Some c => JS.or_else c "" | None => "" end in
  let headings := JS.join " " (p_headings parsed) in
  let bodyContent := bodyContent_of html parsed headings in
  let links := internal_links (p_anchors parsed) in
  mkResult
    (Some (mkDocument url title description
             (headings ++ " " ++ bodyContent)
             url
             (JS.join " " (map (fun link => snd link ++ " (" ++ fst link ++ ")") links))
             lastCrawled))
    (map fst links).

Definition fetchFallback (w : PageWorld) (url : string) : Result :=
  match fetch_outcome w with
  | FetchThrows => noContent
  | FetchResponds false _ => noContent
  | FetchResponds true html => extract url html (iso_now w)
  end.

(** The [finally] of an attempt: [if (browser) await browser.close()]. *)
Definition close_browser (browser : option nat) : list Event :=
  match browser with
  | Some session => [Closed session]
  | None => []
  end.

(** The [for] loop of [crawlPage]; [remaining] counts the iterations
    left, [retries - attempt + 1]. [None] is the [undefined] returned
    when the loop ends without a [return]. *)
Fixpoint attempt_loop (w : PageWorld) (url : string) (retries remaining attempt : nat)
    (browser : option nat) : option Result * list Event :=
  match remaining with
  | O => (None, [])
  | S k =>
      let on_error (browser' : option nat) (message : string) (evs : list Event) :=
        if JS.includes "ENOEXEC" message || (attempt =? retries)%nat
        then (Some (fetchFallback w url),
              (evs ++ [Fetched url fetch_headers] ++ close_browser browser')%list)
        else
          let '(r, tr) := attempt_loop w url retries k (S attempt) browser' in
          (r, (evs ++ [Slept 1000] ++ close_browser browser' ++ tr)%list) in
      match attempt_outcome w attempt with
      | LaunchThrows message =>
          on_error browser message [LaunchFailed attempt]
      | PageThrows message =>
          on_error (Some attempt) message [Launched attempt browser_headers]
      | PageLoads html =>
          (Some (extract url html (iso_now w)),
           [Launched attempt browser_headers; Closed attempt])
      end
  end.

(** [crawlPage(url, visited, retries)]: the result, the [visited] set
    it leaves and what it did. *)
Definition crawlPage (w : PageWorld) (url : string) (visited : gset string) (retries : nat)
    : option Result * gset string * list Event :=
  if decide (url ∈ visited) then (Some noContent, visited, [])
  else
    let '(r, tr) := attempt_loop w url retries retries 1 None in
    (r, visited ∪ {[url]}, tr).

(** The variables of the loop of [GET]. [toCrawl] is the array, its
    last element on top. *)
Record Loop := mkLoop {
  visited : gset string;
  toCrawl : list string;
  documents : list Document;
  failedUrls : list string;
  crawlCount : nat
}.

(** [toCrawl.pop()] *)
Definition pop (l : list string) : option (string * list string) :=
  match rev l with
  | [] => None
  | x :: r => Some (x, rev r)
  end.

(** [for (const link of links) ...] *)
Definition push_links (visited : gset string) (found toCrawl : list string) : list string :=
  fold_left
    (fun (acc : list string) link =>
       if negb (bool_decide (link ∈ visited))
          && negb (existsb (String.eqb link) acc)
          && negb (has_denied_extension link)
       then (acc ++ [link])%list else acc)
    found toCrawl.

(** The [while] loop of [GET]. [budget] is [maxCrawl - crawlCount], so
    that [crawlCount < maxCrawl] reads [budget > 0]. [None]: the
    destructuring of an [undefined] result threw. *)
Fixpoint crawl_loop (world : string -> PageWorld) (budget : nat) (st : Loop) : option Loop :=
  match budget with
  | O => Some st
  | S b =>
      match pop (toCrawl st) with
      | None => Some st
      | Some (url, rest) =>
          match crawlPage (world url) url (visited st) 2 with
          | (None, _, _) => None
          | (Some r, visited', _) =>
              let documents' :=
                match document r with
                | Some d => (documents st ++ [d])%list
                | None => documents st
                end in
              let failedUrls' :=
                match document r with
                | Some _ => failedUrls st
                | None => (failedUrls st ++ [url])%list
                end in
              crawl_loop world b
                (mkLoop visited' (push_links visited' (links r) rest)
                   documents' failedUrls' (S (crawlCount st)))
          end
      end
  end.

Definition fallback_document (lastCrawled : string) : Document :=
  mkDocument BASE_URL "Fallback Document" "No content crawled"
    "Failed to crawl content from the site. Please check site accessibility."
    BASE_URL "" lastCrawled.

(** Two runs see the same site when every URL answers the same way,
    attempt by attempt and to the fallback fetch; the clocks may
    differ. *)
Definition same_site (world1 world2 : string -> PageWorld) : Prop :=
  forall url,
    (forall attempt, attempt_outcome (world1 url) attempt = attempt_outcome (world2 url) attempt)
    /\ fetch_outcome (world1 url) = fetch_outcome (world2 url).

(** Two results with the same links and the same document identity. *)
Definition same_result (r1 r2 : Result) : Prop :=
  links r1 = links r2 /\ d_id <$> document r1 = d_id <$> document r2.

(** Two states of the loop that differ at most in the contents of the
    documents, not in their identities. *)
Definition same_loop (st1 st2 : Loop) : Prop :=
  visited st1 = visited st2 /\ toCrawl st1 = toCrawl st2
  /\ failedUrls st1 = failedUrls st2 /\ crawlCount st1 = crawlCount st2
  /\ map d_id (documents st1) = map d_id (documents st2).

(** [if (documents.length === 0) documents.push({ ...fallback })] *)
Definition with_fallback (fallbackTime : string) (documents : list Document)
    : list Document :=
  if (length documents =? 0)%nat
  then (documents ++ [fallback_document fallbackTime])%list
  else documents.

(** The snapshot written to [INDEX_FILE]. *)
Record Snapshot := mkSnapshot {
  snap_fields : list string;
  snap_documents : list Document
}.

(** The module-level [miniSearch]. *)
Definition Index := MiniSearch.t Document.
Definition addAll : list Document -> Index -> Index * bool :=
  MiniSearch.addAll (fun d => Some (d_id d)) String.eqb.

Definition new_index : Index :=
  MiniSearch.new [JStr "title"; JStr "content"; JStr "description"; JStr "links"].

(** The file operations of the save block. *)
Inductive SaveOutcome := WriteThrows | ReadBackThrows | Saved.

Inductive Response :=
| Indexed (documents : list Document) (failedUrls : list string)   (* 200 *)
| NoDocumentsIndexed (failedUrls : list string)                    (* 500 *)
| SaveFailed (failedUrls : list string)                            (* 500 *)
| IndexingFailed.                                                  (* 500, outer catch *)

(** What one run of [GET] goes through. *)
Record Run := mkRun {
  response : Response;
  added : option (list Document);   (* the argument of [addAll], when reached *)
  index_after : Index;
  file_after : option Snapshot
}.

(** [GET()]: [miniSearch] is the module-level index as the run finds
    it, [file] the snapshot on disk. *)
Definition GET (world : string -> PageWorld) (fallbackTime : string) (save : SaveOutcome)
    (miniSearch : Index) (file : option Snapshot) : Run :=
  match crawl_loop world maxCrawl (mkLoop ∅ [BASE_URL] [] [] 0) with
  | None => mkRun IndexingFailed None miniSearch file
  | Some st =>
      let documents := with_fallback fallbackTime (documents st) in
      match addAll documents miniSearch with
      | (miniSearch', false) => mkRun IndexingFailed (Some documents) miniSearch' file
      | (miniSearch', true) =>
          let documentCount := MiniSearch.documentCount miniSearch' in
          if (documentCount =? 0)%nat
          then mkRun (NoDocumentsIndexed (failedUrls st)) (Some documents) miniSearch' file
          else
            let indexJson :=
              mkSnapshot ["title"; "content"; "description"; "links"]
                (match MiniSearch.toJSON_documents miniSearch' with
                 | Some ds => ds
                 | None => documents
                 end) in
            match save with
            | WriteThrows =>
                mkRun (SaveFailed (failedUrls st)) (Some documents) miniSearch' file
            | ReadBackThrows =>
                mkRun (SaveFailed (failedUrls st)) (Some documents) miniSearch' (Some indexJson)
            | Saved =>
                mkRun (Indexed documents (failedUrls st)) (Some documents) miniSearch'
                  (Some indexJson)
            end
      end
  end.
End WithWorld.

End CrawlAndIndex.

(** ** The example page of the specification *)

Module Example.

(** An excerpt of the URL constructor: [new URL(href, base).href] for the
    base [https://example.com/] and the hrefs of the examples below, as
    the URL standard gives them. Other inputs are not tabulated. *)
Definition URL_href (href base : string) : option string :=
  if negb (String.eqb base "https://example.com/") then None
  else if String.eqb href "/a" then Some "https://example.com/a"
  else if String.eqb href "https://other.site/b" then Some "https://other.site/b"
  else if String.eqb href "#frag" then Some "https://example.com/#frag"
  else if String.eqb href "/manual.pdf" then Some "https://example.com/manual.pdf"
  else None.

Definition html : string :=
  "<a href='/a'>A</a><a href='https://other.site/b'>B</a><a href='#frag'>F</a>".

(** The three anchors of the page, as cheerio lists them. *)
Definition anchors : list (option string * string) :=
  [(Some "/a", "A"); (Some "https://other.site/b", "B"); (Some "#frag", "F")].

Definition cheerio_load (_ : string) : CrawlAndIndex.Parsed :=
  CrawlAndIndex.mkParsed "" None "ABF" [] anchors.

(** An excerpt of [JSON.parse]: the texts of the examples below that are
    JSON, with their values; it throws on the other texts used there (a
    URL, a single letter, a date in words). *)
Definition JSON_parse (text : string) : option JSValue :=
  if String.eqb text "1700000000000" then Some (JNum 1700000000000)
  else if String.eqb text "0" then Some (JNum 0)
  else if String.eqb text "null" then Some JNull
  else if String.eqb text "false" then Some (JBool false)
  else if String.eqb text "true" then Some (JBool true)
  else None.

End Example.

(** ** The shape of normalised text *)

Module Text.

(** [text.replace(/\s+/g, ' ').trim()], the normalisation both crawlers
    apply to page text. *)
Definition normalise (s : string) : string := JS.trim (JS.collapse_spaces s).

(** White space is the character SPACE only and never twice in a row.
    [prev_space] tells that the character before is a space. *)
Fixpoint packed_from (prev_space : bool) (s : string) : bool :=
  match s with
  | EmptyString => true
  | String c r =>
      if JS.is_space c
      then Ascii.eqb c " " && negb prev_space && packed_from true r
      else packed_from false r
  end.

(** The same, and the text does not end with a space; started with
    [prev_space] set, it does not begin with one either. *)
Fixpoint tidy_from (prev_space : bool) (s : string) : bool :=
  match s with
  | EmptyString => negb prev_space
  | String c r =>
      if JS.is_space c
      then Ascii.eqb c " " && negb prev_space && tidy_from true r
      else tidy_from false r
  end.

(** Words separated by single spaces, nothing around them. *)
Definition tidy (s : string) : bool :=
  match s with
  | EmptyString => true
  | _ => tidy_from true s
  end.

End Text.

(** ** [latest/redis.js]: [initializeUrls] and the key [urls:to_crawl] *)

Module RedisKey.

(** What Redis holds under [urls:to_crawl]: nothing, a set, or a value of
    another type ([string], [list], [hash], ...). *)
Inductive Key :=
| Absent
| SetOf (members : gset string)
| Other (type : string).

(** [keyType !== 'set'], with [keyType] the answer of [TYPE]. *)
Definition not_a_set (k : Key) : bool :=
  match k with SetOf _ => false | _ => true end.

(** [SADD key ...urls]; [None]: Redis answers WRONGTYPE and the client
    throws. *)
Definition sadd (urls : list string) (k : Key) : option Key :=
  match k with
  | Absent => Some (SetOf (list_to_set urls))
  | SetOf s => Some (SetOf (s ∪ list_to_set urls))
  | Other _ => None
  end.

(** [SISMEMBER key url] *)
Definition sismember (url : string) (k : Key) : option bool :=
  match k with
  | Absent => Some false
  | SetOf s => Some (bool_decide (url ∈ s))
  | Other _ => None
  end.

(** [SMEMBERS key] *)
Definition smembers (k : Key) : option (list string) :=
  match k with
  | Absent => Some []
  | SetOf s => Some (elements s)
  | Other _ => None
  end.

(** Whether each command of [initializeUrls] reaches the store; a command
    that does not makes the client throw. *)
Record InitWorld := mkInitWorld {
  type_ok : bool;
  del_ok : bool;
  sismember_ok : bool;
  sadd_ok : bool;
  fallback_ok : bool
}.

Definition all_up : InitWorld := mkInitWorld true true true true true.

(** The [try] block of [initializeUrls]: the key it leaves and whether it
    ran to its end ([false]: a command threw and the [catch] takes over
    from the key as it then is). *)
Definition try_initialize (w : InitWorld) (mainUrl : string) (k : Key) : Key * bool :=
  if negb (type_ok w) then (k, false)
  else
    let deleted :=
      if not_a_set k then (if del_ok w then Some Absent else None) else Some k in
    match deleted with
    | None => (k, false)
    | Some k1 =>
        if negb (sismember_ok w) then (k1, false)
        else match sismember mainUrl k1 with
             | None => (k1, false)
             | Some true => (k1, true)
             | Some false =>
                 if negb (sadd_ok w) then (k1, false)
                 else match sadd [mainUrl] k1 with
                      | Some k2 => (k2, true)
                      | None => (k1, false)
                      end
             end
    end.

(** [initializeUrls(mainUrl)]: the key it leaves and whether it returned
    ([false]: the [SADD] of the [catch] threw, and so does the function). *)
Definition initializeUrls (w : InitWorld) (mainUrl : string) (k : Key) : Key * bool :=
  match try_initialize w mainUrl k with
  | (k', true) => (k', true)
  | (k', false) =>
      let initialUrls := [mainUrl] in
      if negb (fallback_ok w) then (k', false)
      else match sadd initialUrls k' with
           | Some k'' => (k'', true)
           | None => (k', false)
           end
  end.

End RedisKey.

(** ** [latest/crawl.js]: [POST] *)

Module Post.
Import Redis Crawl RedisKey.

(** [s.replace(/\/$/, '')] *)
Fixpoint strip_trailing_slash (s : string) : string :=
  match s with
  | EmptyString => EmptyString
  | String c r =>
      match r with
      | EmptyString => if Ascii.eqb c "/" then EmptyString else s
      | _ => String c (strip_trailing_slash r)
      end
  end.

(** The keys of the store, [urls:to_crawl] with its type. *)
Record Keyspace := mkKeyspace {
  frontier : Key;
  visited_hash : Upstash.Hash;
  index_keys : gmap string Document
}.

Inductive Response :=
| NoUrlsToCrawl                                                   (* 400 *)
| CrawlComplete (crawlId : string) (pagesCrawled : nat) (crawledUrls : list string)
| FailedToCrawl.                                                  (* 500 *)

(** What the world answers to one invocation. *)
Record World := mkWorld {
  crawlId : string;                       (* [uuidv4()] *)
  origin_of_main : option string;         (* [new URL(normalizedMainUrl).origin] *)
  init : InitWorld;
  smembers_ok : bool;
  executable_found : bool;                (* [fs.existsSync(executablePath)] *)
  launch_ok : bool;                       (* [puppeteer.launch] *)
  task_world : string -> TaskWorld
}.

Section WithURL.
Variable JSON_parse : string -> option JSValue.
Variable URL_href : string -> string -> option string.

(** [POST()]: the response and the keys it leaves. The tasks of the batch
    are run one after the other. *)
Definition POST (w : World) (ks : Keyspace) : Response * Keyspace :=
  let normalizedMainUrl := strip_trailing_slash MAIN_URL in
  match origin_of_main w with
  | None => (FailedToCrawl, ks)
  | Some origin =>
      match initializeUrls (init w) normalizedMainUrl (frontier ks) with
      | (k, false) => (FailedToCrawl, mkKeyspace k (visited_hash ks) (index_keys ks))
      | (k, true) =>
          let ks1 := mkKeyspace k (visited_hash ks) (index_keys ks) in
          match (if smembers_ok w then smembers k else None), k with
          | Some urlsToCrawl, SetOf s =>
              if (length urlsToCrawl =? 0)%nat then (NoUrlsToCrawl, ks1)
              else if negb (executable_found w) then (FailedToCrawl, ks1)
              else if negb (launch_ok w) then (FailedToCrawl, ks1)
              else
                let '(st, crawledUrls) :=
                  crawlBatch JSON_parse URL_href origin (crawlId w) urlsToCrawl (task_world w)
                    (mkStore s (visited_hash ks) (index_keys ks)) in
                (CrawlComplete (crawlId w) (length crawledUrls) crawledUrls,
                 mkKeyspace (SetOf (to_crawl st)) (Redis.visited st) (index st))
          | Some urlsToCrawl, _ =>
              if (length urlsToCrawl =? 0)%nat then (NoUrlsToCrawl, ks1)
              else (FailedToCrawl, ks1)
          | None, _ => (FailedToCrawl, ks1)
          end
      end
  end.
End WithURL.

End Post.

(** ** The snapshot file as [JSON.parse] reads it back *)

Module SnapshotFile.
Import CrawlAndIndex.

(** The object literal of a document, its keys in the order of the
    source. *)
Definition document_json (d : Document) : JSValue :=
  JObj [("id", JStr (d_id d));
        ("title", JStr (d_title d));
        ("description", JStr (d_description d));
        ("content", JStr (d_content d));
        ("url", JStr (d_url d));
        ("links", JStr (d_links d));
        ("lastCrawled", JStr (d_lastCrawled d))].

(** [indexJson]: [{ fields, documents }]. *)
Definition snapshot_json (s : Snapshot) : JSValue :=
  JObj [("fields", JArr (map JStr (snap_fields s)));
        ("documents", JArr (map document_json (snap_documents s)))].

End SnapshotFile.

(** ** What the loop of the crawl-and-index [GET] keeps true *)

Module CrawlInvariant.
Import CrawlAndIndex.

(** The frontier holds no URL twice and none that was visited; every URL
    on the frontier or visited starts with [BASE_URL]; the visited URLs
    are the identities of the documents and the failed URLs, each once;
    [crawlCount] counts them. *)
Definition frontier_ok (BASE_URL : string) (st : Loop) : Prop :=
  NoDup (toCrawl st)
  /\ (forall u, u ∈ toCrawl st -> u ∉ visited st)
  /\ (forall u, u ∈ toCrawl st \/ u ∈ visited st -> JS.startsWith BASE_URL u = true)
  /\ NoDup (map d_id (documents st) ++ failedUrls st)%list
  /\ (forall u, u ∈ visited st <-> u ∈ (map d_id (documents st) ++ failedUrls st)%list)
  /\ crawlCount st = (length (documents st) + length (failedUrls st))%nat.

End CrawlInvariant.

(** * Properties *)

(** ** The primitives on small inputs *)

Example collapse_then_trim :
  JS.trim (JS.collapse_spaces (String "009" (String "010" " Home   page  "))) = "Home page".
Proof. reflexivity. Qed.

Example parseInt_examples :
  JS.parseInt "1700000000000" = Some 1700000000000%Z
  /\ JS.parseInt " 42px" = Some 42%Z
  /\ JS.parseInt "-7" = Some (-7)%Z
  /\ JS.parseInt "abc" = None
  /\ JS.parseInt "" = None.
Proof. repeat split; reflexivity. Qed.

Example strip_tags_examples :
  CrawlAndIndex.strip_tags "<p>Hi <b>there</b></p>" = " Hi  there  "
  /\ CrawlAndIndex.strip_tags "a <> b" = "a <> b"
  /\ CrawlAndIndex.strip_tags "1 < 2" = "1 < 2".
Proof. repeat split; reflexivity. Qed.

Example denied_extension_examples :
  CrawlAndIndex.has_denied_extension "https://example.com/manual.PDF" = true
  /\ CrawlAndIndex.has_denied_extension "https://example.com/app.js" = true
  /\ CrawlAndIndex.has_denied_extension "https://example.com/pdf" = false
  /\ CrawlAndIndex.has_denied_extension "https://example.com/a.pdf?x=1" = false.
Proof. repeat split; reflexivity. Qed.

Example pop_takes_the_last :
  CrawlAndIndex.pop ["a"; "b"; "c"] = Some ("c", ["a"; "b"]).
Proof. reflexivity. Qed.

(** ** Decimal round trip of the visit timestamp *)

(** One decimal digit read by [JS.digits_from]: the test succeeds and the
    value of the character is known. *)
Ltac read_digit :=
  match goal with
  | |- context [JS.is_digit ?c] =>
      let v := eval vm_compute in (JS.digit_val c) in
      change (JS.is_digit c) with true; change (JS.digit_val c) with v;
      cbv iota
  end.

Lemma digits_from_acc (d : Decimal.uint) (acc : positive) :
  JS.digits_from (Zpos acc) true (NilEmpty.string_of_uint d)
  = Some (Zpos (Pos.of_uint_acc d acc)).
Proof.
  revert acc; induction d; intros acc;
    cbn [NilEmpty.string_of_uint JS.digits_from Pos.of_uint_acc];
    try reflexivity; read_digit; rewrite <- IHd; f_equal; lia.
Qed.

Lemma digits_from_zero (d : Decimal.uint) :
  JS.digits_from 0 true (NilEmpty.string_of_uint d) = Some (Z.of_N (Pos.of_uint d)).
Proof.
  induction d; cbn [NilEmpty.string_of_uint JS.digits_from Pos.of_uint];
    try reflexivity; read_digit; try exact IHd;
    cbn [Z.of_N]; rewrite <- digits_from_acc; f_equal.
Qed.

Lemma digits_from_unseen (d : Decimal.uint) :
  d <> Decimal.Nil ->
  JS.digits_from 0 false (NilEmpty.string_of_uint d)
  = JS.digits_from 0 true (NilEmpty.string_of_uint d).
Proof. destruct d; intros H; [congruence | reflexivity ..]. Qed.

Lemma trim_start_uint (d : Decimal.uint) :
  JS.trim_start (NilEmpty.string_of_uint d) = NilEmpty.string_of_uint d.
Proof. destruct d; reflexivity. Qed.

Lemma parseInt_uint (d : Decimal.uint) :
  d <> Decimal.Nil ->
  JS.parseInt (NilEmpty.string_of_uint d) = Some (Z.of_N (Pos.of_uint d)).
Proof.
  intros H. unfold JS.parseInt. rewrite trim_start_uint.
  rewrite <- digits_from_zero, <- (digits_from_unseen d H).
  destruct d; [congruence | reflexivity ..].
Qed.

Lemma parseInt_toString (n : Z) : JS.parseInt (JS.toString n) = Some n.
Proof.
  destruct n as [|p|p]; [reflexivity | |].
  - cbn [JS.toString]. rewrite parseInt_uint by apply Unsigned.to_uint_nonnil.
    now rewrite Unsigned.of_to.
  - cbn [JS.toString]. unfold JS.parseInt. cbn [JS.trim_start].
    change (JS.is_space "-") with false. cbn iota.
    rewrite digits_from_unseen by apply Unsigned.to_uint_nonnil.
    rewrite digits_from_zero, Unsigned.of_to. reflexivity.
Qed.

Lemma toString_truthy (n : Z) : JS.falsy (JS.toString n) = false.
Proof.
  destruct n as [|p|p]; [reflexivity | | reflexivity].
  cbn [JS.toString]. pose proof (Unsigned.to_uint_nonnil p) as H.
  destruct (Pos.to_uint p); [congruence | reflexivity ..].
Qed.

(** ** The revisit window ([latest/redis.js]) *)

Section RevisitWindow.
Variable JSON_parse : string -> option JSValue.

(** [canCrawlUrl] reads one field of the hash, the one named by the URL. *)
Lemma canCrawlUrl_frame (st st' : Redis.Store) (url : string) (now : Z) :
  Redis.visited st' !! url = Redis.visited st !! url ->
  Redis.canCrawlUrl JSON_parse now url st' = Redis.canCrawlUrl JSON_parse now url st.
Proof. intros H. unfold Redis.canCrawlUrl, Upstash.hget. by rewrite H. Qed.

Lemma canCrawlUrl_absent (st : Redis.Store) (url : string) (now : Z) :
  Redis.visited st !! url = None -> Redis.canCrawlUrl JSON_parse now url st = true.
Proof. intros H. unfold Redis.canCrawlUrl, Upstash.hget. by rewrite H. Qed.

(** A timestamp stored as decimal text comes back from the client as the
    number it spells, and [parseInt] reads that number. *)
Lemma canCrawlUrl_recorded (st : Redis.Store) (url : string) (T now : Z) :
  Redis.visited st !! url = Some (JS.toString T) ->
  JSON_parse (JS.toString T) = Some (JNum T) ->
  T <> 0%Z ->
  Redis.canCrawlUrl JSON_parse now url st = (now - T >? Redis.sixHours)%Z.
Proof.
  intros Hv Hp Hnz. unfold Redis.canCrawlUrl, Upstash.hget, Upstash.parseResponse.
  rewrite Hv. cbn [fmap option_fmap option_map]. rewrite Hp, String.eqb_refl.
  destruct T as [|t|t]; [done | |]; cbn [JSValues.falsy JSValues.toString];
    by rewrite parseInt_toString.
Qed.
End RevisitWindow.

(** C1, as stated, fails at the boundary: a URL whose recorded visit
    timestamp is [T], checked exactly six hours later (a delay that is
    [>=] six hours), is refused. *)
Lemma C1_counterexample_exactly_six_hours :
  let T := 1700000000000%Z in
  let delta := (6 * 60 * 60 * 1000)%Z in
  let st := Redis.mkStore ∅ {["https://example.com/a" := "1700000000000"]} ∅ in
  (delta >= 6 * 60 * 60 * 1000)%Z
  /\ Redis.visited st !! "https://example.com/a" = Some (JS.toString T)
  /\ Redis.canCrawlUrl Example.JSON_parse (T + delta) "https://example.com/a" st = false.
Proof. cbv zeta. split; [lia |]. split; reflexivity. Qed.

(** C1, amended: for a URL with a recorded visit timestamp [T] (the hash
    holds the decimal text of [T] under the URL, which [JSON.parse] reads
    as the number [T], a time after the epoch), [canCrawlUrl] checked at
    [T + delta] is true exactly when [delta] is strictly greater than six
    hours (false for every [delta <= 6h], the boundary included); for a
    URL with no recorded visit it is true. *)
Theorem C1_canCrawlUrl_revisit_window (JSON_parse : string -> option JSValue)
    (st : Redis.Store) (url : string) (T delta now : Z) :
  (Redis.visited st !! url = Some (JS.toString T) ->
   JSON_parse (JS.toString T) = Some (JNum T) ->
   (0 < T)%Z ->
   Redis.canCrawlUrl JSON_parse (T + delta) url st = (delta >? 6 * 60 * 60 * 1000)%Z
   /\ ((delta <= 6 * 60 * 60 * 1000)%Z ->
       Redis.canCrawlUrl JSON_parse (T + delta) url st = false)
   /\ ((delta > 6 * 60 * 60 * 1000)%Z ->
       Redis.canCrawlUrl JSON_parse (T + delta) url st = true))
  /\ (Redis.visited st !! url = None -> Redis.canCrawlUrl JSON_parse now url st = true).
Proof.
  split; [|apply canCrawlUrl_absent].
  intros Hv Hp Hpos.
  rewrite (canCrawlUrl_recorded JSON_parse st url T (T + delta) Hv Hp) by lia.
  unfold Redis.sixHours. replace (T + delta - T)%Z with delta by lia.
  split; [done|]. split; intros H.
  - rewrite Z.gtb_ltb. apply Z.ltb_ge. lia.
  - rewrite Z.gtb_ltb. apply Z.ltb_lt. lia.
Qed.

Lemma C1_canCrawlUrl_revisit_window_witness :
  let st := Redis.mkStore ∅ {["https://example.com/a" := "1700000000000"]} ∅ in
  Redis.canCrawlUrl Example.JSON_parse (1700000000000 + 21600001) "https://example.com/a" st
  = true
  /\ Redis.canCrawlUrl Example.JSON_parse 1700000000000 "https://example.com/b" st = true.
Proof.
  cbv zeta.
  destruct (C1_canCrawlUrl_revisit_window Example.JSON_parse
              (Redis.mkStore ∅ {["https://example.com/a" := "1700000000000"]} ∅)
              "https://example.com/a" 1700000000000 21600001 1700000000000) as [H1 _].
  destruct (C1_canCrawlUrl_revisit_window Example.JSON_parse
              (Redis.mkStore ∅ {["https://example.com/a" := "1700000000000"]} ∅)
              "https://example.com/b" 1700000000000 21600001 1700000000000) as [_ H2].
  split.
  - destruct H1 as (_ & _ & H); [reflexivity | reflexivity | lia |]. apply H. lia.
  - apply H2. reflexivity.
Defined.

(** ** One crawl task ([latest/crawl.js]) *)

Section CrawlTask.
Import Redis Crawl.
Variable JSON_parse : string -> option JSValue.
Variable URL_href : string -> string -> option string.

Lemma enqueue_links_visited (found : list string) (st : Store) :
  visited (fold_left (fun s link => addUrlsToCrawl [link] s) found st) = visited st.
Proof. revert st; induction found as [|l found IH]; intros st; cbn; [|rewrite IH]; done. Qed.

Lemma enqueue_links_index (found : list string) (st : Store) :
  index (fold_left (fun s link => addUrlsToCrawl [link] s) found st) = index st.
Proof. revert st; induction found as [|l found IH]; intros st; cbn; [|rewrite IH]; done. Qed.

(** [markUrlVisited] writes to the hash only, and what it writes does not
    depend on the rest of the store. *)
Lemma markUrlVisited_frame (now : Z) (url : string) (st st' : Store) :
  markUrlVisited now url st = Some st' ->
  to_crawl st' = to_crawl st /\ index st' = index st
  /\ Upstash.hset (Upstash.Object_entries url) (visited st) = Some (visited st').
Proof.
  unfold markUrlVisited.
  destruct (Upstash.hset (Upstash.Object_entries url) (visited st)) as [h|]; [|done].
  by intros [= <-].
Qed.

Lemma markUrlVisited_visited (now : Z) (url : string) (st st1 : Store) :
  visited st1 = visited st ->
  visited <$> markUrlVisited now url st1 = visited <$> markUrlVisited now url st.
Proof.
  intros H. unfold markUrlVisited. rewrite H.
  by destruct (Upstash.hset (Upstash.Object_entries url) (visited st)).
Qed.

(** The hash after a task: what the call of [markUrlVisited] leaves when
    the task gets to it and the call goes through, the hash as it was
    otherwise. *)
Lemma crawlTask_visited (origin : string) (id : Z) (crawlId url : string)
    (w : TaskWorld) (st : Store) :
  visited (fst (crawlTask JSON_parse URL_href origin id crawlId url w st))
  = if reaches_mark JSON_parse url w st
    then match (if mark_ok w then markUrlVisited (t_mark w) url st else None) with
         | Some marked => visited marked
         | None => visited st
         end
    else visited st.
Proof.
  unfold crawlTask, reaches_mark.
  destruct (canCrawlUrl JSON_parse (t_check w) url st); cbn [negb andb]; [|done].
  destruct (nav w) as [page|]; cbn [andb]; [|done].
  destruct (save_ok w); cbn [fst]; [|done].
  set (st1 := fst (saveToSearchIndex _ _ _ st)).
  assert (Hv : visited st1 = visited st).
  { subst st1. unfold saveToSearchIndex. by destruct (index st !! _). }
  destruct (mark_ok w); [|done].
  pose proof (markUrlVisited_visited (t_mark w) url st st1 Hv) as Hm.
  destruct (markUrlVisited (t_mark w) url st1) as [st2|],
           (markUrlVisited (t_mark w) url st) as [marked|];
    cbn [fmap option_fmap option_map] in Hm; try discriminate Hm.
  - cbn [fst]. rewrite enqueue_links_visited. by injection Hm.
  - done.
Qed.



(** A task that does not get to [markUrlVisited] leaves the store as it
    was and reports no link. *)
Lemma crawlTask_unreached (origin : string) (id : Z) (crawlId url : string)
    (w : TaskWorld) (st : Store) :
  reaches_mark JSON_parse url w st = false ->
  crawlTask JSON_parse URL_href origin id crawlId url w st
  = (st, if canCrawlUrl JSON_parse (t_check w) url st then Failed else Skipped).
Proof.
  unfold crawlTask, reaches_mark.
  destruct (canCrawlUrl JSON_parse (t_check w) url st); cbn [negb andb]; [|done].
  destruct (nav w) as [page|]; cbn [andb]; [|done].
  by destruct (save_ok w).
Qed.
End CrawlTask.

(** C2, as stated, fails: a task whose navigation throws ends in the
    [catch], which does not call [markUrlVisited]: the hash
    [urls:visited] is left empty, where the call would have written to
    it. *)
Lemma C2_counterexample_failed_fetch_not_marked :
  let w := Crawl.mkTaskWorld 1700000000000 None 1700000000001
             "1b9d6bcd-bbfd-4b2d-9b5d-ab8dfbbd4bed" true 1700000000002 true in
  let run := Crawl.crawlTask Example.JSON_parse (fun _ _ => None) "https://example.com" 1
               "crawl-1" "https://example.com/a" w Redis.empty in
  snd run = Crawl.Failed
  /\ Redis.visited (fst run) = ∅
  /\ exists marked,
       Redis.markUrlVisited 1700000000002 "https://example.com/a" Redis.empty = Some marked
       /\ size (Redis.visited marked) = 21%nat.
Proof.
  cbv zeta. split; [reflexivity|]. split; [reflexivity|].
  eexists. split; [reflexivity|]. vm_compute. reflexivity.
Qed.

(** C2, amended: [markUrlVisited] is called only on the success path of a
    task, inside the [try], after the page was fetched and
    [saveToSearchIndex] returned: the hash [urls:visited] is then what
    that call leaves. When the URL is skipped by the revisit check, or
    the fetch or the save fails, [markUrlVisited] is not called: the
    store is left as it was. *)
Theorem C2_markUrlVisited_on_success_path_only
    (JSON_parse : string -> option JSValue)
    (URL_href : string -> string -> option string) (origin : string) (id : Z)
    (crawlId url : string) (w : Crawl.TaskWorld) (st : Redis.Store) :
  let run := Crawl.crawlTask JSON_parse URL_href origin id crawlId url w st in
  (Crawl.reaches_mark JSON_parse url w st = true ->
     Redis.visited (fst run)
     = match (if Crawl.mark_ok w then Redis.markUrlVisited (Crawl.t_mark w) url st else None) with
       | Some marked => Redis.visited marked
       | None => Redis.visited st
       end)
  /\ (Crawl.reaches_mark JSON_parse url w st = false ->
      fst run = st /\ forall links, snd run <> Crawl.Crawled links).
Proof.
  cbv zeta. split; intros H.
  - by rewrite crawlTask_visited, H.
  - rewrite (crawlTask_unreached JSON_parse URL_href origin id crawlId url w st H).
    split; [done|]. intros links. by destruct (Redis.canCrawlUrl _ _ _ _).
Qed.

Lemma C2_markUrlVisited_on_success_path_only_witness :
  let page := Crawl.mkRendered "Home" "Welcome" [] in
  let ok := Crawl.mkTaskWorld 1700000000000 (Some page) 1700000000001
              "1b9d6bcd-bbfd-4b2d-9b5d-ab8dfbbd4bed" true 1700000000002 true in
  let ko := Crawl.mkTaskWorld 1700000000000 None 1700000000001
              "1b9d6bcd-bbfd-4b2d-9b5d-ab8dfbbd4bed" true 1700000000002 true in
  let task w := fst (Crawl.crawlTask Example.JSON_parse (fun _ _ => None) "https://example.com"
                       1 "crawl-1" "https://example.com/a" w Redis.empty) in
  Redis.visited (task ok)
  = match Redis.markUrlVisited 1700000000002 "https://example.com/a" Redis.empty with
    | Some marked => Redis.visited marked
    | None => ∅
    end
  /\ task ko = Redis.empty.
Proof.
  cbv zeta. split.
  - apply (C2_markUrlVisited_on_success_path_only Example.JSON_parse (fun _ _ => None)
             "https://example.com" 1 "crawl-1" "https://example.com/a"
             (Crawl.mkTaskWorld 1700000000000 (Some (Crawl.mkRendered "Home" "Welcome" []))
                1700000000001 "1b9d6bcd-bbfd-4b2d-9b5d-ab8dfbbd4bed" true 1700000000002 true)
             Redis.empty).
    reflexivity.
  - apply (C2_markUrlVisited_on_success_path_only Example.JSON_parse (fun _ _ => None)
             "https://example.com" 1 "crawl-1" "https://example.com/a"
             (Crawl.mkTaskWorld 1700000000000 None 1700000000001
                "1b9d6bcd-bbfd-4b2d-9b5d-ab8dfbbd4bed" true 1700000000002 true)
             Redis.empty).
    reflexivity.
Defined.

(** ** Document identity in the Redis variant *)




(** ** Loading the snapshot and answering a query ([search/route.js]) *)

Section SearchRouteFacts.
Import JSValues SearchRoute.
Context {Hit : Type}.
Variable JSON_parse : string -> option JSValue.
Variable search : Index -> string -> option (list Hit).

(** The two validations of [loadIndex] reject exactly the values whose
    [fields] or [documents] is not an array. *)
Lemma tryLoad_rejects_non_arrays (indexData : string) (parsedData : JSValue) :
  JSON_parse indexData = Some parsedData ->
  isArray (prop "fields" parsedData) = false \/ isArray (prop "documents" parsedData) = false ->
  tryLoad JSON_parse (Some indexData) = None.
Proof.
  intros Hp Hbad. unfold tryLoad. rewrite Hp.
  destruct parsedData as [| | | | |props]; try reflexivity;
    try (cbn; reflexivity).
  destruct Hbad as [Hf|Hd].
  - rewrite Hf. cbn [negb]. by rewrite orb_true_r.
  - rewrite Hd. cbn [negb]. rewrite (orb_true_r (falsy (prop "documents" (JObj props)))).
    by destruct (falsy (prop "fields" (JObj props)) || negb (isArray (prop "fields" (JObj props)))).
Qed.

Lemma loadIndex_count (file : option string) :
  tryLoad JSON_parse file = None ->
  loadIndex JSON_parse file = empty_index
  /\ MiniSearch.documentCount (loadIndex JSON_parse file) = 0%nat.
Proof. intros H. unfold loadIndex. rewrite H. by split. Qed.

Lemma GET_on_empty_index (q : string) (file : option string) :
  JS.falsy q = false ->
  MiniSearch.documentCount (loadIndex JSON_parse file) = 0%nat ->
  GET JSON_parse search (Some q) file = NoDocumentsIndexed.
Proof. intros Hq H0. unfold GET. by rewrite Hq, H0. Qed.

Lemma GET_results (q : string) (file : option string) (results : list Hit) :
  GET JSON_parse search (Some q) file = Results results ->
  (0 < MiniSearch.documentCount (loadIndex JSON_parse file))%nat
  /\ search (loadIndex JSON_parse file) q = Some results.
Proof.
  unfold GET. destruct (JS.falsy q); [discriminate|].
  destruct (Nat.eqb_spec (MiniSearch.documentCount (loadIndex JSON_parse file)) 0) as [|Hn];
    [discriminate|].
  destruct (search _ q) as [rs|]; [|discriminate].
  intros [= ->]. split; [lia | done].
Qed.
End SearchRouteFacts.

(** C5, as stated, fails: with a snapshot that fails the validation the
    query is not served from the empty index. [GET] tests
    [documentCount === 0] first and answers with the 404 error response
    "No documents indexed"; the search, which here would return a hit, is
    not run. *)
Lemma C5_counterexample_corrupt_snapshot_answers_404 :
  let parse (s : string) :=
    if String.eqb s "{}" then Some (JObj []) else None in
  let search (_ : SearchRoute.Index) (_ : string) := Some [tt] in
  let response := SearchRoute.GET parse search (Some "lubricant") (Some "{}") in
  search (SearchRoute.loadIndex parse (Some "{}")) "lubricant" = Some [tt]
  /\ response = SearchRoute.NoDocumentsIndexed
  /\ SearchRoute.status response = 404%Z.
Proof. cbv zeta. repeat split; reflexivity. Qed.

(** C5, amended: when the snapshot cannot be read, cannot be parsed, or
    fails the validation (its [fields] or its [documents] is missing or
    is not an array), [loadIndex] does not raise: it returns the empty
    index, with no document. A non-empty query is then answered with the
    404 response "No documents indexed" (the search is not run on the
    empty index), never with the 500 fault response. *)
Theorem C5_loadIndex_falls_back_to_empty_index {Hit : Type}
    (JSON_parse : string -> option JSValue)
    (search : SearchRoute.Index -> string -> option (list Hit))
    (file : option string) (q : string) :
  (file = None
   \/ (exists indexData, file = Some indexData /\ JSON_parse indexData = None)
   \/ (exists indexData parsedData,
         file = Some indexData /\ JSON_parse indexData = Some parsedData
         /\ (JSValues.isArray (JSValues.prop "fields" parsedData) = false
             \/ JSValues.isArray (JSValues.prop "documents" parsedData) = false))) ->
  JS.falsy q = false ->
  SearchRoute.loadIndex JSON_parse file = SearchRoute.empty_index
  /\ MiniSearch.documentCount (SearchRoute.loadIndex JSON_parse file) = 0%nat
  /\ SearchRoute.GET JSON_parse search (Some q) file = SearchRoute.NoDocumentsIndexed
  /\ SearchRoute.status (SearchRoute.GET JSON_parse search (Some q) file) <> 500%Z.
Proof.
  intros Hfail Hq.
  assert (Hnone : SearchRoute.tryLoad JSON_parse file = None).
  { destruct Hfail as [-> | [(s & -> & Hp) | (s & v & -> & Hp & Hbad)]].
    - reflexivity.
    - unfold SearchRoute.tryLoad. by rewrite Hp.
    - by eapply tryLoad_rejects_non_arrays. }
  destruct (loadIndex_count JSON_parse file Hnone) as [He H0].
  pose proof (GET_on_empty_index JSON_parse search q file Hq H0) as HG.
  rewrite HG. repeat split; [exact He | exact H0 | discriminate].
Qed.

Lemma C5_loadIndex_falls_back_to_empty_index_witness :
  let parse (s : string) :=
    if String.eqb s "{}" then Some (JObj []) else None in
  SearchRoute.loadIndex parse (Some "{}") = SearchRoute.empty_index
  /\ SearchRoute.GET parse (fun _ _ => Some [tt]) (Some "lubricant") (Some "{}")
     = SearchRoute.NoDocumentsIndexed.
Proof.
  cbv zeta.
  destruct (C5_loadIndex_falls_back_to_empty_index
              (fun s : string => if String.eqb s "{}" then Some (JObj []) else None)
              (fun _ _ => Some [tt]) (Some "{}") "lubricant") as (H1 & _ & H3 & _).
  - right; right. exists "{}", (JObj []). repeat split; try reflexivity. by left.
  - reflexivity.
  - split; [exact H1 | exact H3].
Defined.

(** C6: for a non-empty query, an index with zero documents is answered
    with the 404 "nothing indexed" response; a 200 response, and so a 200
    with an empty list, is only given when the index holds at least one
    document, the list being what the search returned for the query. *)
Theorem C6_empty_index_is_404_not_empty_200 {Hit : Type}
    (JSON_parse : string -> option JSValue)
    (search : SearchRoute.Index -> string -> option (list Hit))
    (file : option string) (q : string) :
  JS.falsy q = false ->
  (MiniSearch.documentCount (SearchRoute.loadIndex JSON_parse file) = 0%nat ->
     SearchRoute.GET JSON_parse search (Some q) file = SearchRoute.NoDocumentsIndexed
     /\ SearchRoute.status (SearchRoute.GET JSON_parse search (Some q) file) = 404%Z)
  /\ (forall results,
        SearchRoute.GET JSON_parse search (Some q) file = SearchRoute.Results results ->
        (0 < MiniSearch.documentCount (SearchRoute.loadIndex JSON_parse file))%nat
        /\ search (SearchRoute.loadIndex JSON_parse file) q = Some results).
Proof.
  intros Hq. split.
  - intros H0. rewrite (GET_on_empty_index JSON_parse search q file Hq H0). by split.
  - intros results. apply GET_results.
Qed.

Lemma C6_empty_index_is_404_not_empty_200_witness :
  let parse (s : string) :=
    Some (JObj [("fields", JArr [JStr "title"]); ("documents", JArr [])]) in
  SearchRoute.GET parse (fun _ _ => Some [tt]) (Some "lubricant") (Some "{}")
  = SearchRoute.NoDocumentsIndexed.
Proof.
  cbv zeta.
  apply (C6_empty_index_is_404_not_empty_200
           (fun _ : string => Some (JObj [("fields", JArr [JStr "title"]); ("documents", JArr [])]))
           (fun _ _ => Some [tt]) (Some "{}") "lubricant"); reflexivity.
Defined.

(** ** Fetching one page ([crawl-and-index/route.js]) *)

Section CrawlPageFacts.
Import CrawlAndIndex.
Variable BASE_URL : string.
Variable URL_href : string -> string -> option string.
Variable cheerio_load : string -> Parsed.

Abbreviation loop := (attempt_loop BASE_URL URL_href cheerio_load).
Abbreviation fallback := (fetchFallback BASE_URL URL_href cheerio_load).
Abbreviation page := (crawlPage BASE_URL URL_href cheerio_load).

(** Splits on what the current attempt does and on the test of the
    [catch]. *)
Ltac attempt_cases w attempt retries :=
  cbn [attempt_loop];
  destruct (attempt_outcome w attempt) as [message|message|html];
  [ destruct (JS.includes "ENOEXEC" message); cbn [orb];
    [| destruct (Nat.eqb_spec attempt retries)]
  | destruct (JS.includes "ENOEXEC" message); cbn [orb];
    [| destruct (Nat.eqb_spec attempt retries)]
  | ].

Lemma attempt_loop_returns (w : PageWorld) (url : string) (retries remaining attempt : nat)
    (browser : option nat) :
  (attempt + remaining = S retries)%nat -> (1 <= remaining)%nat ->
  exists res, fst (loop w url retries remaining attempt browser) = Some res.
Proof.
  revert attempt browser. induction remaining as [|k IH]; intros attempt browser Hsum Hk; [lia|].
  attempt_cases w attempt retries; cbn [fst]; eauto.
  - destruct (IH (S attempt) browser) as [res Hres]; [lia | lia |].
    destruct (loop w url retries k (S attempt) browser) as [r tr]. cbn [fst] in *. eauto.
  - destruct (IH (S attempt) (Some attempt)) as [res Hres]; [lia | lia |].
    destruct (loop w url retries k (S attempt) (Some attempt)) as [r tr]. cbn [fst] in *. eauto.
Qed.

Lemma launches_app (a b : list Event) : launches (a ++ b) = (launches a + launches b)%nat.
Proof. unfold launches. by rewrite List.filter_app, length_app. Qed.

Lemma launches_close (browser : option nat) : launches (close_browser browser) = 0%nat.
Proof. by destruct browser. Qed.

Lemma attempt_loop_launches (w : PageWorld) (url : string) (retries remaining attempt : nat)
    (browser : option nat) :
  (launches (snd (loop w url retries remaining attempt browser)) <= remaining)%nat.
Proof.
  revert attempt browser. induction remaining as [|k IH]; intros attempt browser; [cbn; lia|].
  attempt_cases w attempt retries; cbn [snd];
    try (specialize (IH (S attempt));
         match goal with
         | |- context [loop w url retries k (S attempt) ?b] =>
             specialize (IH b); destruct (loop w url retries k (S attempt) b) as [r tr]
         end; cbn [snd] in *);
    repeat rewrite launches_app; repeat rewrite launches_close;
    cbn [launches List.filter is_launch length]; unfold launches in *; cbn; lia.
Qed.

Lemma sessions_closed_close (browser : option nat) (tr : list Event) :
  sessions_closed None (close_browser browser ++ tr) = sessions_closed None tr.
Proof. by destruct browser. Qed.

Lemma attempt_loop_sessions_closed (w : PageWorld) (url : string)
    (retries remaining attempt : nat) (browser : option nat) :
  sessions_closed None (snd (loop w url retries remaining attempt browser)) = true.
Proof.
  revert attempt browser. induction remaining as [|k IH]; intros attempt browser; [done|].
  attempt_cases w attempt retries; cbn [snd];
    try (specialize (IH (S attempt));
         match goal with
         | |- context [loop w url retries k (S attempt) ?b] =>
             specialize (IH b); destruct (loop w url retries k (S attempt) b) as [r tr]
         end; cbn [snd] in *);
    cbn [app sessions_closed close_browser]; rewrite ?Nat.eqb_refl; cbn [andb];
    rewrite ?sessions_closed_close, ?app_nil_r; try done;
    by destruct browser.
Qed.

Lemma delayed_close (rested : bool) (browser : option nat) (tr : list Event) :
  delayed rested (close_browser browser ++ tr) = delayed rested tr.
Proof. by destruct browser. Qed.

Lemma attempt_loop_delayed (w : PageWorld) (url : string)
    (retries remaining attempt : nat) (browser : option nat) :
  delayed true (snd (loop w url retries remaining attempt browser)) = true.
Proof.
  revert attempt browser. induction remaining as [|k IH]; intros attempt browser; [done|].
  attempt_cases w attempt retries; cbn [snd];
    try (specialize (IH (S attempt));
         match goal with
         | |- context [loop w url retries k (S attempt) ?b] =>
             specialize (IH b); destruct (loop w url retries k (S attempt) b) as [r tr]
         end; cbn [snd] in *);
    cbn [app delayed is_launch andb orb Z.eqb Pos.eqb];
    rewrite ?delayed_close, ?app_nil_r; try done;
    by destruct browser.
Qed.


Lemma crawlPage_returns (w : PageWorld) (url : string) (seen : gset string) :
  exists res, fst (fst (page w url seen 2)) = Some res.
Proof.
  unfold crawlPage. destruct (decide (url ∈ seen)); [by eexists|].
  destruct (attempt_loop_returns w url 2 2 1 None) as [res Hres]; [lia | lia |].
  destruct (loop w url 2 2 1 None) as [r tr]. cbn [fst] in *. eauto.
Qed.

Lemma crawl_loop_returns (world : string -> PageWorld) (budget : nat) (st : Loop) :
  exists st', crawl_loop BASE_URL URL_href cheerio_load world budget st = Some st'.
Proof.
  revert st. induction budget as [|b IH]; intros st; cbn [crawl_loop]; [eauto|].
  destruct (pop (toCrawl st)) as [[url rest]|]; [|eauto].
  destruct (crawlPage_returns (world url) url (visited st)) as [res Hres].
  destruct (page (world url) url (visited st) 2) as [[r seen'] tr].
  cbn [fst] in Hres. subst r. apply IH.
Qed.



End CrawlPageFacts.



(** ** The length of [content] ([crawl-and-index/route.js]) *)

Lemma length_append (a b : string) :
  String.length (a ++ b) = (String.length a + String.length b)%nat.
Proof. induction a as [|c a IH]; [done | simpl; by rewrite IH]. Qed.

Lemma take_chars_length (n : nat) (s : string) : (String.length (JS.take_chars n s) <= n)%nat.
Proof.
  revert s; induction n as [|n IH]; intros [|c s]; cbn; try lia.
  specialize (IH s). lia.
Qed.

Section ContentFacts.
Import CrawlAndIndex.
Variable BASE_URL : string.
Variable URL_href : string -> string -> option string.
Variable cheerio_load : string -> Parsed.

Lemma bodyContent_bounded (html : string) (parsed : Parsed) (headings : string) :
  (String.length (bodyContent_of html parsed headings) <= bodyLimit)%nat.
Proof.
  assert (Hlim : (20 <= bodyLimit)%nat) by (unfold bodyLimit; lia).
  assert (Hor : forall s d, (String.length d <= bodyLimit)%nat ->
            (String.length (JS.or_else (JS.take_chars bodyLimit s) d) <= bodyLimit)%nat).
  { intros s d Hd. unfold JS.or_else.
    destruct (JS.falsy _); [exact Hd | apply take_chars_length]. }
  unfold bodyContent_of.
  destruct (_ && _); apply Hor; cbn; lia.
Qed.

(** A document comes out of the extraction block only. *)
Lemma fetchFallback_document (w : PageWorld) (url : string) (d : Document) :
  document (fetchFallback BASE_URL URL_href cheerio_load w url) = Some d ->
  exists html, document (extract BASE_URL URL_href cheerio_load url html (iso_now w)) = Some d.
Proof.
  unfold fetchFallback. destruct (fetch_outcome w) as [|[|] html]; try discriminate. eauto.
Qed.

Lemma attempt_loop_document (w : PageWorld) (url : string) (retries remaining attempt : nat)
    (browser : option nat) (res : Result) (d : Document) :
  fst (attempt_loop BASE_URL URL_href cheerio_load w url retries remaining attempt browser)
    = Some res ->
  document res = Some d ->
  exists html, document (extract BASE_URL URL_href cheerio_load url html (iso_now w)) = Some d.
Proof.
  revert attempt browser. induction remaining as [|k IH]; intros attempt browser; [done|].
  cbn [attempt_loop].
  destruct (attempt_outcome w attempt) as [message|message|html];
    [| | cbn [fst]; intros [= <-]; eauto];
    (destruct (JS.includes "ENOEXEC" message || (attempt =? retries)%nat);
     [cbn [fst]; intros [= <-]; apply fetchFallback_document|]);
    match goal with
    | |- context [attempt_loop _ _ _ w url retries k (S attempt) ?b] =>
        specialize (IH (S attempt) b);
        destruct (attempt_loop BASE_URL URL_href cheerio_load w url retries k (S attempt) b)
    end; exact IH.
Qed.

Lemma crawlPage_document (w : PageWorld) (url : string) (seen : gset string)
    (retries : nat) (res : Result) (d : Document) :
  fst (fst (crawlPage BASE_URL URL_href cheerio_load w url seen retries)) = Some res ->
  document res = Some d ->
  exists html, document (extract BASE_URL URL_href cheerio_load url html (iso_now w)) = Some d.
Proof.
  unfold crawlPage. destruct (decide (url ∈ seen)).
  - cbn [fst]. intros [= <-]. discriminate.
  - pose proof (attempt_loop_document w url retries retries 1 None res d) as H.
    destruct (attempt_loop _ _ _ w url retries retries 1 None). exact H.
Qed.
End ContentFacts.

(** A page of [n] letters and no white space goes through the
    normalisation unchanged. *)
Lemma collapse_repeat (n : nat) : JS.collapse_from false (JS.repeat_char "a" n) = JS.repeat_char "a" n.
Proof. induction n as [|n IH]; [done|]. cbn [JS.repeat_char JS.collapse_from]. by rewrite IH. Qed.

Lemma trim_repeat (n : nat) : JS.trim (JS.repeat_char "a" n) = JS.repeat_char "a" n.
Proof.
  unfold JS.trim. replace (JS.trim_start (JS.repeat_char "a" n)) with (JS.repeat_char "a" n)
    by (by destruct n).
  induction n as [|n IH]; [done|]. cbn [JS.repeat_char JS.trim_end]. by rewrite IH.
Qed.

Lemma take_repeat (c : ascii) (n : nat) : JS.take_chars n (JS.repeat_char c n) = JS.repeat_char c n.
Proof. induction n as [|n IH]; [done|]. cbn [JS.repeat_char JS.take_chars]. by rewrite IH. Qed.

Lemma length_repeat (c : ascii) (n : nat) : String.length (JS.repeat_char c n) = n.
Proof. induction n as [|n IH]; [done|]. cbn [JS.repeat_char String.length]. by rewrite IH. Qed.

Lemma long_page_body (html title : string) (n : nat) :
  n = CrawlAndIndex.bodyLimit -> (0 < n)%nat ->
  CrawlAndIndex.bodyContent_of html
    (CrawlAndIndex.mkParsed title None (JS.repeat_char "a" n) ["a"] []) "a"
  = JS.repeat_char "a" n.
Proof.
  intros Hn Hpos. unfold CrawlAndIndex.bodyContent_of. cbn [CrawlAndIndex.p_text].
  rewrite <- Hn. unfold JS.collapse_spaces.
  rewrite collapse_repeat, trim_repeat, take_repeat.
  destruct n as [|n]; [lia | reflexivity].
Qed.

(** C4, as stated, fails: the bound applies to the body text only. A page
    whose text is 100000 letters, the first of them a heading, gets a
    [content] of 100002 characters. *)
Lemma C4_counterexample_headings_not_truncated :
  let parsed := CrawlAndIndex.mkParsed "" None
                  (JS.repeat_char "a" CrawlAndIndex.bodyLimit) ["a"] [] in
  match CrawlAndIndex.document
          (CrawlAndIndex.extract "https://example.com/" (fun _ _ => None) (fun _ => parsed)
             "https://example.com/" "<html>...</html>" "2025-01-01T00:00:00.000Z") with
  | Some d => (Z.of_nat (String.length (CrawlAndIndex.d_content d)) = 100002)%Z
  | None => False
  end.
Proof.
  cbv zeta. unfold CrawlAndIndex.extract.
  cbn [CrawlAndIndex.document CrawlAndIndex.d_content CrawlAndIndex.p_headings JS.join].
  rewrite long_page_body; [| reflexivity | unfold CrawlAndIndex.bodyLimit; lia].
  rewrite !length_append, length_repeat. unfold CrawlAndIndex.bodyLimit.
  change (String.length "a") with 1%nat. change (String.length " ") with 1%nat. lia.
Qed.

(** C4, amended: in every Document produced by [crawlPage] (by the browser
    strategy or by the fallback fetch), [content] is the headings text, a
    space, and the body text; the body text has at most 100000 characters,
    and the headings text is not truncated, so [content] has exactly
    [length headings + 1 + length body] characters, at most
    [length headings + 100001]. *)
Theorem C4_content_body_bounded
    (BASE_URL : string) (URL_href : string -> string -> option string)
    (cheerio_load : string -> CrawlAndIndex.Parsed)
    (w : CrawlAndIndex.PageWorld) (url : string) (seen : gset string) (retries : nat)
    (res : CrawlAndIndex.Result) (d : CrawlAndIndex.Document) :
  fst (fst (CrawlAndIndex.crawlPage BASE_URL URL_href cheerio_load w url seen retries)) = Some res ->
  CrawlAndIndex.document res = Some d ->
  exists html body,
    let headings := JS.join " " (CrawlAndIndex.p_headings (cheerio_load html)) in
    CrawlAndIndex.d_content d = headings ++ " " ++ body
    /\ (Z.of_nat (String.length body) <= 100000)%Z
    /\ String.length (CrawlAndIndex.d_content d)
       = (String.length headings + 1 + String.length body)%nat.
Proof.
  intros Hres Hd.
  destruct (crawlPage_document BASE_URL URL_href cheerio_load w url seen retries res d Hres Hd)
    as [html Hex].
  unfold CrawlAndIndex.extract in Hex. cbn [CrawlAndIndex.document] in Hex.
  injection Hex as <-. cbn [CrawlAndIndex.d_content].
  eexists html, _. cbv zeta. split; [reflexivity|]. split.
  - pose proof (bodyContent_bounded html (cheerio_load html)
                  (JS.join " " (CrawlAndIndex.p_headings (cheerio_load html)))) as Hb.
    unfold CrawlAndIndex.bodyLimit in Hb. lia.
  - rewrite !length_append. cbn. lia.
Qed.

Lemma C4_content_body_bounded_witness :
  let page := CrawlAndIndex.mkParsed "" None "Hello world" ["Hello"] [] in
  let w := CrawlAndIndex.mkPageWorld (fun _ => CrawlAndIndex.PageLoads "<h1>Hello</h1> world")
             CrawlAndIndex.FetchThrows "2025-01-01T00:00:00.000Z" in
  let res := CrawlAndIndex.extract "https://example.com/" Example.URL_href (fun _ => page)
               "https://example.com/" "<h1>Hello</h1> world" "2025-01-01T00:00:00.000Z" in
  exists d body,
    CrawlAndIndex.document res = Some d
    /\ CrawlAndIndex.d_content d = "Hello" ++ " " ++ body
    /\ (Z.of_nat (String.length body) <= 100000)%Z.
Proof.
  cbv zeta.
  destruct (C4_content_body_bounded "https://example.com/" Example.URL_href
              (fun _ => CrawlAndIndex.mkParsed "" None "Hello world" ["Hello"] [])
              (CrawlAndIndex.mkPageWorld (fun _ => CrawlAndIndex.PageLoads "<h1>Hello</h1> world")
                 CrawlAndIndex.FetchThrows "2025-01-01T00:00:00.000Z")
              "https://example.com/" ∅ 2
              (CrawlAndIndex.extract "https://example.com/" Example.URL_href
                 (fun _ => CrawlAndIndex.mkParsed "" None "Hello world" ["Hello"] [])
                 "https://example.com/" "<h1>Hello</h1> world" "2025-01-01T00:00:00.000Z")
              (CrawlAndIndex.mkDocument "https://example.com/" "No title" ""
                 "Hello Hello world" "https://example.com/" "" "2025-01-01T00:00:00.000Z"))
    as (html & body & Hc & Hb & _).
  - reflexivity.
  - reflexivity.
  - eexists _, body. split; [reflexivity|]. split; [exact Hc | exact Hb].
Defined.

(** ** Outgoing links *)

Section LinkFacts.
Variable URL_href : string -> string -> option string.

Lemma falsy_empty (s : string) : JS.falsy s = false <-> s <> "".
Proof. destruct s; cbn; split; congruence. Qed.

(** [latest/crawl.js]: which hrefs pass the filter. *)
Lemma keep_href_spec (origin url href : string) :
  Crawl.keep_href URL_href origin url href = true <->
  href <> "" /\ exists absoluteUrl,
    URL_href href url = Some absoluteUrl
    /\ JS.startsWith origin absoluteUrl = true
    /\ JS.includes "#" absoluteUrl = false.
Proof.
  unfold Crawl.keep_href. destruct (JS.falsy href) eqn:Hf.
  - split; [done|]. intros [Hne _]. apply falsy_empty in Hne. congruence.
  - apply falsy_empty in Hf. destruct (URL_href href url) as [a|].
    + rewrite andb_true_iff, negb_true_iff. split.
      * intros [? ?]. eauto.
      * intros (_ & a' & [= <-] & ? & ?). done.
    + split; [done|]. intros (_ & a' & ? & _). done.
Qed.

Lemma omap_id_elem {A} (l : list (option A)) (x : A) : x ∈ omap (fun h => h) l <-> Some x ∈ l.
Proof.
  rewrite list_elem_of_omap. split.
  - intros (o & Ho & ->). done.
  - intros H. eauto.
Qed.

Lemma extract_links_spec (origin url : string) (hrefs : list (option string))
    (absoluteUrl : string) :
  absoluteUrl ∈ Crawl.extract_links URL_href origin url hrefs <->
  exists href, Some href ∈ hrefs /\ href <> ""
    /\ URL_href href url = Some absoluteUrl
    /\ JS.startsWith origin absoluteUrl = true
    /\ JS.includes "#" absoluteUrl = false.
Proof.
  unfold Crawl.extract_links. rewrite list_elem_of_omap. split.
  - intros (href & Hin & Hres).
    apply list_elem_of_In, List.filter_In in Hin as [Hin Hkeep].
    apply list_elem_of_In, omap_id_elem in Hin.
    apply keep_href_spec in Hkeep as (Hne & a & Ha & Hs & Hi).
    exists href. rewrite Hres in Ha. injection Ha as <-. done.
  - intros (href & Hin & Hne & Hres & Hs & Hi). exists href. split; [|done].
    apply list_elem_of_In, List.filter_In. split.
    + by apply list_elem_of_In, omap_id_elem.
    + apply keep_href_spec. eauto.
Qed.

(** [crawl-and-index/route.js]: the links of a result. *)
Lemma anchor_link_spec (BASE_URL : string) (a : option string * string)
    (link : string * string) :
  CrawlAndIndex.anchor_link BASE_URL URL_href a = Some link <->
  exists href, fst a = Some href /\ href <> ""
    /\ URL_href href BASE_URL = Some (fst link) /\ snd link = JS.trim (snd a).
Proof.
  unfold CrawlAndIndex.anchor_link. destruct a as [[href|] text]; cbn [fst snd].
  - destruct (JS.falsy href) eqn:Hf.
    + split; [done|]. intros (h & [= <-] & Hne & _). apply falsy_empty in Hne. congruence.
    + apply falsy_empty in Hf. destruct (URL_href href BASE_URL) as [abs|] eqn:Hu.
      * split.
        -- intros [= <-]. exists href. done.
        -- intros (h & [= <-] & _ & Hr & Ht). rewrite Hu in Hr. injection Hr as ->.
           destruct link; cbn [fst snd] in *; by subst.
      * split; [done|]. intros (h & [= <-] & _ & Hr & _). by rewrite Hu in Hr.
  - split; [done|]. intros (h & ? & _). done.
Qed.

Lemma extract_page_links_spec (BASE_URL : string) (cheerio_load : string -> CrawlAndIndex.Parsed)
    (url html lastCrawled absoluteUrl : string) :
  absoluteUrl ∈ CrawlAndIndex.links
                  (CrawlAndIndex.extract BASE_URL URL_href cheerio_load url html lastCrawled) <->
  exists href text,
    (Some href, text) ∈ CrawlAndIndex.p_anchors (cheerio_load html) /\ href <> ""
    /\ URL_href href BASE_URL = Some absoluteUrl
    /\ JS.startsWith BASE_URL absoluteUrl = true.
Proof.
  unfold CrawlAndIndex.extract. cbn [CrawlAndIndex.links].
  unfold CrawlAndIndex.internal_links. rewrite list_elem_of_In, List.in_map_iff. split.
  - intros ([abs text'] & <- & Hin). cbn [fst].
    apply List.filter_In in Hin as [Hin Hs]. cbn [fst] in Hs.
    apply list_elem_of_In, list_elem_of_omap in Hin as ([o text] & Hin & Hlink).
    apply anchor_link_spec in Hlink as (href & Ho & Hne & Hres & _).
    cbn [fst snd] in *. subst o. eauto 10.
  - intros (href & text & Hin & Hne & Hres & Hs).
    exists (absoluteUrl, JS.trim text). split; [done|].
    apply List.filter_In. split; [|done].
    apply list_elem_of_In, list_elem_of_omap. exists (Some href, text). split; [done|].
    apply anchor_link_spec. exists href. done.
Qed.

(** The extension denylist is in the loop of [GET]: a link gets on the
    frontier only if it does not end in a denied extension. *)
Lemma push_links_spec (seen : gset string) (found frontier : list string) (link : string) :
  link ∈ CrawlAndIndex.push_links seen found frontier ->
  link ∈ frontier
  \/ (link ∈ found /\ (link ∉ seen) /\ CrawlAndIndex.has_denied_extension link = false).
Proof.
  unfold CrawlAndIndex.push_links. revert frontier.
  induction found as [|l found IH]; intros frontier; cbn [fold_left]; [by left|].
  intros H. apply IH in H as [H|(H & ? & ?)].
  - destruct (negb (bool_decide (l ∈ seen))) eqn:Hs; cbn [andb] in H; [|by left].
    destruct (negb (existsb (String.eqb l) frontier)); cbn [andb] in H; [|by left].
    destruct (negb (CrawlAndIndex.has_denied_extension l)) eqn:Hd; [|by left].
    apply elem_of_app in H as [H|H]; [by left|].
    apply list_elem_of_singleton in H as ->. right.
    apply negb_true_iff in Hs, Hd. apply bool_decide_eq_false in Hs.
    repeat split; [apply list_elem_of_here | done | done].
  - right. repeat split; [by apply list_elem_of_further | done | done].
Qed.
End LinkFacts.

(** C3, as stated, fails. In [crawl-and-index/route.js] the page of the
    example yields two links, the fragment one included: no fragment test
    is made there. In [latest/crawl.js] an anchor to a PDF of the site is
    extracted: no extension denylist is applied there. *)
Lemma C3_counterexample_fragment_and_pdf_links_kept :
  CrawlAndIndex.links
    (CrawlAndIndex.extract "https://example.com/" Example.URL_href Example.cheerio_load
       "https://example.com/" Example.html "2025-01-01T00:00:00.000Z")
  = ["https://example.com/a"; "https://example.com/#frag"]
  /\ Crawl.extract_links Example.URL_href "https://example.com" "https://example.com/"
       [Some "/manual.pdf"]
     = ["https://example.com/manual.pdf"].
Proof. split; reflexivity. Qed.

(** C3, amended. In [latest/crawl.js] the extracted links are exactly the
    non-empty anchor hrefs that resolve against the page's own URL to an
    absolute URL that starts with the configured origin and contains no
    [#]; on the page of the example this is exactly
    [["https://example.com/a"]]. In [crawl-and-index/route.js] the hrefs
    are resolved against the fixed [BASE_URL] and kept when the result
    starts with [BASE_URL]. Neither extraction looks at the extension: the
    denylist of asset extensions is applied when the loop of [GET] pushes
    a link on the frontier. *)
Theorem C3_extracted_links
    (URL_href : string -> string -> option string) :
  URL_href "/a" "https://example.com/" = Some "https://example.com/a" ->
  URL_href "https://other.site/b" "https://example.com/" = Some "https://other.site/b" ->
  URL_href "#frag" "https://example.com/" = Some "https://example.com/#frag" ->
  (forall origin url hrefs absoluteUrl,
     absoluteUrl ∈ Crawl.extract_links URL_href origin url hrefs <->
     exists href, Some href ∈ hrefs /\ href <> ""
       /\ URL_href href url = Some absoluteUrl
       /\ JS.startsWith origin absoluteUrl = true
       /\ JS.includes "#" absoluteUrl = false)
  /\ Crawl.extract_links URL_href "https://example.com" "https://example.com/"
       [Some "/a"; Some "https://other.site/b"; Some "#frag"]
     = ["https://example.com/a"]
  /\ (forall BASE_URL cheerio_load url html lastCrawled absoluteUrl,
       absoluteUrl ∈ CrawlAndIndex.links
                       (CrawlAndIndex.extract BASE_URL URL_href cheerio_load url html lastCrawled) <->
       exists href text,
         (Some href, text) ∈ CrawlAndIndex.p_anchors (cheerio_load html) /\ href <> ""
         /\ URL_href href BASE_URL = Some absoluteUrl
         /\ JS.startsWith BASE_URL absoluteUrl = true)
  /\ (forall (seen : gset string) found frontier link,
       link ∈ CrawlAndIndex.push_links seen found frontier ->
       link ∈ frontier
       \/ (link ∈ found /\ (link ∉ seen) /\ CrawlAndIndex.has_denied_extension link = false)).
Proof.
  intros Ha Hb Hf. split; [|split; [|split]].
  - intros. apply extract_links_spec.
  - unfold Crawl.extract_links, Crawl.keep_href.
    cbn [omap list_omap List.filter JS.falsy]. rewrite Ha, Hb, Hf.
    cbn. by rewrite Ha.
  - intros. apply extract_page_links_spec.
  - intros seen found frontier link. apply push_links_spec.
Qed.

Lemma C3_extracted_links_witness :
  Crawl.extract_links Example.URL_href "https://example.com" "https://example.com/"
    [Some "/a"; Some "https://other.site/b"; Some "#frag"]
  = ["https://example.com/a"].
Proof.
  apply (C3_extracted_links Example.URL_href); reflexivity.
Defined.

(** ** The index of the crawl-and-index route *)

Section AddAllFacts.
Context {Doc Key : Type}.
Variable id_of : Doc -> option Key.
Variable same_key : Key -> Key -> bool.

Abbreviation addAll := (MiniSearch.addAll id_of same_key).
Abbreviation add := (MiniSearch.add id_of same_key).

Lemma add_documents (d : Doc) (ms ms' : MiniSearch.t Doc) :
  add d ms = Some ms' -> MiniSearch.documents ms' = (MiniSearch.documents ms ++ [d])%list.
Proof.
  unfold MiniSearch.add. destruct (id_of d) as [k|]; [|done].
  destruct (MiniSearch.has_id id_of same_key k ms); [done|]. by intros [= <-].
Qed.

(** A successful [addAll] appends the whole batch. *)
Lemma addAll_documents (ds : list Doc) (ms ms' : MiniSearch.t Doc) :
  addAll ds ms = (ms', true) -> MiniSearch.documents ms' = (MiniSearch.documents ms ++ ds)%list.
Proof.
  revert ms. induction ds as [|d ds IH]; intros ms; cbn [MiniSearch.addAll].
  - intros [= <-]. by rewrite app_nil_r.
  - destruct (add d ms) as [ms1|] eqn:Hadd; [|done].
    intros H. apply IH in H. rewrite H, (add_documents d ms ms1 Hadd).
    by rewrite <- app_assoc.
Qed.

Lemma addAll_count (ds : list Doc) (ms ms' : MiniSearch.t Doc) :
  addAll ds ms = (ms', true) ->
  MiniSearch.documentCount ms' = (MiniSearch.documentCount ms + length ds)%nat.
Proof.
  intros H. unfold MiniSearch.documentCount.
  by rewrite (addAll_documents ds ms ms' H), length_app.
Qed.

(** A throw on the first document leaves the index as it was. *)
Lemma addAll_first_rejected (d : Doc) (ds : list Doc) (ms : MiniSearch.t Doc) :
  add d ms = None -> addAll (d :: ds) ms = (ms, false).
Proof. intros H. cbn [MiniSearch.addAll]. by rewrite H. Qed.
End AddAllFacts.

Section IndexRunFacts.
Import CrawlAndIndex.
Variable BASE_URL : string.
Variable URL_href : string -> string -> option string.
Variable cheerio_load : string -> Parsed.

Abbreviation run_GET := (GET BASE_URL URL_href cheerio_load).
Abbreviation run_loop := (crawl_loop BASE_URL URL_href cheerio_load).

Abbreviation batch_of := (with_fallback BASE_URL).

Lemma with_fallback_nonempty (fallbackTime : string) (ds : list Document) :
  batch_of fallbackTime ds <> [].
Proof. unfold with_fallback. destruct ds; cbn; discriminate. Qed.

Lemma addAll_nonempty_count (ds : list Document) (ms ms' : Index) :
  ds <> [] -> addAll ds ms = (ms', true) -> (MiniSearch.documentCount ms' =? 0)%nat = false.
Proof.
  intros Hne H. apply Nat.eqb_neq. unfold addAll in H.
  rewrite (addAll_count _ _ ds ms ms' H). destruct ds; [done | cbn; lia].
Qed.

(** The three ways a run ends once the loop has returned. *)
Lemma GET_after_loop (world : string -> PageWorld) (fallbackTime : string)
    (save : SaveOutcome) (ms : Index) (file : option Snapshot) (st : Loop) :
  run_loop world maxCrawl (mkLoop ∅ [BASE_URL] [] [] 0) = Some st ->
  let docs := batch_of fallbackTime (documents st) in
  let snapshot := mkSnapshot ["title"; "content"; "description"; "links"] docs in
  run_GET world fallbackTime save ms file =
  match addAll docs ms with
  | (ms', false) => mkRun IndexingFailed (Some docs) ms' file
  | (ms', true) =>
      match save with
      | WriteThrows => mkRun (SaveFailed (failedUrls st)) (Some docs) ms' file
      | ReadBackThrows => mkRun (SaveFailed (failedUrls st)) (Some docs) ms' (Some snapshot)
      | Saved => mkRun (Indexed docs (failedUrls st)) (Some docs) ms' (Some snapshot)
      end
  end.
Proof.
  intros Hloop. cbv zeta. unfold GET. rewrite Hloop.
  destruct (addAll (batch_of fallbackTime (documents st)) ms) as [ms' [|]] eqn:Hadd; [|done].
  by rewrite (addAll_nonempty_count _ ms ms' (with_fallback_nonempty fallbackTime _) Hadd).
Qed.
End IndexRunFacts.

(** C9: the list handed to [addAll] is never empty (when the crawl gave no
    document it is the fallback document alone), the "No documents
    indexed" 500 response that follows [addAll] is never given, and a
    snapshot the run writes holds at least one document, so that the
    snapshot on disk stays non-empty. *)
Theorem C9_fallback_document_keeps_index_nonempty
    (BASE_URL : string) (URL_href : string -> string -> option string)
    (cheerio_load : string -> CrawlAndIndex.Parsed)
    (world : string -> CrawlAndIndex.PageWorld) (fallbackTime : string)
    (save : CrawlAndIndex.SaveOutcome) (ms : CrawlAndIndex.Index)
    (file : option CrawlAndIndex.Snapshot) :
  let run := CrawlAndIndex.GET BASE_URL URL_href cheerio_load world fallbackTime save ms file in
  (forall docs, CrawlAndIndex.added run = Some docs -> docs <> [])
  /\ CrawlAndIndex.with_fallback BASE_URL fallbackTime []
     = [CrawlAndIndex.fallback_document BASE_URL fallbackTime]
  /\ (forall failed, CrawlAndIndex.response run <> CrawlAndIndex.NoDocumentsIndexed failed)
  /\ ((forall s, file = Some s -> CrawlAndIndex.snap_documents s <> []) ->
      forall s, CrawlAndIndex.file_after run = Some s -> CrawlAndIndex.snap_documents s <> []).
Proof.
  cbv zeta.
  destruct (crawl_loop_returns BASE_URL URL_href cheerio_load world CrawlAndIndex.maxCrawl
              (CrawlAndIndex.mkLoop ∅ [BASE_URL] [] [] 0)) as [st Hloop].
  rewrite (GET_after_loop BASE_URL URL_href cheerio_load world fallbackTime save ms file st Hloop).
  cbv zeta.
  pose proof (with_fallback_nonempty BASE_URL fallbackTime (CrawlAndIndex.documents st)) as Hne.
  destruct (CrawlAndIndex.addAll _ ms) as [ms' [|]]; [destruct save|];
    cbn [CrawlAndIndex.added CrawlAndIndex.response CrawlAndIndex.file_after];
    (split; [by intros docs [= <-]|]); (split; [reflexivity|]); (split; [done|]);
    intros Hfile s; try apply Hfile; by intros [= <-].
Qed.

Lemma C9_fallback_document_keeps_index_nonempty_witness :
  let dead := CrawlAndIndex.mkPageWorld (fun _ => CrawlAndIndex.LaunchThrows "spawn ENOEXEC")
                CrawlAndIndex.FetchThrows "2025-01-01T00:00:00.000Z" in
  let run := CrawlAndIndex.GET "https://example.com/" Example.URL_href Example.cheerio_load
               (fun _ => dead) "2025-01-01T00:00:01.000Z" CrawlAndIndex.Saved
               CrawlAndIndex.new_index None in
  exists s, CrawlAndIndex.file_after run = Some s /\ CrawlAndIndex.snap_documents s <> [].
Proof.
  cbv zeta. eexists. split; [vm_compute; reflexivity|].
  eapply (C9_fallback_document_keeps_index_nonempty "https://example.com/" Example.URL_href
            Example.cheerio_load
            (fun _ => CrawlAndIndex.mkPageWorld (fun _ => CrawlAndIndex.LaunchThrows "spawn ENOEXEC")
                        CrawlAndIndex.FetchThrows "2025-01-01T00:00:00.000Z")
            "2025-01-01T00:00:01.000Z" CrawlAndIndex.Saved CrawlAndIndex.new_index None).
  - intros s Hs. discriminate Hs.
  - vm_compute. reflexivity.
Defined.

(** ** Two runs over the same site *)

Section TwoRuns.
Import CrawlAndIndex.
Variable BASE_URL : string.
Variable URL_href : string -> string -> option string.
Variable cheerio_load : string -> Parsed.

Abbreviation loop2 := (attempt_loop BASE_URL URL_href cheerio_load).

Lemma extract_same (url html t1 t2 : string) :
  same_result (extract BASE_URL URL_href cheerio_load url html t1)
              (extract BASE_URL URL_href cheerio_load url html t2).
Proof. by split. Qed.

Lemma fetchFallback_same (w1 w2 : PageWorld) (url : string) :
  fetch_outcome w1 = fetch_outcome w2 ->
  same_result (fetchFallback BASE_URL URL_href cheerio_load w1 url)
              (fetchFallback BASE_URL URL_href cheerio_load w2 url).
Proof.
  intros H. unfold fetchFallback. rewrite H.
  destruct (fetch_outcome w2) as [|[|] html]; try by split.
Qed.

Lemma attempt_loop_same (w1 w2 : PageWorld) (url : string) (retries remaining attempt : nat)
    (browser : option nat) :
  (forall n, attempt_outcome w1 n = attempt_outcome w2 n) ->
  fetch_outcome w1 = fetch_outcome w2 ->
  option_Forall2 same_result
    (fst (loop2 w1 url retries remaining attempt browser))
    (fst (loop2 w2 url retries remaining attempt browser)).
Proof.
  intros Ha Hf. revert attempt browser.
  induction remaining as [|k IH]; intros attempt browser; [constructor|].
  cbn [attempt_loop]. rewrite Ha.
  destruct (attempt_outcome w2 attempt) as [message|message|html];
    [| | cbn [fst]; constructor; apply extract_same];
    (destruct (JS.includes "ENOEXEC" message || (attempt =? retries)%nat);
     [cbn [fst]; constructor; by apply fetchFallback_same|]);
    match goal with
    | |- context [attempt_loop _ _ _ w1 url retries k (S attempt) ?b] =>
        specialize (IH (S attempt) b);
        destruct (attempt_loop BASE_URL URL_href cheerio_load w1 url retries k (S attempt) b);
        destruct (attempt_loop BASE_URL URL_href cheerio_load w2 url retries k (S attempt) b)
    end; exact IH.
Qed.

Lemma crawlPage_same (w1 w2 : PageWorld) (url : string) (seen : gset string) (retries : nat) :
  (forall n, attempt_outcome w1 n = attempt_outcome w2 n) ->
  fetch_outcome w1 = fetch_outcome w2 ->
  let run1 := crawlPage BASE_URL URL_href cheerio_load w1 url seen retries in
  let run2 := crawlPage BASE_URL URL_href cheerio_load w2 url seen retries in
  option_Forall2 same_result (fst (fst run1)) (fst (fst run2))
  /\ snd (fst run1) = snd (fst run2).
Proof.
  intros Ha Hf. cbv zeta. unfold crawlPage. destruct (decide (url ∈ seen)).
  - split; [constructor; by split | done].
  - pose proof (attempt_loop_same w1 w2 url retries retries 1 None Ha Hf) as H.
    destruct (loop2 w1 url retries retries 1 None), (loop2 w2 url retries retries 1 None).
    by split.
Qed.

Lemma crawl_loop_same (world1 world2 : string -> PageWorld) (budget : nat) (st1 st2 : Loop) :
  same_site world1 world2 -> same_loop st1 st2 ->
  option_Forall2 same_loop
    (crawl_loop BASE_URL URL_href cheerio_load world1 budget st1)
    (crawl_loop BASE_URL URL_href cheerio_load world2 budget st2).
Proof.
  intros Hsite. revert st1 st2.
  induction budget as [|b IH]; intros st1 st2 Hst; cbn [crawl_loop]; [by constructor|].
  destruct Hst as (Hv & Ht & Hf & Hc & Hd). rewrite <- Ht.
  destruct (pop (toCrawl st1)) as [[url rest]|]; [|by constructor].
  destruct (Hsite url) as [Ha Hfe]. rewrite <- Hv.
  destruct (crawlPage_same (world1 url) (world2 url) url (visited st1) 2 Ha Hfe) as [Hr Hseen].
  destruct (crawlPage BASE_URL URL_href cheerio_load (world1 url) url (visited st1) 2)
    as [[r1 seen1] tr1].
  destruct (crawlPage BASE_URL URL_href cheerio_load (world2 url) url (visited st1) 2)
    as [[r2 seen2] tr2].
  cbn [fst snd] in Hr, Hseen. subst seen2.
  destruct Hr as [r1 r2 [Hl Hdoc]|]; [|constructor].
  apply IH. rewrite <- Hl, <- Hf, <- Hc.
  destruct (document r1) as [d1|], (document r2) as [d2|]; cbn in Hdoc; try done;
    repeat split; cbn [documents]; try done.
  injection Hdoc as Hid. rewrite !map_app, Hd. cbn [map]. by rewrite Hid.
Qed.
End TwoRuns.

Section DuplicateIds.
Import CrawlAndIndex.

Abbreviation ids := (map d_id).
Abbreviation add_doc := (MiniSearch.add (fun d : Document => Some (d_id d)) String.eqb).

Lemma has_id_ids (k : string) (ms : Index) :
  MiniSearch.has_id (fun d : Document => Some (d_id d)) String.eqb k ms
  = existsb (fun i => String.eqb i k) (ids (MiniSearch.documents ms)).
Proof.
  unfold MiniSearch.has_id. induction (MiniSearch.documents ms) as [|d ds IH]; [done|].
  cbn [existsb map]. by rewrite IH.
Qed.

(** [add] throws for a document whose id is already in the index. *)
Lemma add_duplicate (d d0 : Document) (ms : Index) :
  d0 ∈ MiniSearch.documents ms -> d_id d0 = d_id d -> add_doc d ms = None.
Proof.
  intros Hin Hid. unfold MiniSearch.add.
  assert (H : MiniSearch.has_id (fun d : Document => Some (d_id d)) String.eqb (d_id d) ms = true).
  { unfold MiniSearch.has_id. apply existsb_exists. exists d0. split.
    - by apply list_elem_of_In.
    - rewrite Hid. apply String.eqb_refl. }
  by rewrite H.
Qed.

(** Whether [addAll] returns depends on the ids only. *)
Lemma addAll_same_ids (ds ds' : list Document) (ms ms' : Index) :
  ids ds = ids ds' ->
  ids (MiniSearch.documents ms) = ids (MiniSearch.documents ms') ->
  snd (addAll ds ms) = snd (addAll ds' ms').
Proof.
  revert ds' ms ms'. induction ds as [|d ds IH]; intros [|d' ds'] ms ms' Hds Hms;
    try discriminate Hds; [done|].
  injection Hds as Hd Hds. unfold addAll in *. cbn [MiniSearch.addAll].
  unfold MiniSearch.add. rewrite !has_id_ids, <- Hms, <- Hd.
  destruct (existsb _ _); [done|].
  apply IH; [done|]. cbn [MiniSearch.documents]. rewrite !map_app, Hms. cbn [map].
  by rewrite Hd.
Qed.

Lemma with_fallback_ids (BASE_URL t1 t2 : string) (ds1 ds2 : list Document) :
  ids ds1 = ids ds2 ->
  ids (with_fallback BASE_URL t1 ds1) = ids (with_fallback BASE_URL t2 ds2).
Proof.
  intros H. unfold with_fallback.
  destruct ds1, ds2; try discriminate H; [reflexivity | exact H].
Qed.
End DuplicateIds.

(** C8, as stated, fails: the add path is not idempotent. On a site of
    three pages that does not change, a first run in a new process indexes
    three documents; a second run in the same process hands the same
    three identities to [addAll], which throws on the first of them, and
    the run is answered 500 without writing a snapshot. *)
Lemma C8_counterexample_second_addAll_throws :
  let site := fun _ : string =>
    CrawlAndIndex.mkPageWorld (fun _ => CrawlAndIndex.PageLoads Example.html)
      CrawlAndIndex.FetchThrows "2025-01-01T00:00:00.000Z" in
  let GET := CrawlAndIndex.GET "https://example.com/" Example.URL_href Example.cheerio_load site
               "2025-01-01T00:00:01.000Z" CrawlAndIndex.Saved in
  let run1 := GET CrawlAndIndex.new_index None in
  let run2 := GET (CrawlAndIndex.index_after run1) (CrawlAndIndex.file_after run1) in
  (exists docs, CrawlAndIndex.response run1 = CrawlAndIndex.Indexed docs []
                /\ map CrawlAndIndex.d_id docs
                   = ["https://example.com/"; "https://example.com/#frag"; "https://example.com/a"]
                /\ CrawlAndIndex.added run2 = Some docs
                /\ snd (CrawlAndIndex.addAll docs (CrawlAndIndex.index_after run1)) = false)
  /\ CrawlAndIndex.response run2 = CrawlAndIndex.IndexingFailed.
Proof.
  cbv zeta. split; [eexists; split; [|split; [|split]]|]; vm_compute; reflexivity.
Qed.

Section SecondRun.
Import CrawlAndIndex.
Variable BASE_URL : string.
Variable URL_href : string -> string -> option string.
Variable cheerio_load : string -> Parsed.

Abbreviation GET' := (GET BASE_URL URL_href cheerio_load).
Abbreviation start := (mkLoop ∅ [BASE_URL] [] [] 0).
Abbreviation fields4 := (["title"; "content"; "description"; "links"]).

(** What a successful first run in a new process leaves. *)
Lemma first_run_indexed (world : string -> PageWorld) (t : string) (file : option Snapshot)
    (docs : list Document) (failed : list string) :
  response (GET' world t Saved new_index file) = Indexed docs failed ->
  exists st,
    crawl_loop BASE_URL URL_href cheerio_load world maxCrawl start = Some st
    /\ docs = with_fallback BASE_URL t (documents st) /\ failed = failedUrls st
    /\ snd (addAll docs new_index) = true
    /\ MiniSearch.documents (index_after (GET' world t Saved new_index file)) = docs
    /\ file_after (GET' world t Saved new_index file) = Some (mkSnapshot fields4 docs).
Proof.
  destruct (crawl_loop_returns BASE_URL URL_href cheerio_load world maxCrawl start)
    as [st Hloop].
  rewrite (GET_after_loop BASE_URL URL_href cheerio_load world t Saved new_index file st Hloop).
  cbv zeta.
  destruct (addAll (with_fallback BASE_URL t (documents st)) new_index) as [ms1 [|]] eqn:Hadd;
    cbn [response index_after file_after]; [|discriminate].
  intros [= <- <-]. exists st. repeat split; try done.
  - by rewrite Hadd.
  - unfold addAll in Hadd. by rewrite (addAll_documents _ _ _ _ _ Hadd).
Qed.

Lemma second_loop (world1 world2 : string -> PageWorld) (st1 : Loop) :
  same_site world1 world2 ->
  crawl_loop BASE_URL URL_href cheerio_load world1 maxCrawl start = Some st1 ->
  exists st2,
    crawl_loop BASE_URL URL_href cheerio_load world2 maxCrawl start = Some st2
    /\ same_loop st1 st2.
Proof.
  intros Hsite H1.
  assert (Hstart : same_loop start start) by (by repeat split).
  pose proof (crawl_loop_same BASE_URL URL_href cheerio_load world1 world2 maxCrawl
                start start Hsite Hstart) as H.
  rewrite H1 in H. inversion H as [? st2 Hsame|]; subst. eauto.
Qed.
End SecondRun.

(** C8, amended: after a first run that indexed the site in a new process,
    a second run over the unchanged site leaves a snapshot with the same
    document count, but not because the add path is idempotent. In the
    same process [addAll] is handed identities that the module-level index
    already holds and throws: the run is answered 500, the index and the
    snapshot of the first run stay as they were. In a new process the
    index starts empty and the snapshot is written again from the run's
    own list of documents, which has the same identities. *)
Theorem C8_second_run_keeps_snapshot_count
    (BASE_URL : string) (URL_href : string -> string -> option string)
    (cheerio_load : string -> CrawlAndIndex.Parsed)
    (world1 world2 : string -> CrawlAndIndex.PageWorld) (t1 t2 : string)
    (save2 : CrawlAndIndex.SaveOutcome) (file0 : option CrawlAndIndex.Snapshot)
    (docs1 : list CrawlAndIndex.Document) (failed1 : list string) :
  CrawlAndIndex.same_site world1 world2 ->
  let GET := CrawlAndIndex.GET BASE_URL URL_href cheerio_load in
  let run1 := GET world1 t1 CrawlAndIndex.Saved CrawlAndIndex.new_index file0 in
  CrawlAndIndex.response run1 = CrawlAndIndex.Indexed docs1 failed1 ->
  let warm := GET world2 t2 save2 (CrawlAndIndex.index_after run1) (CrawlAndIndex.file_after run1) in
  let cold := GET world2 t2 CrawlAndIndex.Saved CrawlAndIndex.new_index
                (CrawlAndIndex.file_after run1) in
  CrawlAndIndex.file_after run1
    = Some (CrawlAndIndex.mkSnapshot ["title"; "content"; "description"; "links"] docs1)
  /\ CrawlAndIndex.response warm = CrawlAndIndex.IndexingFailed
  /\ CrawlAndIndex.index_after warm = CrawlAndIndex.index_after run1
  /\ CrawlAndIndex.file_after warm = CrawlAndIndex.file_after run1
  /\ exists docs2,
       CrawlAndIndex.response cold = CrawlAndIndex.Indexed docs2 failed1
       /\ map CrawlAndIndex.d_id docs2 = map CrawlAndIndex.d_id docs1
       /\ length docs2 = length docs1
       /\ CrawlAndIndex.file_after cold
          = Some (CrawlAndIndex.mkSnapshot ["title"; "content"; "description"; "links"] docs2).
Proof.
  intros Hsite. cbv zeta. intros Hrun1.
  destruct (first_run_indexed BASE_URL URL_href cheerio_load world1 t1 file0 docs1 failed1 Hrun1)
    as (st1 & Hloop1 & Hdocs1 & Hfailed1 & Hadd1 & Hindex1 & Hfile1).
  destruct (second_loop BASE_URL URL_href cheerio_load world1 world2 st1 Hsite Hloop1)
    as (st2 & Hloop2 & (_ & _ & Hf & _ & Hids)).
  set (docs2 := CrawlAndIndex.with_fallback BASE_URL t2 (CrawlAndIndex.documents st2)).
  assert (Hids2 : map CrawlAndIndex.d_id docs2 = map CrawlAndIndex.d_id docs1).
  { subst docs1 docs2. symmetry. by apply with_fallback_ids. }
  split; [exact Hfile1|].
  rewrite !(GET_after_loop BASE_URL URL_href cheerio_load world2 t2 _ _ _ st2 Hloop2).
  cbv zeta. fold docs2.
  assert (Hwarm : CrawlAndIndex.addAll docs2
                    (CrawlAndIndex.index_after
                       (CrawlAndIndex.GET BASE_URL URL_href cheerio_load world1 t1
                          CrawlAndIndex.Saved CrawlAndIndex.new_index file0))
                  = (CrawlAndIndex.index_after
                       (CrawlAndIndex.GET BASE_URL URL_href cheerio_load world1 t1
                          CrawlAndIndex.Saved CrawlAndIndex.new_index file0), false)).
  { destruct docs2 as [|d2 rest2] eqn:E2.
    - exfalso. by apply (with_fallback_nonempty BASE_URL t2 (CrawlAndIndex.documents st2)).
    - destruct docs1 as [|d1 rest1]; [discriminate Hids2|].
      injection Hids2 as Hid _.
      apply addAll_first_rejected, (add_duplicate d2 d1); [|done].
      rewrite Hindex1. apply list_elem_of_here. }
  rewrite Hwarm. cbn [CrawlAndIndex.response CrawlAndIndex.index_after CrawlAndIndex.file_after].
  repeat split.
  assert (Hcold : snd (CrawlAndIndex.addAll docs2 CrawlAndIndex.new_index) = true).
  { rewrite <- Hadd1. by apply addAll_same_ids. }
  destruct (CrawlAndIndex.addAll docs2 CrawlAndIndex.new_index) as [ms2 ok].
  cbn [snd] in Hcold. subst ok.
  exists docs2. cbn [CrawlAndIndex.response CrawlAndIndex.file_after].
  rewrite <- Hf, <- Hfailed1. repeat split; [exact Hids2|].
  rewrite <- (length_map CrawlAndIndex.d_id docs2), Hids2. apply length_map.
Qed.

Lemma C8_second_run_keeps_snapshot_count_witness :
  let site := fun _ : string =>
    CrawlAndIndex.mkPageWorld (fun _ => CrawlAndIndex.PageLoads Example.html)
      CrawlAndIndex.FetchThrows "2025-01-01T00:00:00.000Z" in
  let later := fun _ : string =>
    CrawlAndIndex.mkPageWorld (fun _ => CrawlAndIndex.PageLoads Example.html)
      CrawlAndIndex.FetchThrows "2025-01-02T00:00:00.000Z" in
  let GET := CrawlAndIndex.GET "https://example.com/" Example.URL_href Example.cheerio_load in
  let run1 := GET site "2025-01-01T00:00:01.000Z" CrawlAndIndex.Saved CrawlAndIndex.new_index None in
  let warm := GET later "2025-01-02T00:00:01.000Z" CrawlAndIndex.Saved
                (CrawlAndIndex.index_after run1) (CrawlAndIndex.file_after run1) in
  CrawlAndIndex.response warm = CrawlAndIndex.IndexingFailed
  /\ CrawlAndIndex.file_after warm = CrawlAndIndex.file_after run1.
Proof.
  cbv zeta.
  destruct (C8_second_run_keeps_snapshot_count "https://example.com/" Example.URL_href
              Example.cheerio_load
              (fun _ => CrawlAndIndex.mkPageWorld (fun _ => CrawlAndIndex.PageLoads Example.html)
                          CrawlAndIndex.FetchThrows "2025-01-01T00:00:00.000Z")
              (fun _ => CrawlAndIndex.mkPageWorld (fun _ => CrawlAndIndex.PageLoads Example.html)
                          CrawlAndIndex.FetchThrows "2025-01-02T00:00:00.000Z")
              "2025-01-01T00:00:01.000Z" "2025-01-02T00:00:01.000Z" CrawlAndIndex.Saved None
              (CrawlAndIndex.with_fallback "https://example.com/" "2025-01-01T00:00:01.000Z"
                 (match CrawlAndIndex.crawl_loop "https://example.com/" Example.URL_href
                          Example.cheerio_load
                          (fun _ => CrawlAndIndex.mkPageWorld
                                      (fun _ => CrawlAndIndex.PageLoads Example.html)
                                      CrawlAndIndex.FetchThrows "2025-01-01T00:00:00.000Z")
                          CrawlAndIndex.maxCrawl
                          (CrawlAndIndex.mkLoop ∅ ["https://example.com/"] [] [] 0) with
                  | Some st => CrawlAndIndex.documents st
                  | None => []
                  end))
              [])
    as (_ & Hresp & _ & Hfile & _).
  - intros url. split; reflexivity.
  - vm_compute. reflexivity.
  - split; [exact Hresp | exact Hfile].
Defined.

(** * Further properties of the code *)

#[local] Set Warnings "-clear-no-such-hyp".

(** ** Normalised text *)

Section TextFacts.
Import Text.

Lemma collapse_packed (b : bool) (s : string) : packed_from b (JS.collapse_from b s) = true.
Proof.
  revert b. induction s as [|c s IH]; intros b; [done|].
  cbn [JS.collapse_from]. destruct (JS.is_space c) eqn:Hc.
  - destruct b; [apply IH|]. cbn [packed_from].
    change (JS.is_space " ") with true. cbn. apply IH.
  - cbn [packed_from]. rewrite Hc. apply IH.
Qed.

Lemma packed_weaken (b : bool) (s : string) :
  packed_from b s = true -> packed_from false s = true.
Proof.
  destruct s as [|c s]; [done|]. cbn [packed_from].
  destruct (JS.is_space c); [|done]. destruct b; [|done].
  cbn [negb]. by rewrite andb_false_r.
Qed.

Lemma trim_start_packed (b : bool) (s : string) :
  packed_from b s = true -> packed_from true (JS.trim_start s) = true.
Proof.
  revert b. induction s as [|c s IH]; intros b; [done|].
  cbn [packed_from JS.trim_start]. destruct (JS.is_space c) eqn:Hc.
  - intros H. apply andb_true_iff in H as [_ H]. by apply (IH true).
  - intros H. cbn [packed_from]. by rewrite Hc.
Qed.

Lemma trim_end_empty (s : string) : JS.trim_end s = "" <-> JS.all_space s = true.
Proof.
  destruct s as [|c s]; [done|]. cbn [JS.trim_end].
  destruct (JS.all_space (String c s)); split; done.
Qed.

Lemma trim_end_tidy (b : bool) (s : string) :
  packed_from b s = true -> JS.trim_end s = "" \/ tidy_from b (JS.trim_end s) = true.
Proof.
  revert b. induction s as [|c s IH]; intros b; [by left|].
  cbn [JS.trim_end]. destruct (JS.all_space (String c s)) eqn:Hall; [by left|].
  right. cbn [packed_from tidy_from] in *. destruct (JS.is_space c) eqn:Hc.
  - apply andb_true_iff in H as [H1 H2]. rewrite H1. cbn [andb].
    cbn [JS.all_space] in Hall. rewrite Hc in Hall. cbn [andb] in Hall.
    destruct (IH true H2) as [He|Ht]; [|done].
    apply trim_end_empty in He. congruence.
  - destruct (IH false H) as [He|Ht]; [by rewrite He | done].
Qed.

Lemma normalise_tidy (s : string) : tidy (normalise s) = true.
Proof.
  unfold normalise, JS.trim, JS.collapse_spaces.
  pose proof (trim_start_packed false _ (collapse_packed false s)) as Hp.
  destruct (trim_end_tidy true _ Hp) as [He|Ht]; [by rewrite He|].
  unfold tidy. by destruct (JS.trim_end _).
Qed.

Lemma tidy_collapse (b : bool) (s : string) :
  tidy_from b s = true -> JS.collapse_from b s = s.
Proof.
  revert b. induction s as [|c s IH]; intros b; [done|].
  cbn [tidy_from JS.collapse_from]. destruct (JS.is_space c) eqn:Hc.
  - intros H. apply andb_true_iff in H as [H1 H2]. apply andb_true_iff in H1 as [H0 H1].
    apply negb_true_iff in H1. subst b. apply Ascii.eqb_eq in H0. subst c.
    by rewrite (IH true H2).
  - intros H. by rewrite (IH false H).
Qed.

Lemma tidy_not_all_space (b : bool) (s : string) :
  tidy_from b s = true -> s <> "" -> JS.all_space s = false.
Proof.
  revert b. induction s as [|c s IH]; intros b H Hne; [done|].
  cbn [tidy_from JS.all_space] in *. destruct (JS.is_space c); [|done].
  apply andb_true_iff in H as [_ H]. cbn [andb].
  apply (IH true H). intros ->. discriminate H.
Qed.

Lemma tidy_trim_end (b : bool) (s : string) : tidy_from b s = true -> JS.trim_end s = s.
Proof.
  revert b. induction s as [|c s IH]; intros b H; [done|].
  cbn [JS.trim_end]. rewrite (tidy_not_all_space b _ H) by done.
  cbn [tidy_from] in H. destruct (JS.is_space c).
  - apply andb_true_iff in H as [_ H]. by rewrite (IH true H).
  - by rewrite (IH false H).
Qed.

Lemma tidy_fixed (s : string) : tidy s = true -> normalise s = s.
Proof.
  destruct s as [|c s]; [done|]. unfold tidy. intros H.
  assert (Hc : JS.is_space c = false).
  { cbn [tidy_from] in H. destruct (JS.is_space c); [|done].
    cbn [negb] in H. by rewrite andb_false_r in H. }
  unfold normalise, JS.trim, JS.collapse_spaces.
  assert (Hcol : JS.collapse_from false (String c s) = String c s).
  { cbn [JS.collapse_from tidy_from] in *. rewrite Hc in *. by rewrite (tidy_collapse false s H). }
  rewrite Hcol. cbn [JS.trim_start]. rewrite Hc. by apply (tidy_trim_end true).
Qed.

Lemma collapse_length (b : bool) (s : string) :
  (String.length (JS.collapse_from b s) <= String.length s)%nat.
Proof.
  revert b. induction s as [|c s IH]; intros b; [done|].
  cbn [JS.collapse_from]. destruct (JS.is_space c); [destruct b|]; cbn [String.length].
  - specialize (IH true). lia.
  - specialize (IH true). lia.
  - specialize (IH false). lia.
Qed.

Lemma trim_start_length (s : string) : (String.length (JS.trim_start s) <= String.length s)%nat.
Proof.
  induction s as [|c s IH]; [done|]. cbn [JS.trim_start].
  destruct (JS.is_space c); cbn [String.length]; lia.
Qed.

Lemma trim_end_length (s : string) : (String.length (JS.trim_end s) <= String.length s)%nat.
Proof.
  induction s as [|c s IH]; [done|]. cbn [JS.trim_end].
  destruct (JS.all_space (String c s)); cbn [String.length]; lia.
Qed.
End TextFacts.

(** X1: the normalisation [replace(/\s+/g, ' ').trim()] always yields tidy
    text (single spaces between words, none at either end, no other
    white space), leaves tidy text as it is, so applying it twice is
    applying it once, and never makes a text longer. *)
Theorem X1_normalise_is_tidy_and_idempotent (s : string) :
  Text.tidy (Text.normalise s) = true
  /\ Text.normalise (Text.normalise s) = Text.normalise s
  /\ (String.length (Text.normalise s) <= String.length s)%nat
  /\ JS.trim (JS.collapse_spaces s) = Text.normalise s.
Proof.
  split; [apply normalise_tidy|]. split; [apply tidy_fixed, normalise_tidy|].
  split; [|reflexivity].
  unfold Text.normalise, JS.trim, JS.collapse_spaces.
  pose proof (collapse_length false s).
  pose proof (trim_start_length (JS.collapse_from false s)).
  pose proof (trim_end_length (JS.trim_start (JS.collapse_from false s))). lia.
Qed.

(** ** Tag stripping *)

Section StripFacts.
Import CrawlAndIndex.

Lemma strip_has_gt (b : bool) (s : string) :
  has_gt (strip_tags_from b s) = true -> has_gt s = true.
Proof.
  revert b. induction s as [|c s IH]; intros b; [done|].
  cbn [strip_tags_from has_gt]. destruct b.
  - destruct (Ascii.eqb c ">"); cbn [orb]; [done|]. apply IH.
  - destruct (Ascii.eqb c "<" && _ && has_gt s) eqn:Hm.
    + cbn [has_gt]. change (Ascii.eqb " " ">") with false. cbn [orb].
      intros H. apply IH in H. by rewrite H, orb_true_r.
    + cbn [has_gt]. destruct (Ascii.eqb c ">"); cbn [orb]; [done|]. apply IH.
Qed.

(** The first character of the output when no match starts the input. *)
Lemma strip_head_gt (s : string) :
  match s with
  | String d _ => Ascii.eqb d ">" = true
  | EmptyString => True
  end ->
  match strip_tags_from false s with
  | String d _ => negb (Ascii.eqb d ">")
  | EmptyString => false
  end = false.
Proof.
  destruct s as [|d s]; [done|]. intros Hd. cbn [strip_tags_from].
  apply Ascii.eqb_eq in Hd. subst d. change (Ascii.eqb ">" "<") with false.
  cbn [andb]. done.
Qed.

Lemma strip_twice (s : string) :
  strip_tags_from false (strip_tags_from false s) = strip_tags_from false s
  /\ strip_tags_from false (strip_tags_from true s) = strip_tags_from true s.
Proof.
  induction s as [|c s [IH1 IH2]]; [done|]. split.
  - cbn [strip_tags_from].
    destruct (Ascii.eqb c "<" && _ && has_gt s) eqn:Hm.
    + cbn [strip_tags_from]. change (Ascii.eqb " " "<") with false. cbn [andb].
      by rewrite IH2.
    + cbn [strip_tags_from]. rewrite IH1.
      destruct (Ascii.eqb c "<") eqn:Hc; [|done]. cbn [andb] in Hm |- *.
      assert (Hout : match strip_tags_from false s with
                     | String d _ => negb (Ascii.eqb d ">")
                     | EmptyString => false
                     end && has_gt (strip_tags_from false s) = false).
      { apply andb_false_iff in Hm as [Hm|Hm].
        - destruct s as [|d s']; [done|]. apply negb_false_iff in Hm.
          by rewrite (strip_head_gt (String d s') Hm).
        - destruct (has_gt (strip_tags_from false s)) eqn:Hg; [|by rewrite andb_false_r].
          apply strip_has_gt in Hg. congruence. }
      by rewrite Hout.
  - cbn [strip_tags_from]. by destruct (Ascii.eqb c ">").
Qed.

Lemma strip_length (b : bool) (s : string) :
  (String.length (strip_tags_from b s) <= String.length s)%nat.
Proof.
  revert b. induction s as [|c s IH]; intros b; [done|].
  cbn [strip_tags_from]. destruct b.
  - destruct (Ascii.eqb c ">"); cbn [String.length];
      [specialize (IH false) | specialize (IH true)]; lia.
  - destruct (Ascii.eqb c "<" && _ && has_gt s); cbn [String.length];
      [specialize (IH true) | specialize (IH false)]; lia.
Qed.

Lemma strip_no_lt (b : bool) (s : string) :
  JS.includes "<" s = false -> strip_tags_from false s = s.
Proof.
  induction s as [|c s IH]; [done|]. cbn [JS.includes JS.startsWith strip_tags_from].
  destruct (Ascii.eqb "<" c) eqn:Hc; cbn [andb orb]; [done|].
  intros H. rewrite Ascii.eqb_sym, Hc. cbn [andb]. rewrite IH; [done|].
  destruct s; [done|]. exact H.
Qed.
End StripFacts.

(** X2: [html.replace(/<[^>]+>/g, ' ')] leaves no tag behind: stripping
    its own output changes nothing; the output is never longer than the
    input, and a text without [<] is returned as it is. *)
Theorem X2_strip_tags_leaves_no_tag (html : string) :
  CrawlAndIndex.strip_tags (CrawlAndIndex.strip_tags html) = CrawlAndIndex.strip_tags html
  /\ (String.length (CrawlAndIndex.strip_tags html) <= String.length html)%nat
  /\ (JS.includes "<" html = false -> CrawlAndIndex.strip_tags html = html).
Proof.
  split; [apply strip_twice|]. split; [apply strip_length|]. apply (strip_no_lt false).
Qed.

Lemma X2_strip_tags_leaves_no_tag_witness :
  CrawlAndIndex.strip_tags "no markup here" = "no markup here"
  /\ CrawlAndIndex.strip_tags "<p>one</p>" = " one ".
Proof.
  split; [|reflexivity].
  apply (X2_strip_tags_leaves_no_tag "no markup here"). reflexivity.
Defined.

(** ** More on the store adapter ([latest/redis.js]) *)

Section HashFacts.
Import Upstash.

Abbreviation write_entries :=
  (fold_left (fun (m : Hash) (entry : string * string) => <[fst entry := snd entry]> m)).

Lemma toString_inj (a b : Z) : JS.toString a = JS.toString b -> a = b.
Proof.
  intros H. pose proof (parseInt_toString a) as Ha.
  rewrite H, parseInt_toString in Ha. by injection Ha.
Qed.

Lemma toString_nat_digit_first (k : nat) : digit_first (JS.toString (Z.of_nat k)) = true.
Proof.
  destruct (Z.of_nat k) as [|p|p] eqn:E; [reflexivity | | lia].
  cbn [JS.toString]. pose proof (Unsigned.to_uint_nonnil p) as H.
  destruct (Pos.to_uint p); [congruence | reflexivity ..].
Qed.

Lemma entries_from_elem (i : nat) (s : string) (e : string * string) :
  e ∈ entries_from i s ->
  exists k c, String.get k s = Some c
              /\ e = (JS.toString (Z.of_nat (i + k)), String c EmptyString).
Proof.
  revert i. induction s as [|c r IH]; intros i; cbn [entries_from].
  - intros H. by apply elem_of_nil in H.
  - intros H. apply elem_of_cons in H as [->|H].
    + exists 0%nat, c. split; [done|]. by rewrite Nat.add_0_r.
    + apply IH in H as (k & c' & Hg & ->). exists (S k), c'. split; [done|].
      do 3 f_equal. lia.
Qed.

Lemma write_entries_frame (kv : list (string * string)) (h : Hash) (field : string) :
  (forall e, e ∈ kv -> fst e <> field) -> write_entries kv h !! field = h !! field.
Proof.
  revert h. induction kv as [|e kv IH]; intros h Hk; [done|]. cbn [fold_left].
  rewrite IH.
  - cbv beta. rewrite lookup_insert_ne; [done|]. apply Hk, list_elem_of_here.
  - intros e' He'. apply Hk. by apply list_elem_of_further.
Qed.

Lemma write_entries_at (i : nat) (s : string) (h : Hash) (k : nat) (c : ascii) :
  String.get k s = Some c ->
  write_entries (entries_from i s) h !! JS.toString (Z.of_nat (i + k))
  = Some (String c EmptyString).
Proof.
  revert i h k. induction s as [|c0 r IH]; intros i h k Hg; [done|].
  cbn [entries_from fold_left fst snd]. destruct k as [|k].
  - injection Hg as ->. rewrite write_entries_frame.
    + cbv beta. rewrite Nat.add_0_r. apply lookup_insert_eq.
    + intros e He. apply entries_from_elem in He as (k' & c' & _ & ->). cbn [fst].
      intros Heq. apply toString_inj in Heq. lia.
  - cbn [String.get] in Hg. replace (i + S k)%nat with (S i + k)%nat by lia. by apply IH.
Qed.

Lemma write_entries_dom (kv : list (string * string)) (h : Hash) :
  dom h ⊆ dom (write_entries kv h).
Proof.
  revert h. induction kv as [|e kv IH]; intros h; [done|]. cbn [fold_left].
  etrans; [|apply IH]. cbv beta. rewrite dom_insert_L. set_solver.
Qed.

(** The fields [HSET] writes for a string are named by indices: a field
    whose name does not start with a digit is not one of them. *)
Lemma write_entries_other (i : nat) (s : string) (h : Hash) (field : string) :
  digit_first field = false -> write_entries (entries_from i s) h !! field = h !! field.
Proof.
  intros Hf. apply write_entries_frame. intros e He.
  apply entries_from_elem in He as (k & c & _ & ->). cbn [fst]. intros <-.
  by rewrite toString_nat_digit_first in Hf.
Qed.

Lemma get_length (k : nat) (s : string) (c : ascii) :
  String.get k s = Some c -> (k < String.length s)%nat.
Proof.
  revert k. induction s as [|c0 r IH]; intros k; [done|]. destruct k as [|k]; cbn; [lia|].
  intros H. apply IH in H. lia.
Qed.

Lemma markUrlVisited_written (now : Z) (url : string) (st marked : Redis.Store) :
  Redis.markUrlVisited now url st = Some marked ->
  Redis.visited marked = write_entries (Object_entries url) (Redis.visited st).
Proof.
  unfold Redis.markUrlVisited, hset.
  destruct (Object_entries url) as [|e kv]; [done|]. by intros [= <-].
Qed.

Lemma markUrlVisited_other (now : Z) (url : string) (st marked : Redis.Store) (field : string) :
  Redis.markUrlVisited now url st = Some marked ->
  digit_first field = false ->
  Redis.visited marked !! field = Redis.visited st !! field.
Proof.
  intros Hm Hf. rewrite (markUrlVisited_written _ _ _ _ Hm). by apply write_entries_other.
Qed.

Lemma markUrlVisited_dom (now : Z) (url : string) (st marked : Redis.Store) :
  Redis.markUrlVisited now url st = Some marked ->
  dom (Redis.visited st) ⊆ dom (Redis.visited marked).
Proof.
  intros Hm. rewrite (markUrlVisited_written _ _ _ _ Hm). apply write_entries_dom.
Qed.
End HashFacts.

(** X3: [markUrlVisited(url)] does not record the visit under the URL.
    For the empty URL it throws. Otherwise it writes each code unit of
    the URL under the field named by its index, leaves every other field
    of [urls:visited] and every other key as they were, and what it
    writes does not depend on the clock. *)
Theorem X3_markUrlVisited_writes_index_fields (now : Z) (url : string) (st : Redis.Store) :
  (url = "" -> Redis.markUrlVisited now url st = None)
  /\ (url <> "" ->
      exists marked,
        Redis.markUrlVisited now url st = Some marked
        /\ Redis.to_crawl marked = Redis.to_crawl st
        /\ Redis.index marked = Redis.index st
        /\ (forall k c, String.get k url = Some c ->
              Redis.visited marked !! JS.toString (Z.of_nat k) = Some (String c EmptyString))
        /\ (forall field,
              (forall k, (k < String.length url)%nat -> field <> JS.toString (Z.of_nat k)) ->
              Redis.visited marked !! field = Redis.visited st !! field)
        /\ (forall now', Redis.markUrlVisited now' url st = Some marked)).
Proof.
  split; [by intros ->|]. intros Hne.
  destruct (Redis.markUrlVisited now url st) as [marked|] eqn:Hm.
  - exists marked. split; [done|].
    destruct (markUrlVisited_frame now url st marked Hm) as (Hq & Hi & _).
    split; [done|]. split; [done|].
    pose proof (markUrlVisited_written now url st marked Hm) as Hw. split; [|split].
    + intros k c Hg. rewrite Hw. by apply (write_entries_at 0 url _ k c).
    + intros field Hfield. rewrite Hw. apply write_entries_frame. intros e He.
      apply entries_from_elem in He as (k & c & Hg & ->). cbn [fst Nat.add].
      intros Heq. by apply (Hfield k (get_length k url c Hg)).
    + intros now'. by rewrite <- Hm.
  - unfold Redis.markUrlVisited, Upstash.hset in Hm. by destruct url.
Qed.

Lemma X3_markUrlVisited_writes_index_fields_witness :
  exists marked,
    Redis.markUrlVisited 1700000000002 "https://example.com/a" Redis.empty = Some marked
    /\ Redis.visited marked !! "0" = Some "h"
    /\ Redis.visited marked !! "https://example.com/a" = None.
Proof.
  destruct (X3_markUrlVisited_writes_index_fields 1700000000002 "https://example.com/a"
              Redis.empty) as [_ H].
  destruct H as (marked & Hm & _ & _ & Hat & Hother & _); [discriminate|].
  exists marked. split; [exact Hm|]. split.
  - apply (Hat 0%nat "h"%char). reflexivity.
  - rewrite Hother; [reflexivity|]. intros k _ Heq.
    pose proof (toString_nat_digit_first k) as Hd. by rewrite <- Heq in Hd.
Defined.

(** X4: [markUrlVisited] never makes a URL ineligible. For every URL
    that does not start with a digit (an absolute URL starts with its
    scheme), the field [canCrawlUrl] reads is the same before and after
    the call, for the URL that was marked as for any other, and so is
    the answer of [canCrawlUrl] at every instant. *)
Theorem X4_mark_leaves_eligibility_unchanged (JSON_parse : string -> option JSValue)
    (st marked : Redis.Store) (url url' : string) (T now : Z) :
  Redis.markUrlVisited T url st = Some marked ->
  Upstash.digit_first url' = false ->
  Redis.visited marked !! url' = Redis.visited st !! url'
  /\ Redis.canCrawlUrl JSON_parse now url' marked = Redis.canCrawlUrl JSON_parse now url' st.
Proof.
  intros Hm Hd. pose proof (markUrlVisited_other T url st marked url' Hm Hd) as H.
  split; [done|]. by apply canCrawlUrl_frame.
Qed.

Lemma X4_mark_leaves_eligibility_unchanged_witness :
  exists marked,
    Redis.markUrlVisited 1700000000000 "https://example.com/a" Redis.empty = Some marked
    /\ Redis.canCrawlUrl Example.JSON_parse 1700000000001 "https://example.com/a" marked
       = true.
Proof.
  eexists. split; [reflexivity|].
  rewrite (proj2 (X4_mark_leaves_eligibility_unchanged Example.JSON_parse Redis.empty _
                    "https://example.com/a" "https://example.com/a" 1700000000000
                    1700000000001 eq_refl eq_refl)).
  reflexivity.
Defined.

(** X5: eligibility only improves with time: a URL that may be crawled at
    some instant may be crawled at every later one. A field holding
    [null], [false], [0] or the empty text makes the URL eligible at
    every instant (the client hands back a falsy value). A field holding
    a text that is not JSON, is not empty and has no leading number makes
    the URL ineligible at every instant (the comparison with [NaN] is
    false). *)
Theorem X5_canCrawlUrl_monotone_and_unreadable_timestamp
    (JSON_parse : string -> option JSValue)
    (st : Redis.Store) (url text : string) (now later : Z) :
  ((now <= later)%Z -> Redis.canCrawlUrl JSON_parse now url st = true ->
     Redis.canCrawlUrl JSON_parse later url st = true)
  /\ (Redis.visited st !! url = Some text ->
      JSON_parse text = Some JNull \/ JSON_parse text = Some (JBool false)
      \/ (text = "0" /\ JSON_parse text = Some (JNum 0))
      \/ (text = "" /\ JSON_parse text = None) ->
      Redis.canCrawlUrl JSON_parse now url st = true)
  /\ (Redis.visited st !! url = Some text ->
      JSON_parse text = None -> text <> "" -> JS.parseInt text = None ->
      Redis.canCrawlUrl JSON_parse now url st = false).
Proof.
  unfold Redis.canCrawlUrl, Upstash.hget. split; [|split].
  - intros Hle. destruct (Redis.visited st !! url) as [ts|]; [|done].
    cbn [fmap option_fmap option_map].
    destruct (JSValues.falsy (Some (Upstash.parseResponse JSON_parse ts))); [done|].
    destruct (JS.parseInt _) as [last|]; [|done].
    intros H. apply Z.gtb_lt in H. apply Z.gtb_lt. lia.
  - intros -> H. cbn [fmap option_fmap option_map]. unfold Upstash.parseResponse.
    destruct H as [-> | [-> | [[-> ->] | [-> ->]]]]; reflexivity.
  - intros -> Hp Hne Hnan. cbn [fmap option_fmap option_map]. unfold Upstash.parseResponse.
    rewrite Hp. destruct text; [done|]. cbn [JSValues.falsy JSValues.toString].
    by rewrite Hnan.
Qed.

Lemma X5_canCrawlUrl_monotone_and_unreadable_timestamp_witness :
  let st := Redis.mkStore ∅ {["https://example.com/a" := "yesterday";
                              "https://example.com/b" := "null"]} ∅ in
  Redis.canCrawlUrl Example.JSON_parse 1700000000000 "https://example.com/a" st = false
  /\ Redis.canCrawlUrl Example.JSON_parse 1700000000000 "https://example.com/b" st = true
  /\ Redis.canCrawlUrl Example.JSON_parse 1700000000001 "https://example.com/c" st = true.
Proof.
  cbv zeta.
  pose proof (X5_canCrawlUrl_monotone_and_unreadable_timestamp Example.JSON_parse
                (Redis.mkStore ∅ {["https://example.com/a" := "yesterday";
                                   "https://example.com/b" := "null"]} ∅)
                "https://example.com/a" "yesterday" 1700000000000 1700000000001)
    as (_ & _ & Hbad).
  pose proof (X5_canCrawlUrl_monotone_and_unreadable_timestamp Example.JSON_parse
                (Redis.mkStore ∅ {["https://example.com/a" := "yesterday";
                                   "https://example.com/b" := "null"]} ∅)
                "https://example.com/b" "null" 1700000000000 1700000000001)
    as (_ & Hnull & _).
  pose proof (X5_canCrawlUrl_monotone_and_unreadable_timestamp Example.JSON_parse
                (Redis.mkStore ∅ {["https://example.com/a" := "yesterday";
                                   "https://example.com/b" := "null"]} ∅)
                "https://example.com/c" "" 1700000000000 1700000000001)
    as (Hmono & _ & _).
  split; [|split].
  - apply Hbad; [reflexivity | reflexivity | discriminate | reflexivity].
  - apply Hnull; [reflexivity | by left].
  - apply Hmono; [lia | reflexivity].
Defined.

(** X6: [saveToSearchIndex] writes the same thing on both of its
    branches: afterwards the key [index:<uuid>] holds the document and
    every other key is as before. When the key was already there the
    branch is the "update" one, the earlier document is replaced and the
    number of entries does not change. *)
Theorem X6_saveToSearchIndex_writes_the_document
    (uuid crawlId : string) (document old : Redis.Document) (st : Redis.Store) :
  let saved := fst (Redis.saveToSearchIndex uuid crawlId document st) in
  Redis.index saved !! Redis.index_key uuid = Some document
  /\ (forall k, k <> Redis.index_key uuid -> Redis.index saved !! k = Redis.index st !! k)
  /\ Redis.to_crawl saved = Redis.to_crawl st
  /\ Redis.visited saved = Redis.visited st
  /\ (Redis.index st !! Redis.index_key uuid = Some old ->
      snd (Redis.saveToSearchIndex uuid crawlId document st) = Redis.Updating
      /\ size (Redis.index saved) = size (Redis.index st)).
Proof.
  cbv zeta. unfold Redis.saveToSearchIndex.
  destruct (Redis.index st !! Redis.index_key uuid) as [o|] eqn:Hk;
    cbn [fst snd Redis.index Redis.to_crawl Redis.visited].
  - split; [apply lookup_insert_eq|]. split; [intros k Hne; by rewrite lookup_insert_ne|].
    split; [done|]. split; [done|]. intros _. split; [done|].
    apply map_size_insert_Some. by rewrite Hk.
  - split; [apply lookup_insert_eq|]. split; [intros k Hne; by rewrite lookup_insert_ne|].
    split; [done|]. split; [done|]. discriminate.
Qed.

Lemma X6_saveToSearchIndex_writes_the_document_witness :
  let d1 := Redis.mkDocument 1 "Home" "Welcome" "https://example.com/" 1700000000001 in
  let d2 := Redis.mkDocument 1 "Home" "Welcome back" "https://example.com/" 1700000000002 in
  let st := fst (Redis.saveToSearchIndex "9b2f" "crawl-1" d1 Redis.empty) in
  snd (Redis.saveToSearchIndex "9b2f" "crawl-2" d2 st) = Redis.Updating
  /\ size (Redis.index (fst (Redis.saveToSearchIndex "9b2f" "crawl-2" d2 st))) = size (Redis.index st).
Proof.
  cbv zeta.
  apply (X6_saveToSearchIndex_writes_the_document "9b2f" "crawl-2"
           (Redis.mkDocument 1 "Home" "Welcome back" "https://example.com/" 1700000000002)
           (Redis.mkDocument 1 "Home" "Welcome" "https://example.com/" 1700000000001)
           (fst (Redis.saveToSearchIndex "9b2f" "crawl-1"
                   (Redis.mkDocument 1 "Home" "Welcome" "https://example.com/" 1700000000001)
                   Redis.empty))).
  reflexivity.
Defined.

(** ** Seeding the frontier ([initializeUrls]) *)

Section InitFacts.
Import RedisKey.

Lemma sadd_main (mainUrl : string) (k k' : Key) :
  sadd [mainUrl] k = Some k' -> exists s, k' = SetOf s /\ mainUrl ∈ s.
Proof.
  destruct k as [|s|t]; cbn [sadd]; intros [= <-]; eexists; (split; [done|]); set_solver.
Qed.

Lemma try_initialize_done (w : InitWorld) (mainUrl : string) (k k' : Key) :
  try_initialize w mainUrl k = (k', true) -> exists s, k' = SetOf s /\ mainUrl ∈ s.
Proof.
  unfold try_initialize. destruct (type_ok w); cbn [negb]; [|done].
  destruct k as [|s|t]; cbn [not_a_set].
  - destruct (del_ok w); [|done]. destruct (sismember_ok w); cbn [negb sismember]; [|done].
    destruct (sadd_ok w); cbn [negb]; [|done]. cbn [sadd]. intros [= <-].
    eexists. split; [done|]. set_solver.
  - destruct (sismember_ok w); cbn [negb sismember]; [|done].
    case_bool_decide as Hin.
    + intros [= <-]. eauto.
    + destruct (sadd_ok w); cbn [negb]; [|done]. cbn [sadd]. intros [= <-].
      eexists. split; [done|]. set_solver.
  - destruct (del_ok w); [|done]. destruct (sismember_ok w); cbn [negb sismember]; [|done].
    destruct (sadd_ok w); cbn [negb]; [|done]. cbn [sadd]. intros [= <-].
    eexists. split; [done|]. set_solver.
Qed.

Lemma initializeUrls_returns_set (w : InitWorld) (mainUrl : string) (k k' : Key) :
  initializeUrls w mainUrl k = (k', true) -> exists s, k' = SetOf s /\ mainUrl ∈ s.
Proof.
  unfold initializeUrls.
  destruct (try_initialize w mainUrl k) as [k1 [|]] eqn:Htry.
  - intros [= <-]. by eapply try_initialize_done.
  - destruct (fallback_ok w); cbn [negb]; [|done].
    destruct (sadd [mainUrl] k1) as [k2|] eqn:Hadd; [|done].
    intros [= <-]. by eapply sadd_main.
Qed.

(** The [try] block leaves a key of another type in place only when
    [TYPE] or [DEL] did not go through. *)
Lemma try_initialize_wrong_type (w : InitWorld) (mainUrl : string) (k k' : Key) (ok : bool)
    (t : string) :
  try_initialize w mainUrl k = (k', ok) -> k' = Other t ->
  k = Other t /\ ok = false /\ (type_ok w = false \/ del_ok w = false).
Proof.
  unfold try_initialize. destruct (type_ok w); cbn [negb].
  2: { intros [= <- <-] ->. auto. }
  destruct k as [|s|t']; cbn [not_a_set].
  - destruct (del_ok w); [|by intros [= <- <-]].
    destruct (sismember_ok w); cbn [negb sismember]; [|by intros [= <- <-]].
    destruct (sadd_ok w); cbn [negb sadd]; by intros [= <- <-].
  - destruct (sismember_ok w); cbn [negb sismember]; [|by intros [= <- <-]].
    case_bool_decide; [by intros [= <- <-]|].
    destruct (sadd_ok w); cbn [negb sadd]; by intros [= <- <-].
  - destruct (del_ok w).
    + destruct (sismember_ok w); cbn [negb sismember]; [|by intros [= <- <-]].
      destruct (sadd_ok w); cbn [negb sadd]; by intros [= <- <-].
    + intros [= <- <-] [= ->]. auto.
Qed.
End InitFacts.

(** X7: when every command reaches the store, [initializeUrls] leaves
    [urls:to_crawl] a set that holds the main URL: the members of a set
    that was there are all kept, a key of another type (or no key) is
    replaced by the set of the main URL alone. Calling it again changes
    nothing. *)
Theorem X7_initializeUrls_seeds_the_frontier (mainUrl : string) (k : RedisKey.Key) :
  (exists s, RedisKey.initializeUrls RedisKey.all_up mainUrl k = (RedisKey.SetOf s, true)
             /\ forall u, u ∈ s <-> u = mainUrl \/ exists old, k = RedisKey.SetOf old /\ u ∈ old)
  /\ RedisKey.initializeUrls RedisKey.all_up mainUrl
       (fst (RedisKey.initializeUrls RedisKey.all_up mainUrl k))
     = RedisKey.initializeUrls RedisKey.all_up mainUrl k.
Proof.
  unfold RedisKey.initializeUrls, RedisKey.try_initialize.
  cbn [RedisKey.all_up RedisKey.type_ok RedisKey.del_ok RedisKey.sismember_ok
       RedisKey.sadd_ok RedisKey.fallback_ok negb].
  destruct k as [|s|t]; cbn [RedisKey.not_a_set RedisKey.sismember RedisKey.sadd].
  - split.
    + eexists. split; [done|]. intros u. split.
      * intros Hu. left. set_solver.
      * intros [->|(old & [=] & _)]. set_solver.
    + cbn [fst RedisKey.not_a_set RedisKey.sismember].
      rewrite bool_decide_eq_true_2 by set_solver. done.
  - case_bool_decide as Hin.
    + split.
      * exists s. split; [done|]. intros u. split; [eauto|].
        intros [->|(old & [= <-] & Hu)]; done.
      * cbn [fst RedisKey.not_a_set RedisKey.sismember].
        by rewrite bool_decide_eq_true_2.
    + split.
      * eexists. split; [done|]. intros u. split.
        -- intros Hu. apply elem_of_union in Hu as [Hu|Hu]; [eauto|]. left. set_solver.
        -- intros [->|(old & [= <-] & Hu)]; set_solver.
      * cbn [fst RedisKey.not_a_set RedisKey.sismember].
        rewrite bool_decide_eq_true_2 by set_solver. done.
  - split.
    + eexists. split; [done|]. intros u. split.
      * intros Hu. left. set_solver.
      * intros [->|(old & [=] & _)]. set_solver.
    + cbn [fst RedisKey.not_a_set RedisKey.sismember].
      rewrite bool_decide_eq_true_2 by set_solver. done.
Qed.

(** X8: whenever [initializeUrls] returns, by its [try] or by the [SADD]
    of its [catch], [urls:to_crawl] is a set that holds the main URL. It
    throws only when the [SADD] of the [catch] does not go through, or
    when that [SADD] meets a key of another type that the [try] could not
    delete ([TYPE] or [DEL] failed): the key is then left as it was. *)
Theorem X8_initializeUrls_outcomes (w : RedisKey.InitWorld) (mainUrl : string)
    (k k' : RedisKey.Key) :
  (RedisKey.initializeUrls w mainUrl k = (k', true) ->
     exists s, k' = RedisKey.SetOf s /\ mainUrl ∈ s)
  /\ (RedisKey.initializeUrls w mainUrl k = (k', false) ->
      RedisKey.fallback_ok w = false
      \/ exists t, k = RedisKey.Other t /\ k' = k
                   /\ (RedisKey.type_ok w = false \/ RedisKey.del_ok w = false)).
Proof.
  split; [apply initializeUrls_returns_set|].
  unfold RedisKey.initializeUrls.
  destruct (RedisKey.try_initialize w mainUrl k) as [k1 ok] eqn:Htry.
  destruct ok; [done|].
  destruct (RedisKey.fallback_ok w); cbn [negb]; [|by left].
  destruct k1 as [|s|t]; cbn [RedisKey.sadd]; try done.
  intros [= <-]. right. exists t.
  destruct (try_initialize_wrong_type w mainUrl k (RedisKey.Other t) false t Htry eq_refl)
    as (-> & _ & Hwhy).
  done.
Qed.

Lemma X8_initializeUrls_outcomes_witness :
  let down := RedisKey.mkInitWorld false true true true true in
  (exists s, fst (RedisKey.initializeUrls down "https://example.com" RedisKey.Absent)
             = RedisKey.SetOf s /\ "https://example.com" ∈ s)
  /\ RedisKey.initializeUrls down "https://example.com" (RedisKey.Other "string")
     = (RedisKey.Other "string", false).
Proof.
  cbv zeta. split; [|reflexivity].
  apply (X8_initializeUrls_outcomes (RedisKey.mkInitWorld false true true true true)
           "https://example.com" RedisKey.Absent).
  reflexivity.
Defined.

(** ** More on the crawl task ([latest/crawl.js]) *)

Section TaskFacts.
Import Redis Crawl.
Variable JSON_parse : string -> option JSValue.
Variable URL_href : string -> string -> option string.

Abbreviation task := (crawlTask JSON_parse URL_href).
Abbreviation enqueue := (fold_left (fun s link => addUrlsToCrawl [link] s)).

Lemma enqueue_links_to_crawl (found : list string) (st : Store) :
  to_crawl (enqueue found st) = to_crawl st ∪ list_to_set found.
Proof.
  revert st. induction found as [|l found IH]; intros st; cbn [fold_left].
  - set_solver.
  - rewrite IH. unfold addUrlsToCrawl. cbn [to_crawl]. set_solver.
Qed.

(** The ways a task ends: before its call of [markUrlVisited], with the
    store as it was; at that call, which throws, with the document
    stored; or after it, with the links added to the frontier. *)
Lemma crawlTask_cases (origin : string) (id : Z) (crawlId url : string)
    (w : TaskWorld) (st : Store) :
  (reaches_mark JSON_parse url w st = false
   /\ task origin id crawlId url w st
      = (st, if canCrawlUrl JSON_parse (t_check w) url st then Failed else Skipped))
  \/ (exists page,
        reaches_mark JSON_parse url w st = true /\ nav w = Some page
        /\ let document :=
             mkDocument id (JS.or_else (JS.trim (r_title page)) url)
               (Text.normalise (r_text page)) url (t_doc w) in
           let links := extract_links URL_href origin url (r_hrefs page) in
           let saved := <[index_key (uuid w) := document]> (index st) in
           ((if mark_ok w then markUrlVisited (t_mark w) url st else None) = None
            /\ task origin id crawlId url w st
               = (mkStore (to_crawl st) (visited st) saved, Failed))
           \/ (exists marked,
                 mark_ok w = true /\ markUrlVisited (t_mark w) url st = Some marked
                 /\ task origin id crawlId url w st
                    = (mkStore (to_crawl st ∪ list_to_set links) (visited marked) saved,
                       Crawled links))).
Proof.
  rewrite (surjective_pairing (task origin id crawlId url w st)).
  destruct (reaches_mark JSON_parse url w st) eqn:Hr.
  - right. unfold reaches_mark in Hr. unfold crawlTask.
    destruct (canCrawlUrl JSON_parse (t_check w) url st); cbn [negb andb] in *; [|done].
    destruct (nav w) as [page|]; cbn [andb] in Hr; [|done].
    destruct (save_ok w); [|done].
    exists page. split; [done|]. split; [done|]. cbv zeta.
    set (document := mkDocument id _ _ url (t_doc w)).
    assert (Hst1 : fst (saveToSearchIndex (uuid w) crawlId document st)
                   = mkStore (to_crawl st) (visited st)
                       (<[index_key (uuid w) := document]> (index st))).
    { unfold saveToSearchIndex. by destruct (index st !! index_key (uuid w)). }
    rewrite Hst1. unfold markUrlVisited. cbn [visited to_crawl index].
    destruct (mark_ok w); [|by left].
    destruct (Upstash.hset (Upstash.Object_entries url) (visited st)) as [h|]; [|by left].
    right. eexists. split; [done|]. split; [done|]. cbn [fst snd visited].
    set (st2 := mkStore (to_crawl st) h _).
    pose proof (enqueue_links_to_crawl (extract_links URL_href origin url (r_hrefs page)) st2)
      as Hq.
    pose proof (enqueue_links_visited (extract_links URL_href origin url (r_hrefs page)) st2)
      as Hv.
    pose proof (enqueue_links_index (extract_links URL_href origin url (r_hrefs page)) st2)
      as Hi.
    destruct (enqueue _ st2) as [q v i]. cbn [to_crawl visited index] in *. by subst.
  - left. split; [done|]. rewrite (crawlTask_unreached JSON_parse URL_href _ _ _ _ _ _ Hr).
    done.
Qed.

(** A task writes to no field of [urls:visited] whose name does not start
    with a digit. *)
Lemma crawlTask_field_kept (origin : string) (id : Z) (crawlId url : string)
    (w : TaskWorld) (st : Store) (field : string) :
  Upstash.digit_first field = false ->
  visited (fst (task origin id crawlId url w st)) !! field = visited st !! field.
Proof.
  intros Hf. rewrite crawlTask_visited. destruct (reaches_mark JSON_parse url w st); [|done].
  destruct (mark_ok w); [|done].
  destruct (markUrlVisited (t_mark w) url st) as [marked|] eqn:Hm; [|done].
  by eapply markUrlVisited_other.
Qed.

Lemma crawlTask_grows (origin : string) (id : Z) (crawlId url : string)
    (w : TaskWorld) (st : Store) :
  let st' := fst (task origin id crawlId url w st) in
  to_crawl st ⊆ to_crawl st'
  /\ dom (visited st) ⊆ dom (visited st')
  /\ dom (index st) ⊆ dom (index st').
Proof.
  cbv zeta.
  destruct (crawlTask_cases origin id crawlId url w st)
    as [[_ ->]|(page & _ & _ & [[_ ->]|(marked & _ & Hm & ->)])];
    cbn [fst to_crawl visited index]; [done| |].
  - rewrite dom_insert_L. set_solver.
  - pose proof (markUrlVisited_dom _ _ _ _ Hm). rewrite dom_insert_L. set_solver.
Qed.

Abbreviation batch_fold origin crawlId world :=
  (fold_left (crawlOne JSON_parse URL_href origin 1 crawlId world)).

Lemma crawlOne_cases (origin : string) (id : Z) (crawlId : string)
    (world : string -> TaskWorld) (st : Store) (acc : list string) (url : string) :
  crawlOne JSON_parse URL_href origin id crawlId world (st, acc) url
  = (fst (task origin id crawlId url (world url) st),
     match snd (task origin id crawlId url (world url) st) with
     | Crawled _ => (acc ++ [url])%list
     | _ => acc
     end).
Proof.
  unfold crawlOne. cbn [fst snd].
  by destruct (task origin id crawlId url (world url) st) as [s' [| |links]].
Qed.

(** What a batch leaves: nothing is removed, and no field of
    [urls:visited] whose name does not start with a digit is written. *)
Lemma batch_fold_frame (origin crawlId : string) (world : string -> TaskWorld)
    (l : list string) (st : Store) (acc : list string) :
  let r := batch_fold origin crawlId world l (st, acc) in
  (forall field, Upstash.digit_first field = false ->
     visited (fst r) !! field = visited st !! field)
  /\ to_crawl st ⊆ to_crawl (fst r)
  /\ dom (visited st) ⊆ dom (visited (fst r))
  /\ dom (index st) ⊆ dom (index (fst r)).
Proof.
  cbv zeta. revert st acc. induction l as [|u l IH]; intros st acc; cbn [fold_left].
  - done.
  - rewrite crawlOne_cases.
    set (st1 := fst (task origin 1 crawlId u (world u) st)).
    destruct (IH st1 (match snd (task origin 1 crawlId u (world u) st) with
                      | Crawled _ => (acc ++ [u])%list
                      | _ => acc
                      end)) as (Hout & Hq & Hv & Hi).
    destruct (crawlTask_grows origin 1 crawlId u (world u) st) as (Hq1 & Hv1 & Hi1).
    fold st1 in Hq1, Hv1, Hi1.
    split; [|split; [|split]].
    + intros field Hf. rewrite (Hout field Hf). subst st1. by apply crawlTask_field_kept.
    + set_solver.
    + set_solver.
    + set_solver.
Qed.

(** The URLs a batch over distinct URLs reports crawled are some of the
    batch, each once and in the order of the batch. *)
Lemma batch_fold_crawled (origin crawlId : string) (world : string -> TaskWorld)
    (l : list string) (st : Store) (acc : list string) :
  NoDup l ->
  exists extra,
    snd (batch_fold origin crawlId world l (st, acc)) = (acc ++ extra)%list
    /\ NoDup extra /\ (length extra <= length l)%nat
    /\ forall u, u ∈ extra -> u ∈ l.
Proof.
  revert st acc. induction l as [|u l IH]; intros st acc Hnd; cbn [fold_left].
  - exists []. rewrite app_nil_r.
    split; [done|]. split; [constructor|]. split; [done|]. done.
  - apply NoDup_cons in Hnd as [Hu Hnd]. rewrite crawlOne_cases.
    set (st1 := fst (task origin 1 crawlId u (world u) st)).
    destruct (snd (task origin 1 crawlId u (world u) st)) as [| |links].
    1,2: destruct (IH st1 acc Hnd) as (extra & Hsnd & Hnde & Hlen & Hex);
         exists extra; (split; [done|]); (split; [done|]); (split; [cbn; lia|]);
         intros v Hv'; by apply list_elem_of_further, Hex.
    destruct (IH st1 (acc ++ [u])%list Hnd) as (extra & Hsnd & Hnde & Hlen & Hex).
    exists (u :: extra). rewrite Hsnd, <- app_assoc. split; [done|].
    split; [apply NoDup_cons; split; [|done]; intros Hin; by apply Hex in Hin|].
    split; [cbn; lia|].
    intros v Hv'. apply elem_of_cons in Hv' as [->|Hv'];
      [apply list_elem_of_here | by apply list_elem_of_further, Hex].
Qed.
End TaskFacts.

Lemma take_NoDup {A} (n : nat) (l : list A) : NoDup l -> NoDup (take n l).
Proof. intros H. eapply sublist_NoDup; [exact H | apply sublist_take]. Qed.

Lemma take_elem {A} (n : nat) (l : list A) (x : A) : x ∈ take n l -> x ∈ l.
Proof. intros H. eapply elem_of_sublist; [exact H | apply sublist_take]. Qed.

(** X9: a crawled URL stays eligible. For a URL that does not start with
    a digit, a task leaves the answer of [canCrawlUrl] for that URL as it
    was, at every instant, whether the task crawled the URL or not. A
    URL with no field of its own in [urls:visited] is therefore never
    skipped, by the next task as by any later one, also after a batch has
    run in between: the revisit window does not open. *)
Theorem X9_crawled_url_stays_eligible
    (JSON_parse : string -> option JSValue)
    (URL_href : string -> string -> option string) (origin : string) (id : Z)
    (crawlId url : string) (w w' : Crawl.TaskWorld) (st : Redis.Store) :
  Upstash.digit_first url = false ->
  let st1 := fst (Crawl.crawlTask JSON_parse URL_href origin id crawlId url w st) in
  (forall now, Redis.canCrawlUrl JSON_parse now url st1 = Redis.canCrawlUrl JSON_parse now url st)
  /\ (Redis.visited st !! url = None ->
      snd (Crawl.crawlTask JSON_parse URL_href origin id crawlId url w' st1) <> Crawl.Skipped
      /\ forall others world batchId,
           let st2 := fst (Crawl.crawlBatch JSON_parse URL_href origin batchId others world
                             st1) in
           snd (Crawl.crawlTask JSON_parse URL_href origin id crawlId url w' st2)
           <> Crawl.Skipped).
Proof.
  intros Hd. cbv zeta.
  pose proof (crawlTask_field_kept JSON_parse URL_href origin id crawlId url w st url Hd) as Hk.
  split; [intros now; by apply canCrawlUrl_frame|].
  intros Hnone.
  assert (Hrun : forall st', Redis.visited st' !! url = None ->
            snd (Crawl.crawlTask JSON_parse URL_href origin id crawlId url w' st')
            <> Crawl.Skipped).
  { intros st' Hst'. unfold Crawl.crawlTask.
    rewrite (canCrawlUrl_absent JSON_parse st' url _ Hst'). cbn [negb].
    destruct (Crawl.nav w'); [|done]. destruct (Crawl.save_ok w'); [|done].
    by destruct (if Crawl.mark_ok w' then _ else _). }
  split; [apply Hrun; by rewrite Hk|].
  intros others world batchId. cbv zeta. apply Hrun. unfold Crawl.crawlBatch.
  destruct (batch_fold_frame JSON_parse URL_href origin batchId world
              (take Crawl.batchSize others)
              (fst (Crawl.crawlTask JSON_parse URL_href origin id crawlId url w st)) [])
    as (Hout & _).
  rewrite (Hout url Hd). by rewrite Hk.
Qed.

Lemma X9_crawled_url_stays_eligible_witness :
  let page := Crawl.mkRendered "Home" "Welcome" [] in
  let first := Crawl.mkTaskWorld 1700000000000 (Some page) 1700000000001 "9b2f" true
                 1700000000002 true in
  let again := Crawl.mkTaskWorld 1700003600000 (Some page) 1700003600001 "77aa" true
                 1700003600002 true in
  let st1 := fst (Crawl.crawlTask Example.JSON_parse (fun _ _ => None) "https://example.com" 1
                    "crawl-1" "https://example.com/a" first Redis.empty) in
  Redis.canCrawlUrl Example.JSON_parse 1700003600000 "https://example.com/a" st1 = true
  /\ snd (Crawl.crawlTask Example.JSON_parse (fun _ _ => None) "https://example.com" 1
            "crawl-2" "https://example.com/a" again st1) = Crawl.Crawled [].
Proof.
  cbv zeta. split; [|vm_compute; reflexivity].
  rewrite (proj1 (X9_crawled_url_stays_eligible Example.JSON_parse (fun _ _ => None)
                    "https://example.com" 1 "crawl-1" "https://example.com/a"
                    (Crawl.mkTaskWorld 1700000000000
                       (Some (Crawl.mkRendered "Home" "Welcome" []))
                       1700000000001 "9b2f" true 1700000000002 true)
                    (Crawl.mkTaskWorld 1700003600000
                       (Some (Crawl.mkRendered "Home" "Welcome" []))
                       1700003600001 "77aa" true 1700003600002 true)
                    Redis.empty eq_refl)).
  reflexivity.
Defined.



(** X11: the document a task stores under [index:<uuid>], once the page
    was fetched and the write went through, has the task's URL, the [id]
    of [POST] and the clock of its creation; its content is tidy text;
    its title is the trimmed page title, or the URL when the page title
    is empty or blank, so it is never empty for a non-empty URL. *)
Theorem X11_stored_document
    (JSON_parse : string -> option JSValue)
    (URL_href : string -> string -> option string) (origin : string) (id : Z)
    (crawlId url : string) (w : Crawl.TaskWorld) (st : Redis.Store) :
  Crawl.reaches_mark JSON_parse url w st = true ->
  exists page d,
    Crawl.nav w = Some page
    /\ Redis.index (fst (Crawl.crawlTask JSON_parse URL_href origin id crawlId url w st))
         !! Redis.index_key (Crawl.uuid w) = Some d
    /\ Redis.doc_id d = id /\ Redis.doc_url d = url /\ Redis.doc_timestamp d = Crawl.t_doc w
    /\ Redis.doc_content d = Text.normalise (Crawl.r_text page)
    /\ Text.tidy (Redis.doc_content d) = true
    /\ (JS.trim (Crawl.r_title page) = "" -> Redis.doc_title d = url)
    /\ (JS.trim (Crawl.r_title page) <> "" -> Redis.doc_title d = JS.trim (Crawl.r_title page))
    /\ (url <> "" -> Redis.doc_title d <> "").
Proof.
  intros Hr.
  destruct (crawlTask_cases JSON_parse URL_href origin id crawlId url w st)
    as [[Hf _]|(page & _ & Hn & Hrun)]; [congruence|].
  cbv zeta in Hrun.
  assert (Hidx : Redis.index (fst (Crawl.crawlTask JSON_parse URL_href origin id crawlId url
                                     w st))
                 = <[Redis.index_key (Crawl.uuid w) :=
                       Redis.mkDocument id (JS.or_else (JS.trim (Crawl.r_title page)) url)
                         (Text.normalise (Crawl.r_text page)) url (Crawl.t_doc w)]>
                     (Redis.index st)).
  { by destruct Hrun as [[_ ->]|(marked & _ & _ & ->)]. }
  eexists page, _. rewrite Hidx. split; [done|]. split; [apply lookup_insert_eq|].
  cbn [Redis.doc_id Redis.doc_url Redis.doc_timestamp Redis.doc_content Redis.doc_title].
  repeat (split; [done|]). split; [apply normalise_tidy|].
  unfold JS.or_else. destruct (JS.trim (Crawl.r_title page)) as [|c t]; cbn [JS.falsy]; done.
Qed.

Lemma X11_stored_document_witness :
  let page := Crawl.mkRendered (String "160" " ")
                (String "010" (String "160" "  Welcome   home ")) [] in
  let w := Crawl.mkTaskWorld 1700000000000 (Some page) 1700000000001 "9b2f" true
             1700000000002 true in
  exists d,
    Redis.index (fst (Crawl.crawlTask Example.JSON_parse (fun _ _ => None)
                        "https://example.com" 1 "crawl-1" "https://example.com/a" w
                        Redis.empty))
      !! Redis.index_key "9b2f" = Some d
    /\ Redis.doc_title d = "https://example.com/a"
    /\ Redis.doc_content d = "Welcome home".
Proof.
  cbv zeta.
  destruct (X11_stored_document Example.JSON_parse (fun _ _ => None) "https://example.com" 1
              "crawl-1" "https://example.com/a"
              (Crawl.mkTaskWorld 1700000000000
                 (Some (Crawl.mkRendered (String "160" " ")
                          (String "010" (String "160" "  Welcome   home ")) []))
                 1700000000001 "9b2f" true 1700000000002 true) Redis.empty)
    as (page & d & Hn & Hd & _ & _ & _ & Hc & _ & Ht & _); [reflexivity|].
  exists d. injection Hn as <-. split; [exact Hd|]. split; [by apply Ht|]. exact Hc.
Defined.

Lemma crawlBatch_only_adds
    (JSON_parse : string -> option JSValue)
    (URL_href : string -> string -> option string) (origin crawlId : string)
    (urls : list string) (world : string -> Crawl.TaskWorld) (st : Redis.Store) :
  NoDup urls ->
  let run := Crawl.crawlBatch JSON_parse URL_href origin crawlId urls world st in
  Redis.to_crawl st ⊆ Redis.to_crawl (fst run)
  /\ dom (Redis.visited st) ⊆ dom (Redis.visited (fst run))
  /\ dom (Redis.index st) ⊆ dom (Redis.index (fst run))
  /\ (forall field, Upstash.digit_first field = false ->
        Redis.visited (fst run) !! field = Redis.visited st !! field)
  /\ (length (snd run) <= 20)%nat
  /\ NoDup (snd run)
  /\ forall u, u ∈ snd run -> u ∈ take 20 urls.
Proof.
  intros Hnd. cbv zeta. unfold Crawl.crawlBatch.
  destruct (batch_fold_frame JSON_parse URL_href origin crawlId world
              (take Crawl.batchSize urls) st []) as (Hout & Hq & Hv & Hi).
  destruct (batch_fold_crawled JSON_parse URL_href origin crawlId world
              (take Crawl.batchSize urls) st [] (take_NoDup _ _ Hnd))
    as (extra & Hsnd & Hnde & Hlen & Hex).
  cbn [app] in Hsnd. rewrite Hsnd.
  repeat (split; [done|]). split; [|done].
  rewrite length_take in Hlen. unfold Crawl.batchSize in Hlen. lia.
Qed.

(** X12: a batch never deletes: every URL of the frontier, every field
    of [urls:visited] and every stored document key is still there after
    it; the fields of [urls:visited] whose name does not start with a
    digit, those named by an absolute URL among them, hold what they
    held; and the batch reports at most 20 crawled URLs, each once, all
    among the first 20 it was given. *)
Theorem X12_batch_only_adds
    (JSON_parse : string -> option JSValue)
    (URL_href : string -> string -> option string) (origin crawlId : string)
    (urls : list string) (world : string -> Crawl.TaskWorld) (st : Redis.Store) :
  NoDup urls ->
  let run := Crawl.crawlBatch JSON_parse URL_href origin crawlId urls world st in
  Redis.to_crawl st ⊆ Redis.to_crawl (fst run)
  /\ dom (Redis.visited st) ⊆ dom (Redis.visited (fst run))
  /\ dom (Redis.index st) ⊆ dom (Redis.index (fst run))
  /\ (forall field, Upstash.digit_first field = false ->
        Redis.visited (fst run) !! field = Redis.visited st !! field)
  /\ (length (snd run) <= 20)%nat
  /\ NoDup (snd run)
  /\ forall u, u ∈ snd run -> u ∈ take 20 urls.
Proof. apply crawlBatch_only_adds.
Qed.

Lemma X12_batch_only_adds_witness :
  let page := Crawl.mkRendered "Home" "Welcome" [] in
  let world := fun _ : string =>
    Crawl.mkTaskWorld 1700000000000 (Some page) 1700000000001 "9b2f" true 1700000000002 true in
  (length (snd (Crawl.crawlBatch Example.JSON_parse (fun _ _ => None) "https://example.com"
                  "crawl-1" ["https://example.com/a"; "https://example.com/b"] world
                  Redis.empty)) <= 20)%nat.
Proof.
  cbv zeta.
  apply (X12_batch_only_adds Example.JSON_parse (fun _ _ => None) "https://example.com"
           "crawl-1" ["https://example.com/a"; "https://example.com/b"]
           (fun _ => Crawl.mkTaskWorld 1700000000000
                       (Some (Crawl.mkRendered "Home" "Welcome" []))
                       1700000000001 "9b2f" true 1700000000002 true)
           Redis.empty).
  apply NoDup_cons. split; [|apply NoDup_singleton].
  intros H. apply list_elem_of_singleton in H. discriminate H.
Defined.

(** ** The crawl invocation ([POST] of [latest/crawl.js]) *)

Section PostFacts.
Import Redis Crawl RedisKey Post.
Variable JSON_parse : string -> option JSValue.
Variable URL_href : string -> string -> option string.

(** After a normal return of [initializeUrls] the list of URLs to crawl
    is not empty. *)
Lemma seeded_frontier_nonempty (s : gset string) (mainUrl : string) :
  mainUrl ∈ s -> (length (elements s) =? 0)%nat = false.
Proof.
  intros Hin. apply Nat.eqb_neq. apply elem_of_elements in Hin.
  destruct (elements s); [by apply elem_of_nil in Hin | done].
Qed.

(** The response of [POST] and the keys it leaves, once the frontier has
    been seeded. *)
Lemma POST_cases (w : World) (ks : Keyspace) :
  (fst (POST JSON_parse URL_href w ks) = FailedToCrawl)
  \/ (exists origin s,
        origin_of_main w = Some origin
        /\ initializeUrls (init w) (strip_trailing_slash MAIN_URL) (frontier ks)
           = (SetOf s, true)
        /\ strip_trailing_slash MAIN_URL ∈ s
        /\ let run := crawlBatch JSON_parse URL_href origin (crawlId w) (elements s)
                        (task_world w) (mkStore s (visited_hash ks) (index_keys ks)) in
           POST JSON_parse URL_href w ks
           = (CrawlComplete (crawlId w) (length (snd run)) (snd run),
              mkKeyspace (SetOf (to_crawl (fst run))) (Redis.visited (fst run))
                (index (fst run)))).
Proof.
  unfold POST. destruct (origin_of_main w) as [origin|]; [|by left].
  destruct (initializeUrls (init w) (strip_trailing_slash MAIN_URL) (frontier ks))
    as [k [|]] eqn:Hinit; [|by left].
  destruct (initializeUrls_returns_set _ _ _ _ Hinit) as (s & -> & Hmain).
  destruct (smembers_ok w); [|by left]. cbn [smembers].
  rewrite (seeded_frontier_nonempty s _ Hmain).
  destruct (executable_found w); cbn [negb]; [|by left].
  destruct (launch_ok w); cbn [negb]; [|by left].
  right. exists origin, s. split; [done|]. split; [done|]. split; [done|]. cbv zeta.
  by destruct (crawlBatch _ _ _ _ _ _ _).
Qed.
End PostFacts.

(** X13: [POST] never answers 400 "No URLs to crawl": when
    [initializeUrls] has returned, the frontier holds the main URL, so the
    list read back is not empty. The response is the 500 one or the
    completion report. *)
Theorem X13_POST_never_answers_no_urls
    (JSON_parse : string -> option JSValue)
    (URL_href : string -> string -> option string) (w : Post.World) (ks : Post.Keyspace) :
  fst (Post.POST JSON_parse URL_href w ks) = Post.FailedToCrawl
  \/ exists pagesCrawled crawledUrls,
       fst (Post.POST JSON_parse URL_href w ks)
       = Post.CrawlComplete (Post.crawlId w) pagesCrawled crawledUrls.
Proof.
  destruct (POST_cases JSON_parse URL_href w ks) as [H|(origin & s & _ & _ & _ & H)];
    [by left|].
  right. cbv zeta in H. rewrite H. cbn [fst]. eauto.
Qed.

(** X14: when [POST] reports completion, [pagesCrawled] is the length of
    [crawledUrls] and at most 20, and the reported URLs are distinct; the
    frontier is a set that still holds the main URL and every URL it held
    before; no field of [urls:visited] and no stored document has been
    removed, and the fields of [urls:visited] whose name does not start
    with a digit hold what they held. *)
Theorem X14_POST_completion_report
    (JSON_parse : string -> option JSValue)
    (URL_href : string -> string -> option string) (w : Post.World) (ks ks' : Post.Keyspace)
    (id : string) (pagesCrawled : nat) (crawledUrls : list string) :
  Post.POST JSON_parse URL_href w ks = (Post.CrawlComplete id pagesCrawled crawledUrls, ks') ->
  id = Post.crawlId w
  /\ pagesCrawled = length crawledUrls
  /\ (pagesCrawled <= 20)%nat
  /\ NoDup crawledUrls
  /\ (exists s,
        Post.frontier ks' = RedisKey.SetOf s
        /\ Post.strip_trailing_slash Crawl.MAIN_URL ∈ s
        /\ forall old, Post.frontier ks = RedisKey.SetOf old -> old ⊆ s)
  /\ dom (Post.visited_hash ks) ⊆ dom (Post.visited_hash ks')
  /\ dom (Post.index_keys ks) ⊆ dom (Post.index_keys ks')
  /\ (forall field, Upstash.digit_first field = false ->
        Post.visited_hash ks' !! field = Post.visited_hash ks !! field).
Proof.
  intros HP.
  destruct (POST_cases JSON_parse URL_href w ks) as [H|(origin & s & _ & Hinit & Hmain & H)];
    [by rewrite HP in H|].
  cbv zeta in H. rewrite HP in H. injection H as -> -> -> ->.
  destruct (crawlBatch_only_adds JSON_parse URL_href origin (Post.crawlId w) (elements s)
              (Post.task_world w)
              (Redis.mkStore s (Post.visited_hash ks) (Post.index_keys ks)) (NoDup_elements s))
    as (Hq & Hv & Hi & Hout & Hlen & Hnd & Hex).
  cbn [Redis.to_crawl Redis.visited Redis.index] in *.
  split; [done|]. split; [done|]. split; [done|]. split; [done|].
  split; [|done]. eexists. cbn [Post.frontier Post.visited_hash]. split; [done|].
  split; [set_solver|].
  intros old Hold. rewrite Hold in Hinit.
  assert (old ⊆ s); [|set_solver].
  unfold RedisKey.initializeUrls, RedisKey.try_initialize in Hinit.
  cbn [RedisKey.not_a_set RedisKey.sismember RedisKey.sadd] in Hinit.
  repeat case_match; simplify_eq; set_solver.
Qed.

Lemma X14_POST_completion_report_witness :
  let page := Crawl.mkRendered "Home" "Welcome" [] in
  let w := Post.mkWorld "crawl-1" (Some "https://idemitsu-lubricants-staging.webflow.io")
             RedisKey.all_up true true true
             (fun _ => Crawl.mkTaskWorld 1700000000000 (Some page) 1700000000001 "9b2f" true
                         1700000000002 true) in
  let ks := Post.mkKeyspace RedisKey.Absent ∅ ∅ in
  fst (Post.POST Example.JSON_parse (fun _ _ => None) w ks)
  = Post.CrawlComplete "crawl-1" 1 [Crawl.MAIN_URL]
  /\ (1 <= 20)%nat /\ NoDup [Crawl.MAIN_URL].
Proof.
  cbv zeta. split; [vm_compute; reflexivity|].
  pose proof (X14_POST_completion_report Example.JSON_parse (fun _ _ => None)
                (Post.mkWorld "crawl-1" (Some "https://idemitsu-lubricants-staging.webflow.io")
                   RedisKey.all_up true true true
                   (fun _ => Crawl.mkTaskWorld 1700000000000
                               (Some (Crawl.mkRendered "Home" "Welcome" []))
                               1700000000001 "9b2f" true 1700000000002 true))
                (Post.mkKeyspace RedisKey.Absent ∅ ∅)
                (snd (Post.POST Example.JSON_parse (fun _ _ => None)
                        (Post.mkWorld "crawl-1" (Some "https://idemitsu-lubricants-staging.webflow.io")
                           RedisKey.all_up true true true
                           (fun _ => Crawl.mkTaskWorld 1700000000000
                                       (Some (Crawl.mkRendered "Home" "Welcome" []))
                                       1700000000001 "9b2f" true 1700000000002 true))
                        (Post.mkKeyspace RedisKey.Absent ∅ ∅)))
                "crawl-1" 1 [Crawl.MAIN_URL]) as H.
  destruct H as (_ & _ & Hle & Hnd & _); [vm_compute; reflexivity|].
  split; [exact Hle | exact Hnd].
Defined.

(** ** More on fetching one page ([crawlPage]) *)

Section PageFacts.
Import CrawlAndIndex.
Variable BASE_URL : string.
Variable URL_href : string -> string -> option string.
Variable cheerio_load : string -> Parsed.

Abbreviation page_of := (crawlPage BASE_URL URL_href cheerio_load).
Abbreviation extract_of := (extract BASE_URL URL_href cheerio_load).
Abbreviation aloop := (attempt_loop BASE_URL URL_href cheerio_load).

(** A result is the no-content value or comes out of the extraction
    block, for the URL asked. *)
Lemma fetchFallback_result (w : PageWorld) (url : string) :
  fetchFallback BASE_URL URL_href cheerio_load w url = noContent
  \/ exists html, fetchFallback BASE_URL URL_href cheerio_load w url
                  = extract_of url html (iso_now w).
Proof.
  unfold fetchFallback. destruct (fetch_outcome w) as [|[|] html]; eauto.
Qed.

Lemma attempt_loop_result (w : PageWorld) (url : string) (retries remaining attempt : nat)
    (browser : option nat) (res : Result) :
  fst (aloop w url retries remaining attempt browser) = Some res ->
  res = noContent \/ exists html, res = extract_of url html (iso_now w).
Proof.
  revert attempt browser. induction remaining as [|k IH]; intros attempt browser; [done|].
  cbn [attempt_loop].
  destruct (attempt_outcome w attempt) as [message|message|html];
    [| | cbn [fst]; intros [= <-]; eauto];
    (destruct (JS.includes "ENOEXEC" message || (attempt =? retries)%nat);
     [cbn [fst]; intros [= <-]; apply fetchFallback_result|]);
    match goal with
    | |- context [attempt_loop _ _ _ w url retries k (S attempt) ?b] =>
        specialize (IH (S attempt) b);
        destruct (attempt_loop BASE_URL URL_href cheerio_load w url retries k (S attempt) b)
    end; exact IH.
Qed.

Lemma crawlPage_result (w : PageWorld) (url : string) (seen : gset string) (retries : nat)
    (res : Result) :
  fst (fst (page_of w url seen retries)) = Some res ->
  res = noContent \/ exists html, res = extract_of url html (iso_now w).
Proof.
  unfold crawlPage. destruct (decide (url ∈ seen)).
  - cbn [fst]. intros [= <-]. by left.
  - pose proof (attempt_loop_result w url retries retries 1 None res) as H.
    destruct (aloop w url retries retries 1 None). exact H.
Qed.

Lemma crawlPage_seen (w : PageWorld) (url : string) (seen : gset string) (retries : nat) :
  snd (fst (page_of w url seen retries)) = seen ∪ {[url]}.
Proof.
  unfold crawlPage. destruct (decide (url ∈ seen)); cbn [fst snd]; [set_solver|].
  by destruct (aloop w url retries retries 1 None).
Qed.

Lemma crawlPage_trace (w : PageWorld) (url : string) (seen : gset string) (retries : nat) :
  url ∉ seen ->
  snd (page_of w url seen retries) = snd (aloop w url retries retries 1 None)
  /\ fst (fst (page_of w url seen retries)) = fst (aloop w url retries retries 1 None).
Proof.
  intros Hnew. unfold crawlPage. destruct (decide (url ∈ seen)); [done|].
  by destruct (aloop w url retries retries 1 None).
Qed.
End PageFacts.

(** X15: [crawlPage] for any number of retries. A URL already in
    [visited] gets the no-content result at once, without any attempt.
    Otherwise the URL is added to [visited], there are at most [retries]
    attempts, each but the first after a 1000 ms delay, every browser
    session is closed, and a result is returned as soon as [retries] is at
    least 1; with [retries = 0] the loop does not run and the function
    returns [undefined]. *)
Theorem X15_crawlPage_for_any_retries
    (BASE_URL : string) (URL_href : string -> string -> option string)
    (cheerio_load : string -> CrawlAndIndex.Parsed)
    (w : CrawlAndIndex.PageWorld) (url : string) (seen : gset string) (retries : nat) :
  let run := CrawlAndIndex.crawlPage BASE_URL URL_href cheerio_load w url seen retries in
  (url ∈ seen -> run = (Some CrawlAndIndex.noContent, seen, []))
  /\ (url ∉ seen ->
      snd (fst run) = seen ∪ {[url]}
      /\ (CrawlAndIndex.launches (snd run) <= retries)%nat
      /\ CrawlAndIndex.delayed true (snd run) = true
      /\ CrawlAndIndex.sessions_closed None (snd run) = true
      /\ ((1 <= retries)%nat -> exists res, fst (fst run) = Some res)
      /\ (retries = 0%nat -> fst (fst run) = None /\ snd run = [])).
Proof.
  cbv zeta. split.
  - intros Hin. unfold CrawlAndIndex.crawlPage. by destruct (decide (url ∈ seen)).
  - intros Hnew.
    destruct (crawlPage_trace BASE_URL URL_href cheerio_load w url seen retries Hnew) as [Ht Hr].
    split; [apply crawlPage_seen|]. rewrite Ht, Hr.
    split; [apply attempt_loop_launches|]. split; [apply attempt_loop_delayed|].
    split; [apply attempt_loop_sessions_closed|]. split.
    + intros Hge. apply attempt_loop_returns; lia.
    + by intros ->.
Qed.

Lemma X15_crawlPage_for_any_retries_witness :
  let w := CrawlAndIndex.mkPageWorld (fun _ => CrawlAndIndex.PageThrows "Navigation timeout")
             CrawlAndIndex.FetchThrows "2025-01-01T00:00:00.000Z" in
  CrawlAndIndex.crawlPage "https://example.com/" Example.URL_href Example.cheerio_load
    w "https://example.com/" {["https://example.com/"]} 3
  = (Some CrawlAndIndex.noContent, {["https://example.com/"]}, []).
Proof.
  cbv zeta.
  apply (X15_crawlPage_for_any_retries "https://example.com/" Example.URL_href
           Example.cheerio_load
           (CrawlAndIndex.mkPageWorld (fun _ => CrawlAndIndex.PageThrows "Navigation timeout")
              CrawlAndIndex.FetchThrows "2025-01-01T00:00:00.000Z")
           "https://example.com/" {["https://example.com/"]} 3).
  apply elem_of_singleton. reflexivity.
Defined.

(** X16: an error that names [ENOEXEC] ends the browser strategy at once:
    whatever the number of retries, there is one attempt, no delay, and
    the result is the one of the fallback fetch. A first attempt that
    loads the page gives the extraction of that page, with one session
    opened and closed and no fetch. *)
Theorem X16_first_attempt_decides
    (BASE_URL : string) (URL_href : string -> string -> option string)
    (cheerio_load : string -> CrawlAndIndex.Parsed)
    (w : CrawlAndIndex.PageWorld) (url : string) (seen : gset string) (retries : nat) :
  url ∉ seen -> (1 <= retries)%nat ->
  let run := CrawlAndIndex.crawlPage BASE_URL URL_href cheerio_load w url seen retries in
  (forall message,
     CrawlAndIndex.failure_message (CrawlAndIndex.attempt_outcome w 1) = Some message ->
     JS.includes "ENOEXEC" message = true ->
     fst (fst run) = Some (CrawlAndIndex.fetchFallback BASE_URL URL_href cheerio_load w url)
     /\ CrawlAndIndex.launches (snd run) = 1%nat
     /\ (forall ms, CrawlAndIndex.Slept ms ∉ snd run)
     /\ CrawlAndIndex.Fetched url CrawlAndIndex.fetch_headers ∈ snd run)
  /\ (forall html,
        CrawlAndIndex.attempt_outcome w 1 = CrawlAndIndex.PageLoads html ->
        fst (fst run)
        = Some (CrawlAndIndex.extract BASE_URL URL_href cheerio_load url html
                  (CrawlAndIndex.iso_now w))
        /\ snd run = [CrawlAndIndex.Launched 1 CrawlAndIndex.browser_headers;
                      CrawlAndIndex.Closed 1]).
Proof.
  intros Hnew Hge. cbv zeta.
  destruct (crawlPage_trace BASE_URL URL_href cheerio_load w url seen retries Hnew) as [Ht Hr].
  rewrite Ht, Hr. destruct retries as [|k]; [lia|]. cbn [CrawlAndIndex.attempt_loop]. split.
  - intros message Hm Hinc.
    destruct (CrawlAndIndex.attempt_outcome w 1) as [m|m|h];
      cbn [CrawlAndIndex.failure_message] in Hm; simplify_eq;
      rewrite Hinc; cbn [orb fst snd app CrawlAndIndex.close_browser];
      (split; [done|]); (split; [done|]);
      (split; [intros ms; rewrite ?elem_of_cons, elem_of_nil; intuition discriminate|]);
      rewrite ?elem_of_cons; auto.
  - intros html ->. done.
Qed.

Lemma X16_first_attempt_decides_witness :
  let w := CrawlAndIndex.mkPageWorld (fun _ => CrawlAndIndex.LaunchThrows "spawn ENOEXEC")
             CrawlAndIndex.FetchThrows "2025-01-01T00:00:00.000Z" in
  CrawlAndIndex.launches
    (snd (CrawlAndIndex.crawlPage "https://example.com/" Example.URL_href Example.cheerio_load
            w "https://example.com/" ∅ 7)) = 1%nat.
Proof.
  cbv zeta.
  destruct (X16_first_attempt_decides "https://example.com/" Example.URL_href
              Example.cheerio_load
              (CrawlAndIndex.mkPageWorld (fun _ => CrawlAndIndex.LaunchThrows "spawn ENOEXEC")
                 CrawlAndIndex.FetchThrows "2025-01-01T00:00:00.000Z")
              "https://example.com/" ∅ 7) as [H _].
  - apply not_elem_of_empty.
  - lia.
  - destruct (H "spawn ENOEXEC") as (_ & Hl & _); [reflexivity | reflexivity | exact Hl].
Defined.

(** ** The extraction block *)

Lemma or_else_nonempty (a b : string) : b <> "" -> JS.or_else a b <> "".
Proof. unfold JS.or_else. destruct a; cbn [JS.falsy]; done. Qed.

Lemma bodyContent_without_headings (html : string) (parsed : CrawlAndIndex.Parsed) :
  CrawlAndIndex.bodyContent_of html parsed "" <> "".
Proof.
  unfold CrawlAndIndex.bodyContent_of.
  set (body := JS.or_else _ "").
  destruct (JS.falsy body) eqn:Hb; cbn [JS.falsy andb].
  - by apply or_else_nonempty.
  - by destruct body.
Qed.

(** X17: the Document built from a page has the page's URL as [id] and as
    [url], a title that is never empty ("No title" when the page has
    none), and a [content] that is never empty: when the page has no
    heading text the body part is not empty ("No content available" at
    worst). The outgoing links all start with [BASE_URL] and do not
    depend on the URL of the page, being resolved against [BASE_URL]. *)
Theorem X17_extracted_document_shape
    (BASE_URL : string) (URL_href : string -> string -> option string)
    (cheerio_load : string -> CrawlAndIndex.Parsed) (url html lastCrawled : string) :
  let res := CrawlAndIndex.extract BASE_URL URL_href cheerio_load url html lastCrawled in
  (exists d,
     CrawlAndIndex.document res = Some d
     /\ CrawlAndIndex.d_id d = url /\ CrawlAndIndex.d_url d = url
     /\ CrawlAndIndex.d_lastCrawled d = lastCrawled
     /\ CrawlAndIndex.d_title d <> ""
     /\ CrawlAndIndex.d_content d <> ""
     /\ (JS.join " " (CrawlAndIndex.p_headings (cheerio_load html)) = "" ->
         CrawlAndIndex.d_content d <> " "))
  /\ (forall link, link ∈ CrawlAndIndex.links res -> JS.startsWith BASE_URL link = true)
  /\ (forall url' lastCrawled',
        CrawlAndIndex.links
          (CrawlAndIndex.extract BASE_URL URL_href cheerio_load url' html lastCrawled')
        = CrawlAndIndex.links res).
Proof.
  cbv zeta. split; [|split].
  - eexists. unfold CrawlAndIndex.extract. cbn [CrawlAndIndex.document].
    split; [done|].
    cbn [CrawlAndIndex.d_id CrawlAndIndex.d_url CrawlAndIndex.d_lastCrawled
         CrawlAndIndex.d_title CrawlAndIndex.d_content].
    repeat (split; [done|]). split; [by apply or_else_nonempty|]. split.
    + destruct (JS.join " " _); discriminate.
    + intros ->. cbn [String.append].
      pose proof (bodyContent_without_headings html (cheerio_load html)) as Hb.
      intros [= H]. done.
  - intros link Hin. apply extract_page_links_spec in Hin as (h & t & _ & _ & _ & Hs). done.
  - done.
Qed.

Lemma X17_extracted_document_shape_witness :
  let bare := fun _ : string => CrawlAndIndex.mkParsed "" None "" [] [] in
  exists d,
    CrawlAndIndex.document
      (CrawlAndIndex.extract "https://example.com/" Example.URL_href bare
         "https://example.com/empty" "" "2025-01-01T00:00:00.000Z") = Some d
    /\ CrawlAndIndex.d_title d = "No title"
    /\ CrawlAndIndex.d_content d = " No content available".
Proof.
  cbv zeta.
  destruct (X17_extracted_document_shape "https://example.com/" Example.URL_href
              (fun _ => CrawlAndIndex.mkParsed "" None "" [] [])
              "https://example.com/empty" "" "2025-01-01T00:00:00.000Z")
    as [(d & Hd & _) _].
  exists d. split; [exact Hd|]. vm_compute in Hd. injection Hd as <-. split; reflexivity.
Defined.

(** ** The loop of the crawl-and-index [GET] *)

Section LoopFacts.
Import CrawlAndIndex CrawlInvariant.
Variable BASE_URL : string.
Variable URL_href : string -> string -> option string.
Variable cheerio_load : string -> Parsed.

Abbreviation the_loop := (crawl_loop BASE_URL URL_href cheerio_load).
Abbreviation the_page := (crawlPage BASE_URL URL_href cheerio_load).

Lemma startsWith_refl (s : string) : JS.startsWith s s = true.
Proof. induction s as [|c s IH]; [done|]. cbn. by rewrite Ascii.eqb_refl. Qed.

(** [pop] takes the last element. *)
Lemma pop_spec (l rest : list string) (x : string) :
  pop l = Some (x, rest) -> l = (rest ++ [x])%list.
Proof.
  unfold pop. destruct (rev l) as [|y r] eqn:Hr; [done|]. intros [= <- <-].
  rewrite <- (rev_involutive l), Hr. done.
Qed.

Lemma existsb_eqb_false (x : string) (l : list string) :
  existsb (String.eqb x) l = false -> x ∉ l.
Proof.
  intros H Hin. apply list_elem_of_In in Hin.
  assert (existsb (String.eqb x) l = true); [|congruence].
  apply existsb_exists. exists x. split; [done | apply String.eqb_refl].
Qed.

Lemma push_links_keeps (seen : gset string) (found frontier : list string) :
  NoDup frontier ->
  NoDup (push_links seen found frontier)
  /\ forall u, u ∈ frontier -> u ∈ push_links seen found frontier.
Proof.
  unfold push_links. revert frontier.
  induction found as [|l found IH]; intros frontier Hnd; cbn [fold_left]; [done|].
  destruct (negb (bool_decide (l ∈ seen)) && negb (existsb (String.eqb l) frontier)
            && negb (has_denied_extension l)) eqn:Hc.
  - apply andb_true_iff in Hc as [Hc _]. apply andb_true_iff in Hc as [_ Hc].
    apply negb_true_iff, existsb_eqb_false in Hc.
    destruct (IH (frontier ++ [l])%list) as [H1 H2].
    + apply NoDup_app. split; [done|]. split; [|apply NoDup_singleton].
      intros x Hx Hx'. apply list_elem_of_singleton in Hx'. by subst.
    + split; [done|]. intros u Hu. apply H2, elem_of_app. by left.
  - by apply IH.
Qed.

(** One turn of the loop keeps the invariant. *)
Lemma step_keeps_frontier_ok (w : PageWorld) (st : Loop) (url : string) (rest : list string)
    (r : Result) (seen' : gset string) (tr : list Event) :
  frontier_ok BASE_URL st ->
  pop (toCrawl st) = Some (url, rest) ->
  the_page w url (visited st) 2 = (Some r, seen', tr) ->
  (url ∉ visited st)
  /\ frontier_ok BASE_URL
       (mkLoop seen' (push_links seen' (links r) rest)
          (match document r with Some d => (documents st ++ [d])%list | None => documents st end)
          (match document r with Some _ => failedUrls st | None => (failedUrls st ++ [url])%list end)
          (S (crawlCount st))).
Proof.
  intros (Hnd & Hfresh & Hbase & Hnd2 & Hseen & Hcount) Hpop Hpage.
  apply pop_spec in Hpop. rewrite Hpop in Hnd, Hfresh, Hbase.
  apply NoDup_app in Hnd as (Hndr & Hdisj & _).
  assert (Hurl : url ∉ visited st) by (apply Hfresh; set_solver).
  assert (Hurl_rest : url ∉ rest) by (intros Hin; apply (Hdisj url Hin); set_solver).
  split; [done|].
  pose proof (crawlPage_seen BASE_URL URL_href cheerio_load w url (visited st) 2) as Hs.
  pose proof (crawlPage_result BASE_URL URL_href cheerio_load w url (visited st) 2 r) as Hr.
  rewrite Hpage in Hs, Hr. cbn [fst snd] in Hs, Hr. subst seen'.
  specialize (Hr eq_refl).
  assert (Hlinks : forall l, l ∈ links r -> JS.startsWith BASE_URL l = true).
  { destruct Hr as [->|[html ->]]; [intros l Hl; by apply elem_of_nil in Hl|].
    intros l Hl. apply extract_page_links_spec in Hl as (h & t & _ & _ & _ & Hl). done. }
  assert (Hid : forall d, document r = Some d -> d_id d = url).
  { destruct Hr as [->|[html ->]]; [done|]. by intros d [= <-]. }
  destruct (push_links_keeps (visited st ∪ {[url]}) (links r) rest Hndr) as [Hnd' Hkeep].
  assert (Hnew : url ∉ (map d_id (documents st) ++ failedUrls st)%list).
  { intros Hin. by apply Hseen in Hin. }
  unfold frontier_ok. cbn [toCrawl visited documents failedUrls crawlCount].
  split; [done|]. split; [|split; [|split; [|split]]].
  - intros u Hu. apply push_links_spec in Hu as [Hu|(_ & Hu & _)]; [|done].
    intros Hin. apply elem_of_union in Hin as [Hin|Hin].
    + apply (Hfresh u); [set_solver | done].
    + apply elem_of_singleton in Hin. by subst.
  - intros u [Hu|Hu].
    + apply push_links_spec in Hu as [Hu|(Hu & _)]; [apply Hbase; set_solver | by apply Hlinks].
    + apply Hbase. set_solver.
  - destruct (document r) as [d|] eqn:Hd.
    + rewrite map_app. cbn [map]. rewrite (Hid d eq_refl).
      apply NoDup_app in Hnd2 as (Ha & Hb & Hc).
      rewrite <- app_assoc. apply NoDup_app. split; [done|]. split.
      * intros x Hx Hx'. apply elem_of_cons in Hx' as [->|Hx'].
        -- apply Hnew. set_solver.
        -- by apply (Hb x).
      * apply NoDup_cons. split; [|done]. intros Hin. apply Hnew. set_solver.
    + rewrite app_assoc. apply NoDup_app. split; [done|]. split; [|apply NoDup_singleton].
      intros x Hx Hx'. apply list_elem_of_singleton in Hx'. subst. by apply Hnew.
  - intros u. destruct (document r) as [d|] eqn:Hd.
    + rewrite map_app. cbn [map]. rewrite (Hid d eq_refl). specialize (Hseen u). set_solver.
    + specialize (Hseen u). set_solver.
  - destruct (document r); rewrite length_app; cbn [length]; lia.
Qed.

Lemma crawl_loop_keeps_frontier_ok (world : string -> PageWorld) (budget : nat) (st st' : Loop) :
  frontier_ok BASE_URL st -> the_loop world budget st = Some st' -> frontier_ok BASE_URL st'.
Proof.
  revert st. induction budget as [|b IH]; intros st Hok; cbn [crawl_loop].
  - by intros [= <-].
  - destruct (pop (toCrawl st)) as [[url rest]|] eqn:Hpop; [|by intros [= <-]].
    destruct (the_page (world url) url (visited st) 2) as [[[r|] seen'] tr] eqn:Hpage; [|done].
    apply IH. by eapply step_keeps_frontier_ok.
Qed.

Lemma crawl_loop_count (world : string -> PageWorld) (budget : nat) (st st' : Loop) :
  the_loop world budget st = Some st' ->
  (crawlCount st <= crawlCount st' <= crawlCount st + budget)%nat
  /\ (toCrawl st <> [] -> (1 <= budget)%nat -> (crawlCount st < crawlCount st')%nat).
Proof.
  revert st. induction budget as [|b IH]; intros st; cbn [crawl_loop].
  - intros [= <-]. split; lia.
  - destruct (pop (toCrawl st)) as [[url rest]|] eqn:Hpop.
    + destruct (the_page (world url) url (visited st) 2) as [[[r|] seen'] tr]; [|done].
      intros H. apply IH in H as [H _]. cbn [crawlCount] in H. split; lia.
    + intros [= <-]. split; [lia|]. intros Hne _. exfalso. apply Hne.
      unfold pop in Hpop. destruct (rev (toCrawl st)) eqn:Hr; [|done].
      by rewrite <- (rev_involutive (toCrawl st)), Hr.
Qed.

Lemma start_frontier_ok : frontier_ok BASE_URL (mkLoop ∅ [BASE_URL] [] [] 0).
Proof.
  unfold frontier_ok. cbn [toCrawl visited documents failedUrls crawlCount map app length].
  split; [apply NoDup_singleton|]. split; [set_solver|]. split.
  - intros u [Hu|Hu]; [|set_solver]. apply list_elem_of_singleton in Hu. subst.
    apply startsWith_refl.
  - split; [constructor|]. split; [set_solver | done].
Qed.
End LoopFacts.

Section LoopOutcome.
Import CrawlAndIndex CrawlInvariant.
Variable BASE_URL : string.
Variable URL_href : string -> string -> option string.
Variable cheerio_load : string -> Parsed.

Lemma attempt_loop_launches_once (w : PageWorld) (url : string) (retries k attempt : nat)
    (browser : option nat) :
  (1 <= launches (snd (attempt_loop BASE_URL URL_href cheerio_load w url retries (S k)
                         attempt browser)))%nat.
Proof.
  cbn [attempt_loop].
  destruct (attempt_outcome w attempt) as [message|message|html];
    [| | cbn; lia];
    (destruct (JS.includes "ENOEXEC" message || (attempt =? retries)%nat);
     [cbn [snd]; rewrite launches_app; cbn; lia|]);
    match goal with
    | |- context [attempt_loop _ _ _ w url retries k (S attempt) ?b] =>
        destruct (attempt_loop BASE_URL URL_href cheerio_load w url retries k (S attempt) b)
    end; cbn [snd]; rewrite launches_app; cbn; lia.
Qed.

Lemma crawl_loop_visited_grows (world : string -> PageWorld) (budget : nat) (st st' : Loop) :
  crawl_loop BASE_URL URL_href cheerio_load world budget st = Some st' ->
  visited st ⊆ visited st'.
Proof.
  revert st. induction budget as [|b IH]; intros st; cbn [crawl_loop].
  - by intros [= <-].
  - destruct (pop (toCrawl st)) as [[url rest]|]; [|by intros [= <-]].
    pose proof (crawlPage_seen BASE_URL URL_href cheerio_load (world url) url (visited st) 2) as Hs.
    destruct (crawlPage BASE_URL URL_href cheerio_load (world url) url (visited st) 2)
      as [[[r|] seen'] tr]; [|done].
    cbn [fst snd] in Hs. intros H. apply IH in H. cbn [visited] in H. set_solver.
Qed.

Lemma start_visits_base (world : string -> PageWorld) (b : nat) (st' : Loop) :
  crawl_loop BASE_URL URL_href cheerio_load world (S b) (mkLoop ∅ [BASE_URL] [] [] 0) = Some st' ->
  BASE_URL ∈ visited st'.
Proof.
  cbn [crawl_loop toCrawl visited]. change (pop [BASE_URL]) with (Some (BASE_URL, @nil string)).
  cbv beta iota.
  pose proof (crawlPage_seen BASE_URL URL_href cheerio_load (world BASE_URL) BASE_URL ∅ 2) as Hs.
  destruct (crawlPage BASE_URL URL_href cheerio_load (world BASE_URL) BASE_URL ∅ 2)
    as [[[r|] seen'] tr]; [|done].
  cbn [fst snd] in Hs. intros H. apply crawl_loop_visited_grows in H. cbn [visited] in H.
  set_solver.
Qed.
End LoopOutcome.

(** X18: the loop of [GET] keeps its frontier clean. From the start and
    after any number of turns, the frontier holds no URL twice and no
    visited URL, and every URL on it or visited starts with [BASE_URL].
    So the URL popped next has never been visited: the "already visited"
    return of [crawlPage] is not taken from [GET], which makes at least
    one browser attempt for every URL it pops. *)
Theorem X18_loop_keeps_the_frontier_clean
    (BASE_URL : string) (URL_href : string -> string -> option string)
    (cheerio_load : string -> CrawlAndIndex.Parsed)
    (world : string -> CrawlAndIndex.PageWorld) (budget : nat)
    (st st' : CrawlAndIndex.Loop) :
  CrawlInvariant.frontier_ok BASE_URL (CrawlAndIndex.mkLoop ∅ [BASE_URL] [] [] 0)
  /\ (CrawlInvariant.frontier_ok BASE_URL st ->
      CrawlAndIndex.crawl_loop BASE_URL URL_href cheerio_load world budget st = Some st' ->
      CrawlInvariant.frontier_ok BASE_URL st')
  /\ (CrawlInvariant.frontier_ok BASE_URL st ->
      forall url rest,
        CrawlAndIndex.pop (CrawlAndIndex.toCrawl st) = Some (url, rest) ->
        (url ∉ CrawlAndIndex.visited st)
        /\ (1 <= CrawlAndIndex.launches
                   (snd (CrawlAndIndex.crawlPage BASE_URL URL_href cheerio_load
                           (world url) url (CrawlAndIndex.visited st) 2)))%nat).
Proof.
  split; [apply (start_frontier_ok BASE_URL URL_href cheerio_load)|].
  split; [apply crawl_loop_keeps_frontier_ok|].
  intros (Hnd & Hfresh & _) url rest Hpop. apply pop_spec in Hpop.
  assert (Hnew : url ∉ CrawlAndIndex.visited st).
  { apply Hfresh. rewrite Hpop. set_solver. }
  split; [done|].
  destruct (crawlPage_trace BASE_URL URL_href cheerio_load (world url) url
              (CrawlAndIndex.visited st) 2 Hnew) as [-> _].
  apply attempt_loop_launches_once.
Qed.

Lemma X18_loop_keeps_the_frontier_clean_witness :
  let site := fun _ : string =>
    CrawlAndIndex.mkPageWorld (fun _ => CrawlAndIndex.PageLoads Example.html)
      CrawlAndIndex.FetchThrows "2025-01-01T00:00:00.000Z" in
  exists st',
    CrawlAndIndex.crawl_loop "https://example.com/" Example.URL_href Example.cheerio_load
      site 2 (CrawlAndIndex.mkLoop ∅ ["https://example.com/"] [] [] 0) = Some st'
    /\ CrawlInvariant.frontier_ok "https://example.com/" st'.
Proof.
  cbv zeta. eexists. split; [vm_compute; reflexivity|].
  eapply (X18_loop_keeps_the_frontier_clean "https://example.com/" Example.URL_href
            Example.cheerio_load
            (fun _ => CrawlAndIndex.mkPageWorld (fun _ => CrawlAndIndex.PageLoads Example.html)
                        CrawlAndIndex.FetchThrows "2025-01-01T00:00:00.000Z")
            2 (CrawlAndIndex.mkLoop ∅ ["https://example.com/"] [] [] 0)).
  - apply (X18_loop_keeps_the_frontier_clean "https://example.com/" Example.URL_href
             Example.cheerio_load
             (fun _ => CrawlAndIndex.mkPageWorld (fun _ => CrawlAndIndex.PageLoads Example.html)
                         CrawlAndIndex.FetchThrows "2025-01-01T00:00:00.000Z")
             0 (CrawlAndIndex.mkLoop ∅ [] [] [] 0) (CrawlAndIndex.mkLoop ∅ [] [] [] 0)).
  - vm_compute. reflexivity.
Defined.

(** X19: what the loop of [GET] returns. It has crawled at least one and
    at most 5 URLs, [BASE_URL] among them; each crawled URL is counted
    once, as a document or as a failed URL; the documents have pairwise
    distinct identities, none of which is a failed URL; and every crawled
    URL starts with [BASE_URL]: the crawl does not leave the site. *)
Theorem X19_loop_outcome
    (BASE_URL : string) (URL_href : string -> string -> option string)
    (cheerio_load : string -> CrawlAndIndex.Parsed)
    (world : string -> CrawlAndIndex.PageWorld) (st : CrawlAndIndex.Loop) :
  CrawlAndIndex.crawl_loop BASE_URL URL_href cheerio_load world CrawlAndIndex.maxCrawl
    (CrawlAndIndex.mkLoop ∅ [BASE_URL] [] [] 0) = Some st ->
  (1 <= CrawlAndIndex.crawlCount st <= 5)%nat
  /\ CrawlAndIndex.crawlCount st
     = (length (CrawlAndIndex.documents st) + length (CrawlAndIndex.failedUrls st))%nat
  /\ BASE_URL ∈ CrawlAndIndex.visited st
  /\ NoDup (map CrawlAndIndex.d_id (CrawlAndIndex.documents st))
  /\ NoDup (CrawlAndIndex.failedUrls st)
  /\ (forall d, d ∈ CrawlAndIndex.documents st ->
        (CrawlAndIndex.d_id d ∉ CrawlAndIndex.failedUrls st)
        /\ JS.startsWith BASE_URL (CrawlAndIndex.d_id d) = true)
  /\ (forall u, u ∈ CrawlAndIndex.failedUrls st -> JS.startsWith BASE_URL u = true).
Proof.
  intros Hloop.
  destruct (crawl_loop_keeps_frontier_ok BASE_URL URL_href cheerio_load world _ _ st
              (start_frontier_ok BASE_URL URL_href cheerio_load) Hloop)
    as (_ & _ & Hbase & Hnd & Hseen & Hcount).
  destruct (crawl_loop_count BASE_URL URL_href cheerio_load world _ _ st Hloop) as [Hle Hlt].
  cbn [CrawlAndIndex.crawlCount CrawlAndIndex.toCrawl] in Hle, Hlt.
  unfold CrawlAndIndex.maxCrawl in *.
  apply NoDup_app in Hnd as (Hnd1 & Hdisj & Hnd2).
  split; [split; [apply Hlt; [done | lia] | lia]|]. split; [done|].
  split; [by eapply start_visits_base|]. split; [done|]. split; [done|]. split.
  - intros d Hd.
    assert (Hin : CrawlAndIndex.d_id d ∈ map CrawlAndIndex.d_id (CrawlAndIndex.documents st)).
    { apply list_elem_of_In, in_map, list_elem_of_In, Hd. }
    split; [by apply Hdisj|]. apply Hbase. right. apply Hseen. set_solver.
  - intros u Hu. apply Hbase. right. apply Hseen. set_solver.
Qed.

Lemma X19_loop_outcome_witness :
  let site := fun _ : string =>
    CrawlAndIndex.mkPageWorld (fun _ => CrawlAndIndex.PageLoads Example.html)
      CrawlAndIndex.FetchThrows "2025-01-01T00:00:00.000Z" in
  exists st,
    CrawlAndIndex.crawl_loop "https://example.com/" Example.URL_href Example.cheerio_load
      site CrawlAndIndex.maxCrawl (CrawlAndIndex.mkLoop ∅ ["https://example.com/"] [] [] 0)
    = Some st
    /\ (1 <= CrawlAndIndex.crawlCount st <= 5)%nat.
Proof.
  cbv zeta. eexists. split; [vm_compute; reflexivity|].
  eapply (X19_loop_outcome "https://example.com/" Example.URL_href Example.cheerio_load
            (fun _ => CrawlAndIndex.mkPageWorld (fun _ => CrawlAndIndex.PageLoads Example.html)
                        CrawlAndIndex.FetchThrows "2025-01-01T00:00:00.000Z")).
  vm_compute. reflexivity.
Defined.

(** ** Indexing, the snapshot, and loading it back *)

Section IndexingFacts.
Import CrawlAndIndex.

Lemma existsb_eqb_ids (k : string) (l : list string) :
  existsb (fun i => String.eqb i k) l = false <-> k ∉ l.
Proof.
  induction l as [|x l IH]; cbn [existsb].
  - split; [intros _ H; by apply elem_of_nil in H | done].
  - rewrite orb_false_iff, IH, not_elem_of_cons, String.eqb_neq. naive_solver.
Qed.

(** [addAll] returns exactly when the identities of the batch are
    pairwise distinct and none is in the index yet. *)
Lemma addAll_returns_iff (ds : list Document) (ms : Index) :
  snd (addAll ds ms) = true <->
  NoDup (map d_id ds)
  /\ forall i, i ∈ map d_id ds -> i ∉ map d_id (MiniSearch.documents ms).
Proof.
  revert ms. induction ds as [|d ds IH]; intros ms.
  - cbn. split; [|done]. intros _. split; [constructor|]. intros i Hi.
    by apply elem_of_nil in Hi.
  - unfold addAll in *. cbn [MiniSearch.addAll map]. unfold MiniSearch.add.
    rewrite has_id_ids.
    destruct (existsb _ _) eqn:He.
    + cbn [snd]. split; [done|]. intros [_ Hdisj].
      assert (d_id d ∉ map d_id (MiniSearch.documents ms)) as Hn by (apply Hdisj; set_solver).
      apply existsb_eqb_ids in Hn. congruence.
    + apply existsb_eqb_ids in He. rewrite IH. cbn [MiniSearch.documents].
      rewrite map_app. cbn [map]. rewrite NoDup_cons. split.
      * intros [Hnd Hdisj]. split; [split; [|done]|].
        -- intros Hin. apply (Hdisj _ Hin). set_solver.
        -- intros i Hi Hi'. apply elem_of_cons in Hi as [->|Hi]; [done|].
           apply (Hdisj i Hi). set_solver.
      * intros [[Hd Hnd] Hdisj]. split; [done|]. intros i Hi Hi'.
        apply elem_of_app in Hi' as [Hi'|Hi'].
        -- apply (Hdisj i); [set_solver | done].
        -- apply list_elem_of_singleton in Hi'. by subst.
Qed.
End IndexingFacts.

Section IndexRunOutcome.
Import CrawlAndIndex.
Variable BASE_URL : string.
Variable URL_href : string -> string -> option string.
Variable cheerio_load : string -> Parsed.

Lemma with_fallback_ids_nodup (t : string) (ds : list Document) :
  NoDup (map d_id ds) -> NoDup (map d_id (with_fallback BASE_URL t ds)).
Proof.
  unfold with_fallback. destruct ds; cbn [length Nat.eqb app map]; [|done].
  intros _. apply NoDup_singleton.
Qed.

Lemma with_fallback_length (t : string) (ds : list Document) :
  (1 <= length (with_fallback BASE_URL t ds))%nat
  /\ (length (with_fallback BASE_URL t ds) <= Nat.max 1 (length ds))%nat.
Proof. unfold with_fallback. destruct ds; cbn; lia. Qed.
End IndexRunOutcome.

(** X20: in a new process (the module-level index is empty) the indexing
    run never fails in [addAll]: it indexes between 1 and 5 documents with
    pairwise distinct identities, the index holds exactly those, and the
    response is the 200 report when the snapshot is saved, the "Failed to
    save index file" 500 otherwise. *)
Theorem X20_first_run_always_indexes
    (BASE_URL : string) (URL_href : string -> string -> option string)
    (cheerio_load : string -> CrawlAndIndex.Parsed)
    (world : string -> CrawlAndIndex.PageWorld) (fallbackTime : string)
    (save : CrawlAndIndex.SaveOutcome) (file : option CrawlAndIndex.Snapshot) :
  let run := CrawlAndIndex.GET BASE_URL URL_href cheerio_load world fallbackTime save
               CrawlAndIndex.new_index file in
  exists docs failed,
    CrawlAndIndex.added run = Some docs
    /\ MiniSearch.documents (CrawlAndIndex.index_after run) = docs
    /\ (1 <= length docs <= 5)%nat
    /\ NoDup (map CrawlAndIndex.d_id docs)
    /\ CrawlAndIndex.response run
       = match save with
         | CrawlAndIndex.Saved => CrawlAndIndex.Indexed docs failed
         | _ => CrawlAndIndex.SaveFailed failed
         end
    /\ CrawlAndIndex.file_after run
       = match save with
         | CrawlAndIndex.WriteThrows => file
         | _ => Some (CrawlAndIndex.mkSnapshot ["title"; "content"; "description"; "links"] docs)
         end.
Proof.
  cbv zeta.
  destruct (crawl_loop_returns BASE_URL URL_href cheerio_load world CrawlAndIndex.maxCrawl
              (CrawlAndIndex.mkLoop ∅ [BASE_URL] [] [] 0)) as [st Hloop].
  rewrite (GET_after_loop BASE_URL URL_href cheerio_load world fallbackTime save _ file st Hloop).
  cbv zeta.
  destruct (crawl_loop_keeps_frontier_ok BASE_URL URL_href cheerio_load world _ _ st
              (start_frontier_ok BASE_URL URL_href cheerio_load) Hloop)
    as (_ & _ & _ & Hnd & _ & Hcount).
  destruct (crawl_loop_count BASE_URL URL_href cheerio_load world _ _ st Hloop) as [Hle _].
  cbn [CrawlAndIndex.crawlCount] in Hle. unfold CrawlAndIndex.maxCrawl in Hle.
  apply NoDup_app in Hnd as (Hnd & _ & _).
  pose proof (with_fallback_ids_nodup BASE_URL fallbackTime _ Hnd) as Hnd'.
  pose proof (with_fallback_length BASE_URL fallbackTime (CrawlAndIndex.documents st)) as [Hl1 Hl2].
  assert (Hok : snd (CrawlAndIndex.addAll
                       (CrawlAndIndex.with_fallback BASE_URL fallbackTime (CrawlAndIndex.documents st))
                       CrawlAndIndex.new_index) = true).
  { apply addAll_returns_iff. split; [done|]. intros i _ Hi. by apply elem_of_nil in Hi. }
  destruct (CrawlAndIndex.addAll _ CrawlAndIndex.new_index) as [ms' ok] eqn:Hadd.
  cbn [snd] in Hok. subst ok.
  exists (CrawlAndIndex.with_fallback BASE_URL fallbackTime (CrawlAndIndex.documents st)),
         (CrawlAndIndex.failedUrls st).
  unfold CrawlAndIndex.addAll in Hadd. pose proof (addAll_documents _ _ _ _ _ Hadd) as Hdocs.
  cbn [CrawlAndIndex.new_index MiniSearch.new MiniSearch.documents app] in Hdocs.
  destruct save; cbn [CrawlAndIndex.added CrawlAndIndex.index_after CrawlAndIndex.response
                      CrawlAndIndex.file_after];
    (split; [done|]); (split; [done|]); (split; [lia|]); done.
Qed.

Lemma successful_run_facts
    (BASE_URL : string) (URL_href : string -> string -> option string)
    (cheerio_load : string -> CrawlAndIndex.Parsed)
    (world : string -> CrawlAndIndex.PageWorld) (fallbackTime : string)
    (save : CrawlAndIndex.SaveOutcome) (ms : CrawlAndIndex.Index)
    (file : option CrawlAndIndex.Snapshot)
    (docs : list CrawlAndIndex.Document) (failed : list string) :
  let run := CrawlAndIndex.GET BASE_URL URL_href cheerio_load world fallbackTime save ms file in
  CrawlAndIndex.response run = CrawlAndIndex.Indexed docs failed ->
  NoDup (map CrawlAndIndex.d_id docs)
  /\ (forall i, i ∈ map CrawlAndIndex.d_id docs ->
        i ∉ map CrawlAndIndex.d_id (MiniSearch.documents ms))
  /\ MiniSearch.documents (CrawlAndIndex.index_after run) = (MiniSearch.documents ms ++ docs)%list
  /\ CrawlAndIndex.file_after run
     = Some (CrawlAndIndex.mkSnapshot ["title"; "content"; "description"; "links"] docs)
  /\ docs <> [].
Proof.
  cbv zeta.
  destruct (crawl_loop_returns BASE_URL URL_href cheerio_load world CrawlAndIndex.maxCrawl
              (CrawlAndIndex.mkLoop ∅ [BASE_URL] [] [] 0)) as [st Hloop].
  rewrite (GET_after_loop BASE_URL URL_href cheerio_load world fallbackTime save ms file st Hloop).
  cbv zeta.
  pose proof (with_fallback_nonempty BASE_URL fallbackTime (CrawlAndIndex.documents st)) as Hne.
  pose proof (addAll_returns_iff
                (CrawlAndIndex.with_fallback BASE_URL fallbackTime (CrawlAndIndex.documents st)) ms)
    as Hiff.
  destruct (CrawlAndIndex.addAll _ ms) as [ms' [|]] eqn:Hadd; [|done].
  destruct (proj1 Hiff eq_refl) as [Hnd Hdisj].
  unfold CrawlAndIndex.addAll in Hadd. pose proof (addAll_documents _ _ _ _ _ Hadd) as Hdocs.
  destruct save; cbn [CrawlAndIndex.response CrawlAndIndex.index_after CrawlAndIndex.file_after];
    try done.
  by intros [= <- <-].
Qed.

(** X21: a run that answers 200 has handed to [addAll] documents whose
    identities are pairwise distinct and were not in the module-level
    index before; afterwards the index holds its earlier documents
    followed by those of the run, and the snapshot on disk is the list of
    the run alone. *)
Theorem X21_successful_run
    (BASE_URL : string) (URL_href : string -> string -> option string)
    (cheerio_load : string -> CrawlAndIndex.Parsed)
    (world : string -> CrawlAndIndex.PageWorld) (fallbackTime : string)
    (save : CrawlAndIndex.SaveOutcome) (ms : CrawlAndIndex.Index)
    (file : option CrawlAndIndex.Snapshot)
    (docs : list CrawlAndIndex.Document) (failed : list string) :
  let run := CrawlAndIndex.GET BASE_URL URL_href cheerio_load world fallbackTime save ms file in
  CrawlAndIndex.response run = CrawlAndIndex.Indexed docs failed ->
  NoDup (map CrawlAndIndex.d_id docs)
  /\ (forall i, i ∈ map CrawlAndIndex.d_id docs ->
        i ∉ map CrawlAndIndex.d_id (MiniSearch.documents ms))
  /\ MiniSearch.documents (CrawlAndIndex.index_after run) = (MiniSearch.documents ms ++ docs)%list
  /\ CrawlAndIndex.file_after run
     = Some (CrawlAndIndex.mkSnapshot ["title"; "content"; "description"; "links"] docs)
  /\ docs <> [].
Proof. apply successful_run_facts. Qed.

Lemma X21_successful_run_witness :
  let site := fun _ : string =>
    CrawlAndIndex.mkPageWorld (fun _ => CrawlAndIndex.PageLoads Example.html)
      CrawlAndIndex.FetchThrows "2025-01-01T00:00:00.000Z" in
  let run := CrawlAndIndex.GET "https://example.com/" Example.URL_href Example.cheerio_load site
               "2025-01-01T00:00:01.000Z" CrawlAndIndex.Saved CrawlAndIndex.new_index None in
  exists docs,
    CrawlAndIndex.response run = CrawlAndIndex.Indexed docs []
    /\ NoDup (map CrawlAndIndex.d_id docs).
Proof.
  cbv zeta. eexists. split; [vm_compute; reflexivity|].
  eapply (X21_successful_run "https://example.com/" Example.URL_href Example.cheerio_load
            (fun _ => CrawlAndIndex.mkPageWorld (fun _ => CrawlAndIndex.PageLoads Example.html)
                        CrawlAndIndex.FetchThrows "2025-01-01T00:00:00.000Z")
            "2025-01-01T00:00:01.000Z" CrawlAndIndex.Saved CrawlAndIndex.new_index None _ []).
  vm_compute. reflexivity.
Defined.

Section LoadFacts.
Import JSValues SearchRoute.

Lemma addAll_bad_document (docs : list JSValue) (ms : Index) (d : JSValue) :
  d ∈ docs -> id_of d = None -> snd (addAll docs ms) = false.
Proof.
  revert ms. induction docs as [|x docs IH]; intros ms Hin Hid.
  - by apply elem_of_nil in Hin.
  - unfold addAll in *. cbn [MiniSearch.addAll].
    destruct (MiniSearch.add id_of same_key x ms) as [ms1|] eqn:Hadd; [|done].
    apply elem_of_cons in Hin as [->|Hin]; [|by apply IH].
    unfold MiniSearch.add in Hadd. by rewrite Hid in Hadd.
Qed.

Lemma has_id_encoded (k : string) (fs : list JSValue) (pre : list CrawlAndIndex.Document) :
  MiniSearch.has_id id_of same_key (JStr k)
    (MiniSearch.mk fs (map SnapshotFile.document_json pre))
  = existsb (fun i => String.eqb i k) (map CrawlAndIndex.d_id pre).
Proof.
  unfold MiniSearch.has_id. cbn [MiniSearch.documents].
  induction pre as [|d pre IH]; [done|]. cbn [map existsb]. by rewrite IH.
Qed.

(** Loading documents written by the crawl-and-index route: the index
    gets them all when their identities are distinct. *)
Lemma addAll_encoded (fs : list JSValue) (ds pre : list CrawlAndIndex.Document) :
  NoDup (map CrawlAndIndex.d_id ds) ->
  (forall i, i ∈ map CrawlAndIndex.d_id ds -> i ∉ map CrawlAndIndex.d_id pre) ->
  addAll (map SnapshotFile.document_json ds)
    (MiniSearch.mk fs (map SnapshotFile.document_json pre))
  = (MiniSearch.mk fs (map SnapshotFile.document_json (pre ++ ds)), true).
Proof.
  revert pre. induction ds as [|d ds IH]; intros pre Hnd Hdisj.
  - by rewrite app_nil_r.
  - cbn [map] in Hnd. apply NoDup_cons in Hnd as [Hd Hnd].
    unfold addAll in *. cbn [map MiniSearch.addAll]. unfold MiniSearch.add.
    change (id_of (SnapshotFile.document_json d)) with (Some (JStr (CrawlAndIndex.d_id d))).
    cbv beta iota. rewrite has_id_encoded.
    assert (He : existsb (fun i => String.eqb i (CrawlAndIndex.d_id d))
                   (map CrawlAndIndex.d_id pre) = false).
    { apply existsb_eqb_ids, Hdisj. cbn [map]. apply list_elem_of_here. }
    rewrite He. cbn [MiniSearch.fields MiniSearch.documents].
    replace (map SnapshotFile.document_json pre ++ [SnapshotFile.document_json d])%list
      with (map SnapshotFile.document_json (pre ++ [d])) by (by rewrite map_app).
    rewrite (IH (pre ++ [d])%list Hnd).
    + by rewrite <- app_assoc.
    + intros i Hi Hi'. rewrite map_app in Hi'. apply elem_of_app in Hi' as [Hi'|Hi'].
      * apply (Hdisj i); [cbn [map]; by apply list_elem_of_further | done].
      * apply list_elem_of_singleton in Hi'. by subst.
Qed.
End LoadFacts.

(** X22: the two routes fit together. The snapshot that a 200 run of the
    crawl-and-index route writes, read back by [JSON.parse], passes the
    validation of [loadIndex] and loads completely: the search index
    holds one document per document of the run, in order, so a non-empty
    query is never answered "No documents indexed"; it gets the results
    of the search, or the 500 response if the search throws. *)
Theorem X22_written_snapshot_loads
    (BASE_URL : string) (URL_href : string -> string -> option string)
    (cheerio_load : string -> CrawlAndIndex.Parsed)
    (world : string -> CrawlAndIndex.PageWorld) (fallbackTime : string)
    (save : CrawlAndIndex.SaveOutcome) (ms : CrawlAndIndex.Index)
    (file : option CrawlAndIndex.Snapshot)
    (docs : list CrawlAndIndex.Document) (failed : list string)
    {Hit : Type} (JSON_parse : string -> option JSValue)
    (search : SearchRoute.Index -> string -> option (list Hit))
    (snapshot : CrawlAndIndex.Snapshot) (indexData q : string) :
  let run := CrawlAndIndex.GET BASE_URL URL_href cheerio_load world fallbackTime save ms file in
  CrawlAndIndex.response run = CrawlAndIndex.Indexed docs failed ->
  CrawlAndIndex.file_after run = Some snapshot ->
  JSON_parse indexData = Some (SnapshotFile.snapshot_json snapshot) ->
  JS.falsy q = false ->
  let loaded := SearchRoute.loadIndex JSON_parse (Some indexData) in
  MiniSearch.documents loaded = map SnapshotFile.document_json docs
  /\ MiniSearch.fields loaded = SearchRoute.default_fields
  /\ MiniSearch.documentCount loaded = length docs
  /\ (1 <= MiniSearch.documentCount loaded)%nat
  /\ SearchRoute.GET JSON_parse search (Some q) (Some indexData)
     = match search loaded q with
       | Some results => SearchRoute.Results results
       | None => SearchRoute.SearchFailed
       end.
Proof.
  cbv zeta. intros Hresp Hfile Hparse Hq.
  destruct (successful_run_facts BASE_URL URL_href cheerio_load world fallbackTime save ms
              file docs failed Hresp) as (Hnd & _ & _ & Hfile' & Hne).
  rewrite Hfile' in Hfile. injection Hfile as <-.
  assert (Hload : SearchRoute.loadIndex JSON_parse (Some indexData)
                  = MiniSearch.mk SearchRoute.default_fields
                      (map SnapshotFile.document_json docs)).
  { unfold SearchRoute.loadIndex, SearchRoute.tryLoad. rewrite Hparse.
    unfold SnapshotFile.snapshot_json.
    cbn [CrawlAndIndex.snap_fields CrawlAndIndex.snap_documents JSValues.prop
         JSValues.lookup_prop String.eqb Ascii.eqb Bool.eqb JSValues.falsy JSValues.isArray
         orb negb map].
    pose proof (addAll_encoded SearchRoute.default_fields docs [] Hnd) as Hadd.
    cbn [map app] in Hadd. unfold MiniSearch.new. unfold SearchRoute.default_fields in *.
    rewrite Hadd; [done|]. intros i _ Hi. by apply elem_of_nil in Hi. }
  rewrite Hload. cbn [MiniSearch.documents MiniSearch.fields].
  unfold MiniSearch.documentCount. cbn [MiniSearch.documents]. rewrite length_map.
  split; [done|]. split; [done|]. split; [done|].
  assert (Hpos : (1 <= length docs)%nat) by (destruct docs; [done | cbn; lia]).
  split; [done|].
  unfold SearchRoute.GET. rewrite Hq, Hload. unfold MiniSearch.documentCount.
  cbn [MiniSearch.documents]. rewrite length_map.
  destruct (Nat.eqb_spec (length docs) 0); [lia | done].
Qed.

Lemma X22_written_snapshot_loads_witness :
  let site := fun _ : string =>
    CrawlAndIndex.mkPageWorld (fun _ => CrawlAndIndex.PageLoads Example.html)
      CrawlAndIndex.FetchThrows "2025-01-01T00:00:00.000Z" in
  let run := CrawlAndIndex.GET "https://example.com/" Example.URL_href Example.cheerio_load site
               "2025-01-01T00:00:01.000Z" CrawlAndIndex.Saved CrawlAndIndex.new_index None in
  let snapshot := match CrawlAndIndex.file_after run with
                  | Some s => s
                  | None => CrawlAndIndex.mkSnapshot [] []
                  end in
  let parse := fun _ : string => Some (SnapshotFile.snapshot_json snapshot) in
  MiniSearch.documentCount (SearchRoute.loadIndex parse (Some "{...}")) = 3%nat.
Proof.
  cbv zeta.
  pose (run := CrawlAndIndex.GET "https://example.com/" Example.URL_href Example.cheerio_load
                 (fun _ => CrawlAndIndex.mkPageWorld
                             (fun _ => CrawlAndIndex.PageLoads Example.html)
                             CrawlAndIndex.FetchThrows "2025-01-01T00:00:00.000Z")
                 "2025-01-01T00:00:01.000Z" CrawlAndIndex.Saved CrawlAndIndex.new_index None).
  pose (snapshot := match CrawlAndIndex.file_after run with
                    | Some s => s
                    | None => CrawlAndIndex.mkSnapshot [] []
                    end).
  destruct (X22_written_snapshot_loads "https://example.com/" Example.URL_href
              Example.cheerio_load
              (fun _ => CrawlAndIndex.mkPageWorld
                          (fun _ => CrawlAndIndex.PageLoads Example.html)
                          CrawlAndIndex.FetchThrows "2025-01-01T00:00:00.000Z")
              "2025-01-01T00:00:01.000Z" CrawlAndIndex.Saved CrawlAndIndex.new_index None
              (CrawlAndIndex.snap_documents snapshot) []
              (fun _ : string => Some (SnapshotFile.snapshot_json snapshot))
              (fun (_ : SearchRoute.Index) (_ : string) => Some [tt])
              snapshot "{...}" "lubricant") as (_ & _ & Hcount & _).
  - vm_compute. reflexivity.
  - vm_compute. reflexivity.
  - reflexivity.
  - reflexivity.
  - fold run in Hcount. fold snapshot in Hcount. fold run. fold snapshot.
    rewrite Hcount. vm_compute. reflexivity.
Defined.

Lemma addAll_fields {Doc Key : Type} (id_of : Doc -> option Key)
    (same_key : Key -> Key -> bool) (ds : list Doc) (ms ms' : MiniSearch.t Doc) :
  MiniSearch.addAll id_of same_key ds ms = (ms', true) ->
  MiniSearch.fields ms' = MiniSearch.fields ms.
Proof.
  revert ms. induction ds as [|d ds IH]; intros ms; cbn [MiniSearch.addAll].
  - by intros [= <-].
  - unfold MiniSearch.add. destruct (id_of d) as [k|]; [|done].
    destruct (MiniSearch.has_id id_of same_key k ms); [done|].
    intros H. by apply IH in H.
Qed.

(** X23: loading a snapshot whose [fields] and [documents] are arrays.
    When [addAll] accepts the documents, the index holds all of them in
    order, with the snapshot's own field list; when [addAll] throws
    inside the [try], the index is the empty one. A single document
    without an [id] is enough for that: the whole snapshot is dropped and
    a query is answered 404 although the snapshot holds documents. *)
Theorem X23_loading_a_valid_snapshot {Hit : Type}
    (JSON_parse : string -> option JSValue)
    (search : SearchRoute.Index -> string -> option (list Hit))
    (indexData q : string) (parsedData : JSValue) (fields documents : list JSValue) :
  JSON_parse indexData = Some parsedData ->
  JSValues.prop "fields" parsedData = Some (JArr fields) ->
  JSValues.prop "documents" parsedData = Some (JArr documents) ->
  let loaded := SearchRoute.loadIndex JSON_parse (Some indexData) in
  (snd (SearchRoute.addAll documents (MiniSearch.new fields)) = true ->
     loaded = MiniSearch.mk fields documents
     /\ MiniSearch.documentCount loaded = length documents)
  /\ (snd (SearchRoute.addAll documents (MiniSearch.new fields)) = false ->
      loaded = SearchRoute.empty_index)
  /\ ((exists d, d ∈ documents /\ SearchRoute.id_of d = None) ->
      JS.falsy q = false ->
      loaded = SearchRoute.empty_index
      /\ SearchRoute.GET JSON_parse search (Some q) (Some indexData)
         = SearchRoute.NoDocumentsIndexed).
Proof.
  intros Hparse Hf Hd. cbv zeta.
  assert (Hload : SearchRoute.loadIndex JSON_parse (Some indexData)
                  = match SearchRoute.addAll documents (MiniSearch.new fields) with
                    | (miniSearch, true) => miniSearch
                    | (_, false) => SearchRoute.empty_index
                    end).
  { unfold SearchRoute.loadIndex, SearchRoute.tryLoad. rewrite Hparse.
    destruct parsedData as [| | | | |props]; try discriminate Hf.
    rewrite Hf, Hd. cbn [JSValues.falsy JSValues.isArray orb negb].
    by destruct (SearchRoute.addAll documents (MiniSearch.new fields)) as [m [|]]. }
  split; [|split].
  - intros Hok. rewrite Hload.
    destruct (SearchRoute.addAll documents (MiniSearch.new fields)) as [m ok] eqn:Hadd.
    cbn [snd] in Hok. subst ok. unfold SearchRoute.addAll in Hadd.
    pose proof (addAll_documents _ _ _ _ _ Hadd) as Hdocs.
    pose proof (addAll_fields _ _ _ _ _ Hadd) as Hfields.
    destruct m as [mf md]. cbn [MiniSearch.fields MiniSearch.documents MiniSearch.new app] in *.
    subst. split; [done|]. done.
  - intros Hko. rewrite Hload.
    destruct (SearchRoute.addAll documents (MiniSearch.new fields)) as [m ok].
    cbn [snd] in Hko. by subst ok.
  - intros (d & Hin & Hid) Hq.
    pose proof (addAll_bad_document documents (MiniSearch.new fields) d Hin Hid) as Hko.
    assert (He : SearchRoute.loadIndex JSON_parse (Some indexData) = SearchRoute.empty_index).
    { rewrite Hload.
      destruct (SearchRoute.addAll documents (MiniSearch.new fields)) as [m ok].
      cbn [snd] in Hko. by subst ok. }
    split; [done|]. unfold SearchRoute.GET. by rewrite Hq, He.
Qed.

Lemma X23_loading_a_valid_snapshot_witness :
  let parsed := JObj [("fields", JArr [JStr "title"]);
                      ("documents", JArr [JObj [("id", JStr "https://example.com/");
                                                ("title", JStr "Home")];
                                          JObj [("title", JStr "No identity")]])] in
  let parse := fun _ : string => Some parsed in
  SearchRoute.loadIndex parse (Some "{...}") = SearchRoute.empty_index
  /\ SearchRoute.GET parse (fun _ _ => Some [tt]) (Some "home") (Some "{...}")
     = SearchRoute.NoDocumentsIndexed.
Proof.
  cbv zeta.
  eapply (X23_loading_a_valid_snapshot
            (fun _ : string =>
               Some (JObj [("fields", JArr [JStr "title"]);
                           ("documents", JArr [JObj [("id", JStr "https://example.com/");
                                                     ("title", JStr "Home")];
                                               JObj [("title", JStr "No identity")]])]))
            (fun _ _ => Some [tt]) "{...}" "home").
  - reflexivity.
  - reflexivity.
  - reflexivity.
  - exists (JObj [("title", JStr "No identity")]). split; [|reflexivity].
    apply list_elem_of_further, list_elem_of_here.
  - reflexivity.
Defined.
